(** * moviepy.video.VideoClip: a shallow embedding and its checked properties

    The development follows [src/moviepy/video/VideoClip.py]:

    - [Layout]: the three nested helpers of [TextClip.__init__]
      ([break_text], [find_text_size], [find_optimum_font_size]) over an
      abstract font boundary (Pillow's [multiline_textbbox]);
    - [Construction]: the argument checks of [TextClip.__init__] and
      [ColorClip.__init__];
    - [Blit]: size reconciliation and position resolution of
      [VideoClip.blit_on];
    - [Clips]: frame functions, [image_transform], [to_mask], [to_RGB],
      [ImageClip], [BitmapClip], [DataVideoClip], [UpdatedVideoClip],
      [fill_array], [save_frame];
    - [Store]: objects, references and [VideoClip.__copy__];
    - [Writing]: the files [write_videofile] touches.

    Python integers are [Z]; Python floats are modelled by exact rationals
    [Q]; [None]-able arguments are [option]; a raised exception is the
    [inl] case of a sum. *)

From Stdlib Require Import ZArith QArith Qround Lia Lqa Bool Ascii String.
From stdpp Require Import gmap strings list.
From Equations Require Import Equations.

Local Open Scope Z_scope.

(** ** Python helpers *)

(** Truthiness of a [str]: the empty string is falsy. *)
Definition truthy (s : string) : bool :=
  match s with
  | EmptyString => false
  | String _ _ => true
  end.

Definition space : ascii := " "%char.
Definition newline : string := String (ascii_of_nat 10) EmptyString.

(** [text.split(' ')]: cut at every single space; consecutive spaces give
    empty words; the result is never the empty list. *)
Fixpoint split_space (s : string) : list string :=
  match s with
  | EmptyString => [EmptyString]
  | String c s' =>
      if Ascii.eqb c space then EmptyString :: split_space s'
      else match split_space s' with
           | w :: ws => String c w :: ws
           | [] => [String c EmptyString]
           end
  end.

(** [sep.join(l)]. *)
Fixpoint join (sep : string) (l : list string) : string :=
  match l with
  | [] => EmptyString
  | [x] => x
  | x :: rest => x +:+ sep +:+ join sep rest
  end.

(** Is [a] a contiguous part of [b]? *)
Definition substring_of (a b : string) : Prop :=
  exists p q : string, b = p +:+ a +:+ q.

(** ** The text layout engine *)

Module Layout.

(** A bounding box as Pillow returns it: (left, top, right, bottom). *)
Definition bbox : Type := (Z * Z * Z * Z)%type.

(** The arguments every layout helper passes through to Pillow. *)
Record style := Style {
  font : string;
  stroke_width : Z;
  align : string;
  spacing : Z
}.

Section WithFont.

(** The font boundary: [ImageDraw.multiline_textbbox((0,0), text,
    font=truetype(font, font_size), spacing, align, stroke_width, anchor)].
    The anchor is [None] in [break_text] and ["lm"] in [find_text_size]. *)
Variable multiline_textbbox :
  style -> Z (* font_size *) -> option string (* anchor *) -> string -> bbox.

(** *** break_text *)

(** The measured width of one tentative line, as [break_text] takes it. *)
Definition line_width (st : style) (font_size : Z) (line : string) : Z :=
  let '(temp_left, _, temp_right, _) :=
    multiline_textbbox st font_size None line in
  temp_right - temp_left.

(** The tentative line of one loop iteration. *)
Definition temp_line_of (current_line word : string) : string :=
  if truthy current_line then current_line +:+ " " +:+ word else word.

(** One iteration of the [for word in words] loop on the pair
    (lines, current_line). *)
Definition break_step (width : Z) (st : style) (font_size : Z)
    (acc : list string * string) (word : string) : list string * string :=
  let '(lines, current_line) := acc in
  let temp_line := temp_line_of current_line word in
  let temp_width := line_width st font_size temp_line in
  if temp_width <=? width then (lines, temp_line)
  else (lines ++ [current_line], word).

(** The loop from an arbitrary state, then the final flush. *)
Definition break_loop (width : Z) (st : style) (font_size : Z)
    (acc : list string * string) (words : list string)
    : list string * string :=
  fold_left (break_step width st font_size) words acc.

Definition flush (acc : list string * string) : list string :=
  let '(lines, current_line) := acc in
  if truthy current_line then lines ++ [current_line] else lines.

Definition break_text (width : Z) (text : string) (st : style)
    (font_size : Z) : list string :=
  flush (break_loop width st font_size ([], EmptyString) (split_space text)).

(** *** find_text_size *)

Definition find_text_size (text : string) (st : style) (font_size : Z)
    (max_width : option Z) (allow_break : bool) : Z * Z :=
  match max_width, allow_break with
  | Some mw, true =>
      let lines := break_text mw text st font_size in
      let '(left_, top, right_, bottom) :=
        multiline_textbbox st font_size (Some "lm") (join newline lines) in
      (right_ - left_, bottom - top)
  | _, _ =>
      let '(left_, top, right_, bottom) :=
        multiline_textbbox st font_size (Some "lm") text in
      (right_ - left_, bottom - top)
  end.

(** *** find_optimum_font_size *)

(** The test shared by the loop and by the final re-validation:
    [text_width <= width and (height is None or text_height <= height)]. *)
Definition fits (text : string) (st : style) (width : Z) (height : option Z)
    (allow_break : bool) (font_size : Z) : bool :=
  let '(text_width, text_height) :=
    find_text_size text st font_size (Some width) allow_break in
  (text_width <=? width)
  && match height with
     | None => true
     | Some h => text_height <=? h
     end.

(** The [while min_font_size < max_font_size] loop; it returns the final
    [min_font_size]. *)
Equations? bisect (fit : Z -> bool) (min_font_size max_font_size : Z) : Z
  by wf (Z.to_nat (max_font_size - min_font_size)) lt :=
  bisect fit min_font_size max_font_size
    with Z_lt_dec min_font_size max_font_size => {
    | right _ := min_font_size
    | left _ with fit ((max_font_size + min_font_size) / 2) => {
      | true :=
          bisect fit ((max_font_size + min_font_size) / 2 + 1) max_font_size
      | false :=
          bisect fit min_font_size ((max_font_size + min_font_size) / 2 - 1)
      }
    }.
Proof.
  all: assert (min_font_size <= (max_font_size + min_font_size) / 2
               < max_font_size)
    by (split; [apply Z.div_le_lower_bound | apply Z.div_lt_upper_bound];
        lia);
    lia.
Qed.

Definition find_optimum_font_size (text : string) (st : style) (width : Z)
    (height : option Z) (allow_break : bool) : Z :=
  let fit := fits text st width height allow_break in
  let min_font_size := bisect fit 1 width in
  if fit min_font_size then min_font_size else min_font_size - 1.

(** *** Loop invariants and the stated optimum *)

(** [break_text]: every emitted line, and the current line unless it is
    still empty, is within the width. *)
Definition within (width : Z) (st : style) (font_size : Z)
    (acc : list string * string) : Prop :=
  (forall l, l ∈ acc.1 -> line_width st font_size l <= width)
  /\ (acc.2 = EmptyString \/ line_width st font_size acc.2 <= width).

(** [break_text]: when even the empty text is too wide, the empty line has
    been, or is about to be, emitted. *)
Definition empty_seen (width : Z) (st : style) (font_size : Z)
    (acc : list string * string) : Prop :=
  width < line_width st font_size EmptyString ->
  EmptyString ∈ acc.1 \/ acc.2 = EmptyString.

End WithFont.

(** What the bisection loop maintains about its two bounds. *)
Definition bisect_inv (fit : Z -> bool) (width lo hi : Z) : Prop :=
  1 <= lo /\ hi <= width
  /\ (lo <= hi \/ (lo = hi + 1 /\ hi < width))
  /\ (1 < lo -> fit (lo - 1) = true)
  /\ (hi < width -> fit (hi + 1) = false).

(** What is known about the lower bound when the loop has ended. *)
Definition bisect_post (fit : Z -> bool) (width r : Z) : Prop :=
  1 <= r <= width
  /\ (1 < r -> fit (r - 1) = true)
  /\ ((r < width -> fit (r + 1) = false) \/ fit r = false).

(** The optimum as the specification words it: the largest size of
    [1, width] that fits, the next size not fitting. *)
Definition largest_fit (fit : Z -> bool) (width s : Z) : Prop :=
  1 <= s <= width
  /\ fit s = true
  /\ fit (s + 1) = false
  /\ (forall s', 1 <= s' <= width -> fit s' = true -> s' <= s).

(** The measured size may only grow with the font size, on [1, width]. *)
Definition downward_closed (fit : Z -> bool) (width : Z) : Prop :=
  forall a b, 1 <= a <= b -> b <= width -> fit b = true -> fit a = true.

(** *** A sample font

    Every glyph of this fixed-pitch font is [(font_size + 1) / 2] pixels wide
    and [font_size] pixels high; lines are separated by [spacing] pixels. *)

Fixpoint split_lines (s : string) : list string :=
  match s with
  | EmptyString => [EmptyString]
  | String c s' =>
      if Ascii.eqb c (ascii_of_nat 10) then EmptyString :: split_lines s'
      else match split_lines s' with
           | w :: ws => String c w :: ws
           | [] => [String c EmptyString]
           end
  end.

(** The width of the widest row. *)
Definition widest (advance : Z) (rows : list string) : Z :=
  fold_right Z.max 0 (map (fun r => advance * Z.of_nat (String.length r)) rows).

Definition mono_textbbox (st : style) (font_size : Z) (anchor : option string)
    (text : string) : bbox :=
  let rows := split_lines text in
  let n := Z.of_nat (length rows) in
  (0, 0, widest ((font_size + 1) / 2) rows,
   n * font_size + (n - 1) * spacing st).

(** Rows of a concatenation: the last row of the first text continues into
    the first row of the second. *)
Fixpoint glue (xs ys : list string) : list string :=
  match xs with
  | [] => ys
  | [x] => match ys with
           | y :: ys' => (x +:+ y) :: ys'
           | [] => [x]
           end
  | x :: xs' => x :: glue xs' ys
  end.

Definition plain : style :=
  {| font := "mono.ttf"; stroke_width := 0; align := "left"; spacing := 4 |}.

(** *** Words of a text *)

(** Does the string hold a space? *)
Fixpoint has_space (s : string) : bool :=
  match s with
  | EmptyString => false
  | String c s' => Ascii.eqb c space || has_space s'
  end.

(** The words of a text that are not empty, in order. *)
Definition nonempty_words (s : string) : list string :=
  filter (fun w => truthy w = true) (split_space s).

(** The words, not empty, that a state of the [break_text] loop holds. *)
Definition words_so_far (acc : list string * string) : list string :=
  flat_map nonempty_words acc.1 ++ nonempty_words acc.2.

End Layout.


(** ** Exceptions *)

Inductive error :=
| ValueError (msg : string)
| Exception_ (msg : string)
| AssertionError
| AttributeError (name : string)
| KeyError (key : string)
| IndexError
| TypeError
| ZeroDivisionError
| OSError.

(** A call either raises ([inl]) or returns ([inr]). *)
Definition result (A : Type) : Type := (error + A)%type.

#[global] Instance result_ret : MRet result := fun A x => inr x.
#[global] Instance result_bind : MBind result :=
  fun A B f m => match m with inl e => inl e | inr a => f a end.
#[global] Instance result_fmap : FMap result :=
  fun A B f m => match m with inl e => inl e | inr a => inr (f a) end.

Definition raise {A : Type} (e : error) : result A := inl e.

Definition raised {A : Type} (m : result A) : Prop := exists e, m = inl e.

(** A [for] loop whose body may raise. *)
Fixpoint for_each {A S : Type} (body : S -> A -> result S) (s : S)
    (items : list A) : result S :=
  match items with
  | [] => mret s
  | x :: rest => s' ← body s x; for_each body s' rest
  end.

(** [int(x)] on a number: truncation toward zero. *)
Definition Qtrunc (q : Q) : Z := Z.quot (Qnum q) (Zpos (Qden q)).

(** ** Clips as values *)

Module Clips.

(** *** numpy arrays

    A frame is a two-dimensional array (a mask) or a three-dimensional one
    (height, width, channels); cells are numbers. *)
Inductive ndarray :=
| Arr2 (h w : Z) (cell : Z -> Z -> Q)
| Arr3 (h w c : Z) (cell : Z -> Z -> Z -> Q).

(** [a.shape[:2][::-1]]: (width, height). *)
Definition shape_size (a : ndarray) : Z * Z :=
  match a with
  | Arr2 h w _ => (w, h)
  | Arr3 h w _ _ => (w, h)
  end.

(** An index into an axis of length [n]: negative indices count from the
    end; anything else out of range raises. *)
Definition norm_index (n i : Z) : result Z :=
  if (0 <=? i) && (i <? n) then mret i
  else if (- n <=? i) && (i <? 0) then mret (n + i)
  else raise IndexError.

(** [pic[:, :, canal]]. *)
Definition channel (pic : ndarray) (canal : Z) : result ndarray :=
  match pic with
  | Arr3 h w c cell =>
      k ← norm_index c canal; mret (Arr2 h w (fun y x => cell y x k))
  | Arr2 _ _ _ => raise IndexError
  end.

(** [pic[:, :, :3]]. *)
Definition first3 (pic : ndarray) : ndarray :=
  match pic with
  | Arr3 h w c cell => Arr3 h w (Z.min c 3) cell
  | Arr2 h w cell => Arr2 h w cell
  end.

Definition map_cells (f : Q -> Q) (a : ndarray) : ndarray :=
  match a with
  | Arr2 h w cell => Arr2 h w (fun y x => f (cell y x))
  | Arr3 h w c cell => Arr3 h w c (fun y x k => f (cell y x k))
  end.

(** [1.0 * a / 255]. *)
Definition normalize (a : ndarray) : ndarray :=
  map_cells (fun v => 1 * v / 255)%Q a.

(** [255 * a]. *)
Definition times255 (a : ndarray) : ndarray :=
  map_cells (fun v => 255 * v)%Q a.


(** [a.astype("uint8")]: the fraction is dropped and the value wraps. *)
Definition uint8 (v : Q) : Q := inject_Z (Qtrunc v mod 256).
Definition astype_uint8 (a : ndarray) : ndarray := map_cells uint8 a.

(** *** Positions *)

Inductive coord :=
| CStr (s : string)
| CNum (q : Q).

Inductive position :=
| PosStr (s : string)
| PosPair (x y : coord).

(** *** The clip object *)

Inductive cls := VideoClipC | ImageClipC | ColorClipC | TextClipC | BitmapClipC.

(** The subclasses of [ImageClip]. *)
Definition is_image_class (k : cls) : bool :=
  match k with
  | ImageClipC | ColorClipC | TextClipC => true
  | VideoClipC | BitmapClipC => false
  end.

(** The attributes of a [VideoClip]. The audio companion is outside this
    module ([Store] has it); absent attributes are [None]. *)
#[warnings="-register-all"]
Inductive clip := Clip {
  klass : cls;
  start : Q;
  end_ : option Q;
  duration : option Q;
  make_frame : Q -> result ndarray;
  size : option (Z * Z);
  is_mask : bool;
  has_constant_size : bool;
  mask : option clip;
  pos : Q -> position;
  relative_pos : bool;
  layer : Z;
  img : option ndarray;
  fps : option Q
}.

Definition set_klass (k : cls) (c : clip) : clip :=
  Clip k (start c) (end_ c) (duration c) (make_frame c) (size c) (is_mask c)
    (has_constant_size c) (mask c) (pos c) (relative_pos c) (layer c) (img c)
    (fps c).

Definition set_duration (e d : option Q) (c : clip) : clip :=
  Clip (klass c) (start c) e d (make_frame c) (size c) (is_mask c)
    (has_constant_size c) (mask c) (pos c) (relative_pos c) (layer c) (img c)
    (fps c).

Definition set_make_frame (mf : Q -> result ndarray) (c : clip) : clip :=
  Clip (klass c) (start c) (end_ c) (duration c) mf (size c) (is_mask c)
    (has_constant_size c) (mask c) (pos c) (relative_pos c) (layer c) (img c)
    (fps c).

Definition set_size (s : option (Z * Z)) (c : clip) : clip :=
  Clip (klass c) (start c) (end_ c) (duration c) (make_frame c) s (is_mask c)
    (has_constant_size c) (mask c) (pos c) (relative_pos c) (layer c) (img c)
    (fps c).

Definition set_is_mask (b : bool) (c : clip) : clip :=
  Clip (klass c) (start c) (end_ c) (duration c) (make_frame c) (size c) b
    (has_constant_size c) (mask c) (pos c) (relative_pos c) (layer c) (img c)
    (fps c).

Definition set_has_constant_size (b : bool) (c : clip) : clip :=
  Clip (klass c) (start c) (end_ c) (duration c) (make_frame c) (size c)
    (is_mask c) b (mask c) (pos c) (relative_pos c) (layer c) (img c) (fps c).

Definition set_mask (m : option clip) (c : clip) : clip :=
  Clip (klass c) (start c) (end_ c) (duration c) (make_frame c) (size c)
    (is_mask c) (has_constant_size c) m (pos c) (relative_pos c) (layer c)
    (img c) (fps c).

Definition set_pos (p : Q -> position) (rel : bool) (c : clip) : clip :=
  Clip (klass c) (start c) (end_ c) (duration c) (make_frame c) (size c)
    (is_mask c) (has_constant_size c) (mask c) p rel (layer c) (img c) (fps c).

Definition set_img (a : option ndarray) (c : clip) : clip :=
  Clip (klass c) (start c) (end_ c) (duration c) (make_frame c) (size c)
    (is_mask c) (has_constant_size c) (mask c) (pos c) (relative_pos c)
    (layer c) a (fps c).

Definition set_fps (f : option Q) (c : clip) : clip :=
  Clip (klass c) (start c) (end_ c) (duration c) (make_frame c) (size c)
    (is_mask c) (has_constant_size c) (mask c) (pos c) (relative_pos c)
    (layer c) (img c) f.

(** Modelled from the spec: [Clip.get_frame] of moviepy/Clip.py, the frame
    function [F] applied to the time (section 3 of the specification). *)
Definition get_frame (c : clip) (t : Q) : result ndarray := make_frame c t.

(** [VideoClip.__init__]. The attributes [Clip.__init__] sets first are the
    timeline offsets, a clip starting at 0 with no end and no duration. *)
Definition VideoClip_init (k : cls) (mf : option (Q -> result ndarray))
    (is_mask_arg : bool) (duration_arg : option Q)
    (has_constant_size_arg : bool) : result clip :=
  let self :=
    {| klass := k; start := 0; end_ := None; duration := None;
       make_frame := fun _ => raise (AttributeError "make_frame");
       size := None; is_mask := false; has_constant_size := true;
       mask := None;
       pos := fun _ => PosPair (CNum 0) (CNum 0);
       relative_pos := false; layer := 0; img := None; fps := None |} in
  self ← match mf with
         | Some f =>
             let self := set_make_frame f self in
             frame0 ← get_frame self 0;
             mret (set_size (Some (shape_size frame0)) self)
         | None => mret self
         end;
  let self := set_has_constant_size has_constant_size_arg
                (set_is_mask is_mask_arg self) in
  mret match duration_arg with
       | Some d => set_duration (Some d) (Some d) self
       | None => self
       end.

(** [VideoClip.__copy__] on values: every attribute is carried over, [mask]
    through a copy of its own. Values have no identity, so the copy equals
    its source; what the copy shares and what it owns is the subject of
    [Store]. *)
Fixpoint copy (c : clip) : clip :=
  Clip (klass c) (start c) (end_ c) (duration c) (make_frame c) (size c)
    (is_mask c) (has_constant_size c)
    (match mask c with
     | Some m => Some (copy m)
     | None => None
     end)
    (pos c) (relative_pos c) (layer c) (img c) (fps c).

(** [with_make_frame], an outplace method: the body runs on a copy, which
    is returned (the glossary of the specification on the [outplace]
    decorator of moviepy/decorators.py). *)
Definition with_make_frame (c : clip) (mf : Q -> result ndarray)
    : result clip :=
  let self := set_make_frame mf (copy c) in
  frame0 ← get_frame self 0;
  mret (set_size (Some (shape_size frame0)) self).

(** The loop [for attr in apply_to] shared by the transforms: of the
    companions only [mask] is an attribute of this module's clips, every
    other name reads as [None] and is skipped. *)
Definition apply_attr (f : clip -> result clip) (new_clip : clip)
    (attr : string) : result clip :=
  if String.eqb attr "mask" then
    match mask new_clip with
    | Some a => new_a ← f a; mret (set_mask (Some new_a) new_clip)
    | None => mret new_clip
    end
  else mret new_clip.

(** Modelled from the spec: [Clip.transform] of moviepy/Clip.py, "composes a
    two-argument function (F, t) -> frame directly"; [keep_duration] false
    clears the duration. First without companions, as the companions
    themselves are transformed. *)
Definition Clip_transform_alone (c : clip)
    (func : (Q -> result ndarray) -> Q -> result ndarray)
    (keep_duration : bool) : result clip :=
  new_clip ← with_make_frame c (fun t => func (get_frame c) t);
  mret (if keep_duration then new_clip else set_duration None None new_clip).

(** [ImageClip.transform] resets the class of its result to [VideoClip]. *)
Definition transform_alone (c : clip)
    (func : (Q -> result ndarray) -> Q -> result ndarray)
    (keep_duration : bool) : result clip :=
  new_clip ← Clip_transform_alone c func keep_duration;
  mret (if is_image_class (klass c) then set_klass VideoClipC new_clip
        else new_clip).

Definition transform (c : clip)
    (func : (Q -> result ndarray) -> Q -> result ndarray)
    (apply_to : list string) (keep_duration : bool) : result clip :=
  new_clip ← Clip_transform_alone c func keep_duration;
  new_clip ← for_each
               (apply_attr (fun a => transform_alone a func keep_duration))
               new_clip apply_to;
  mret (if is_image_class (klass c) then set_klass VideoClipC new_clip
        else new_clip).

(** [VideoClip.image_transform]: the lazy, general case. *)
Definition lazy_func (image_func : ndarray -> result ndarray)
    : (Q -> result ndarray) -> Q -> result ndarray :=
  fun get_frame t => pic ← get_frame t; image_func pic.

Definition VideoClip_image_transform (c : clip)
    (image_func : ndarray -> result ndarray) (apply_to : list string)
    : result clip :=
  transform c (lazy_func image_func) apply_to true.

(** [ImageClip.image_transform]: the eager case, an outplace method. The
    companions named by [apply_to] are transformed through the method their
    own class has, without companions of their own. *)
Definition ImageClip_image_transform_alone (c : clip)
    (image_func : ndarray -> result ndarray) : result clip :=
  let self := copy c in
  arr ← (frame0 ← get_frame self 0; image_func frame0);
  mret (set_img (Some arr)
          (set_make_frame (fun _ => mret arr)
             (set_size (Some (shape_size arr)) self))).

Definition image_transform_alone (c : clip)
    (image_func : ndarray -> result ndarray) : result clip :=
  if is_image_class (klass c) then ImageClip_image_transform_alone c image_func
  else transform_alone c (lazy_func image_func) true.

Definition ImageClip_image_transform (c : clip)
    (image_func : ndarray -> result ndarray) (apply_to : list string)
    : result clip :=
  self ← ImageClip_image_transform_alone c image_func;
  for_each (apply_attr (fun a => image_transform_alone a image_func))
    self apply_to.

(** Method dispatch on the class of the receiver. *)
Definition image_transform (c : clip)
    (image_func : ndarray -> result ndarray) (apply_to : list string)
    : result clip :=
  if is_image_class (klass c) then ImageClip_image_transform c image_func apply_to
  else VideoClip_image_transform c image_func apply_to.

(** [to_mask] and [to_RGB]. *)
Definition to_mask (c : clip) (canal : Z) : result clip :=
  if is_mask c then mret c
  else
    new_clip ← image_transform c
                 (fun pic => ch ← channel pic canal; mret (normalize ch)) [];
    mret (set_is_mask true new_clip).


(** *** ImageClip *)

(** The last three assignments of [ImageClip.__init__]. *)
Definition ImageClip_finish (self : clip) (img_arg : ndarray) : clip :=
  set_img (Some img_arg)
    (set_size (Some (shape_size img_arg))
       (set_make_frame (fun _ => mret img_arg) self)).

(** [ImageClip.__init__] on an array (reading a picture file is outside the
    model). The mask made from an alpha layer is itself an [ImageClip] of a
    two-dimensional array, for which only the last assignments run. *)
Definition ImageClip_init (k : cls) (img_arg : ndarray) (is_mask_arg : bool)
    (transparent fromalpha : bool) (duration_arg : option Q) : result clip :=
  self ← VideoClip_init k None is_mask_arg duration_arg true;
  '(self, img_arg) ←
    match img_arg with
    | Arr3 _ _ c _ =>
        if c =? 4 then
          if fromalpha then
            a ← channel img_arg 3; mret (self, normalize a)
          else if is_mask_arg then
            a ← channel img_arg 0; mret (self, normalize a)
          else if transparent then
            a ← channel img_arg 3;
            m ← VideoClip_init ImageClipC None true None true;
            mret (set_mask (Some (ImageClip_finish m (normalize a))) self,
                  first3 img_arg)
          else mret (self, img_arg)
        else if is_mask_arg then
          a ← channel img_arg 0; mret (self, normalize a)
        else mret (self, img_arg)
    | Arr2 _ _ _ => mret (self, img_arg)
    end;
  mret (ImageClip_finish self img_arg).

(** *** BitmapClip *)

Definition DEFAULT_COLOR_DICT : gmap string (Z * Z * Z) :=
  list_to_map
    [ ("R", (255, 0, 0)); ("G", (0, 255, 0)); ("B", (0, 0, 255));
      ("O", (0, 0, 0)); ("W", (255, 255, 255)); ("A", (89, 225, 62));
      ("C", (113, 157, 108)); ("D", (215, 182, 143)); ("E", (57, 26, 252));
      ("F", (225, 135, 33)) ].

(** Iterating a [str] yields its characters as one-letter strings. *)
Fixpoint chars (s : string) : list string :=
  match s with
  | EmptyString => []
  | String c s' => String c EmptyString :: chars s'
  end.

(** [[self.color_dict[color] for color in row]]. *)
Definition decode_row (color_dict : gmap string (Z * Z * Z)) (row : string)
    : result (list (Z * Z * Z)) :=
  mapM (fun color =>
          match color_dict !! color with
          | Some rgb => mret rgb
          | None => raise (KeyError color)
          end)
       (chars row).

Definition rgb_component (p : Z * Z * Z) (k : Z) : Z :=
  let '(r, g, b) := p in
  if k =? 0 then r else if k =? 1 then g else b.

(** [np.array(output_frame)] on rows of triples: rows of unequal length
    raise; no row at all is an array of no extent. *)
Definition np_array (rows : list (list (Z * Z * Z))) : result ndarray :=
  let w := match rows with
           | r :: _ => length r
           | [] => 0%nat
           end in
  if forallb (fun r => Nat.eqb (length r) w) rows then
    mret (Arr3 (Z.of_nat (length rows)) (Z.of_nat w) 3
            (fun y x k =>
               inject_Z
                 (rgb_component
                    (nth (Z.to_nat x) (nth (Z.to_nat y) rows []) (0, 0, 0))
                    k)))
  else raise (ValueError "inhomogeneous shape").

Definition decode_frame (color_dict : gmap string (Z * Z * Z))
    (input_frame : list string) : result ndarray :=
  output_frame ← mapM (decode_row color_dict) input_frame;
  np_array output_frame.

(** [np.array(frame_list)]: the frames must agree in shape. *)
Definition stack_frames (frame_list : list ndarray) : result (list ndarray) :=
  let shape0 := match frame_list with
                | f :: _ => shape_size f
                | [] => (0, 0)
                end in
  if forallb (fun f => bool_decide (shape_size f = shape0)) frame_list
  then mret frame_list
  else raise (ValueError "inhomogeneous shape").

(** [frame_array[int(t * fps)]]. *)
Definition frame_at (frame_array : list ndarray) (fps_arg : Q) (t : Q)
    : result ndarray :=
  i ← norm_index (Z.of_nat (length frame_array)) (Qtrunc (t * fps_arg));
  match frame_array !! Z.to_nat i with
  | Some f => mret f
  | None => raise IndexError
  end.

Record bitmap_clip := BitmapClip {
  bc_clip : clip;
  color_dict : gmap string (Z * Z * Z);
  total_frames : Z
}.

(** [color_dict if color_dict else self.DEFAULT_COLOR_DICT]: an empty
    dictionary is falsy. *)
Definition effective_color_dict
    (color_dict_arg : option (gmap string (Z * Z * Z)))
    : gmap string (Z * Z * Z) :=
  match color_dict_arg with
  | Some d => if bool_decide (d = ∅) then DEFAULT_COLOR_DICT else d
  | None => DEFAULT_COLOR_DICT
  end.

(** The decoding loop and [np.array(frame_list)]. *)
Definition decode_frames (color_dict : gmap string (Z * Z * Z))
    (bitmap_frames : list (list string)) : result (list ndarray) :=
  frame_list ← mapM (decode_frame color_dict) bitmap_frames;
  stack_frames frame_list.

(** [BitmapClip.__init__]. Dividing by a [duration] that is [None], which
    the assertion excludes, would be a type error. *)
Definition BitmapClip_init (bitmap_frames : list (list string))
    (fps_arg duration_arg : option Q)
    (color_dict_arg : option (gmap string (Z * Z * Z))) (is_mask_arg : bool)
    : result bitmap_clip :=
  if bool_decide (fps_arg = None) && bool_decide (duration_arg = None)
  then raise AssertionError
  else
    let color_dict := effective_color_dict color_dict_arg in
    frame_array ← decode_frames color_dict bitmap_frames;
    let total := Z.of_nat (length frame_array) in
    '(fps_arg, duration_arg) ←
      match fps_arg, duration_arg with
      | None, Some d =>
          if Qeq_bool d 0 then raise ZeroDivisionError
          else mret ((inject_Z total / d)%Q, Some d)
      | Some f, _ =>
          if Qeq_bool f 0 then raise ZeroDivisionError
          else mret (f, Some (inject_Z total / f)%Q)
      | None, None => raise TypeError
      end;
    self ← VideoClip_init BitmapClipC
             (Some (frame_at frame_array fps_arg)) is_mask_arg duration_arg
             true;
    mret (BitmapClip (set_fps (Some fps_arg) self) color_dict total).

(** The two frames of the docstring of [BitmapClip.__init__], a grid five
    wide and three high. *)
Definition docstring_frames : list (list string) :=
  [ ["RRRRR"; "RRBRR"; "RRBRR"]; ["RGGGR"; "RGGGR"; "RGGGR"] ].

Definition docstring_arrays : list ndarray :=
  match decode_frames DEFAULT_COLOR_DICT docstring_frames with
  | inr frame_array => frame_array
  | inl _ => []
  end.

(** A clip that shows the array [a] at all times: what
    [ImageClip(a)] builds from an array without alpha layer. *)
Definition still (a : ndarray) : clip :=
  {| klass := ImageClipC; start := 0; end_ := None; duration := None;
     make_frame := fun _ => mret a; size := Some (shape_size a);
     is_mask := false; has_constant_size := true; mask := None;
     pos := fun _ => PosPair (CNum 0) (CNum 0); relative_pos := false;
     layer := 0; img := Some a; fps := None |}.

(** A red picture, two pixels wide and one high. *)
Definition red : ndarray :=
  Arr3 1 2 3 (fun _ _ k => if k =? 0 then 255%Q else 0%Q).

(** The negative of a picture. *)
Definition invert (pic : ndarray) : result ndarray :=
  mret (map_cells (fun v => 255 - v)%Q pic).

(** A clip whose frame does not depend on the time. *)
Definition static (c : clip) : Prop :=
  forall t, make_frame c t = make_frame c 0.

(** *** Further methods of clips *)

(** [with_mask], an outplace method; the mask has to be a mask. *)
Definition with_mask (c : clip) (m : option clip) : result clip :=
  let self := copy c in
  match m with
  | Some mk =>
      if is_mask mk then mret (set_mask (Some mk) self)
      else raise AssertionError
  | None => mret (set_mask None self)
  end.

(** [to_ImageClip(t, with_mask, duration)]: the frame of time [t] as an
    [ImageClip]; the mask, if asked for, through its own [to_ImageClip(t)]
    with the default arguments. *)
Fixpoint to_ImageClip (c : clip) (t : Q) (with_mask_arg : bool)
    (duration_arg : option Q) : result clip :=
  match c with
  | Clip _ _ _ _ mf _ im _ m _ _ _ _ _ =>
      frame ← mf t;
      new_clip ← ImageClip_init ImageClipC frame im true false duration_arg;
      if with_mask_arg then
        match m with
        | Some a =>
            new_mask ← to_ImageClip a t true None;
            mret (set_mask (Some new_mask) new_clip)
        | None => mret new_clip
        end
      else mret new_clip
  end.

(** A frame that [ImageClip.__init__] keeps as it is: a two-dimensional
    array, or for a clip that is not a mask a three-dimensional one without
    a fourth channel. *)
Definition kept_frame (is_mask_arg : bool) (frame : ndarray) : Prop :=
  match frame with
  | Arr2 _ _ _ => True
  | Arr3 _ _ c _ => is_mask_arg = false /\ c <> 4
  end.

Section TimeTransform.

(** [Clip.time_transform] of moviepy/Clip.py, the method of the clips that
    are not [ImageClip]s. *)
Variable Clip_time_transform : clip -> (Q -> Q) -> result clip.

(** [a.time_transform(time_func)] with the default [apply_to], which for an
    [ImageClip] is ["mask", "audio"]: the clip itself is only copied, its
    mask is transformed through the method of its own class. *)
Fixpoint time_transform_default (c : clip) (time_func : Q -> Q)
    : result clip :=
  match c with
  | Clip k _ _ _ _ _ _ _ m _ _ _ _ _ =>
      if is_image_class k then
        match m with
        | Some a =>
            new_a ← time_transform_default a time_func;
            mret (set_mask (Some new_a) (copy c))
        | None => mret (copy c)
        end
      else Clip_time_transform c time_func
  end.

(** [ImageClip.time_transform(time_func, apply_to, keep_duration)], an
    outplace method. *)
Definition ImageClip_time_transform (c : clip) (time_func : Q -> Q)
    (apply_to : option (list string)) (keep_duration : bool) : result clip :=
  for_each (apply_attr (fun a => time_transform_default a time_func))
    (copy c) (default ["mask"; "audio"] apply_to).

End TimeTransform.

(** A clip of an image class all of whose nested masks are of an image
    class too. *)
Fixpoint all_images (c : clip) : bool :=
  match c with
  | Clip k _ _ _ _ _ _ _ m _ _ _ _ _ =>
      is_image_class k
      && match m with
         | Some a => all_images a
         | None => true
         end
  end.

(** *** DataVideoClip *)

(** [l[i]] on a Python list. *)
Definition py_index {A : Type} (l : list A) (i : Z) : result A :=
  k ← norm_index (Z.of_nat (length l)) i;
  match l !! Z.to_nat k with
  | Some x => mret x
  | None => raise IndexError
  end.

(** [DataVideoClip.__init__]. The class overrides no method of [VideoClip],
    whose tag it carries here. The duration, an argument of the call of
    [VideoClip.__init__], is computed before that call. *)
Definition DataVideoClip_init {D : Type} (data : list D)
    (data_to_frame : D -> result ndarray) (fps_arg : Q)
    (is_mask_arg has_constant_size_arg : bool) : result clip :=
  let make_frame := fun t : Q =>
    d ← py_index data (Qtrunc (fps_arg * t)); data_to_frame d in
  duration_arg ←
    (if Qeq_bool fps_arg 0 then raise ZeroDivisionError
     else mret (1 * inject_Z (Z.of_nat (length data)) / fps_arg)%Q);
  self ← VideoClip_init VideoClipC (Some make_frame) is_mask_arg
           (Some duration_arg) has_constant_size_arg;
  mret (set_fps (Some fps_arg) self).

(** *** UpdatedVideoClip *)

Section World.

(** The world: its clock, its step and its rendering. *)
Variable world : Type.
Variable clip_t : world -> Q.
Variable update : world -> world.
Variable to_frame : world -> ndarray.

(** [while self.world.clip_t < t: world.update()], with fuel for the
    iterations; the world is the state. *)
Fixpoint advance (fuel : nat) (w : world) (t : Q) : option world :=
  if Qlt_le_dec (clip_t w) t then
    match fuel with
    | O => None
    | S fuel => advance fuel (update w) t
    end
  else Some w.

(** The frame function of an [UpdatedVideoClip]: what it prints, the frame,
    and the world it leaves. *)
Definition updated_make_frame (fuel : nat) (w : world) (t : Q)
    : option (Q * ndarray * world) :=
  w' ← advance fuel w t; Some (t, to_frame w', w').

End World.

(** A world that counts: its clock advances by one half at each step, and
    it renders the clock on one pixel. *)
Definition ticking_frame (w : Q) : ndarray := Arr2 1 1 (fun _ _ => w).
Definition tick (w : Q) : Q := (w + (1 # 2))%Q.

(** *** More samples *)

(** A mask frame of one pixel, opaque. *)
Definition opaque_pixel : ndarray := Arr2 1 1 (fun _ _ => 1%Q).

(** The clip of the docstring of [BitmapClip.__init__], at one frame per
    second. *)
Definition docstring_clip : result bitmap_clip :=
  BitmapClip_init docstring_frames (Some 1%Q) None None false.

Definition bc_clip_of (r : result bitmap_clip) : clip :=
  match r with
  | inr bc => bc_clip bc
  | inl _ => still red
  end.

(** A picture of one pixel with an alpha layer: black, half transparent. *)
Definition rgba_pixel : ndarray :=
  Arr3 1 1 4 (fun _ _ k => if k =? 3 then 128%Q else 0%Q).

(** *** fill_array *)

(** [a[:stop]] along an axis of length [n]: how many entries are kept. A
    negative [stop] counts from the end. *)
Definition slice_stop (n stop : Z) : Z :=
  if stop <? 0 then Z.max 0 (n + stop) else Z.min n stop.

(** [a.shape[0]] and [a.shape[1]]. *)
Definition shape01 (a : ndarray) : Z * Z :=
  match a with
  | Arr2 h w _ => (h, w)
  | Arr3 h w _ _ => (h, w)
  end.

(** [a[:stop]]. *)
Definition take_rows (a : ndarray) (stop : Z) : ndarray :=
  match a with
  | Arr2 h w cell => Arr2 (slice_stop h stop) w cell
  | Arr3 h w c cell => Arr3 (slice_stop h stop) w c cell
  end.

(** [a[:, :stop]]. *)
Definition take_cols (a : ndarray) (stop : Z) : ndarray :=
  match a with
  | Arr2 h w cell => Arr2 h (slice_stop w stop) cell
  | Arr3 h w c cell => Arr3 h (slice_stop w stop) c cell
  end.

(** [np.vstack((a, [[[1, 1, 1]] * a.shape[1]] * rows))] for [rows > 0]. The
    nested list is an array of shape (rows, width, 3) when the width is
    positive and of shape (rows, 0) otherwise; stacking needs arrays of the
    same number of axes that agree on all axes but the first. *)
Definition vstack_ones (a : ndarray) (rows : Z) : result ndarray :=
  match a with
  | Arr3 h w c cell =>
      if (0 <? w) && (c =? 3) then
        mret (Arr3 (h + rows) w 3
                (fun y x k => if y <? h then cell y x k else 1%Q))
      else raise (ValueError "concatenate")
  | Arr2 h w cell =>
      if 0 <? w then raise (ValueError "concatenate")
      else mret (Arr2 (h + rows) w cell)
  end.

(** [np.hstack((a, [[[1, 1, 1]] * cols] * a.shape[0]))] for [cols > 0]. The
    nested list is an array of shape (height, cols, 3) when the height is
    positive and of shape (0,) otherwise. *)
Definition hstack_ones (a : ndarray) (cols : Z) : result ndarray :=
  match a with
  | Arr3 h w c cell =>
      if (0 <? h) && (c =? 3) then
        mret (Arr3 h (w + cols) 3
                (fun y x k => if x <? w then cell y x k else 1%Q))
      else raise (ValueError "concatenate")
  | Arr2 _ _ _ => raise (ValueError "concatenate")
  end.

(** [fill_array(pre_array, shape)]. *)
Definition fill_array (pre_array : ndarray) (shape : Z * Z) : result ndarray :=
  let pre_shape := shape01 pre_array in
  let dx := shape.1 - pre_shape.1 in
  let dy := shape.2 - pre_shape.2 in
  post_array ←
    (if dx <? 0 then mret (take_rows pre_array shape.1)
     else if 0 <? dx then vstack_ones pre_array dx
     else mret pre_array);
  if dy <? 0 then mret (take_cols post_array shape.2)
  else if 0 <? dy then hstack_ones post_array dy
  else mret post_array.

(** *** save_frame *)

(** The number of channels [np.dstack] sees: a two-dimensional array counts
    as one channel. *)
Definition depth (a : ndarray) : Z :=
  match a with
  | Arr2 _ _ _ => 1
  | Arr3 _ _ c _ => c
  end.

Definition cell_of (a : ndarray) (y x k : Z) : Q :=
  match a with
  | Arr2 _ _ cell => cell y x
  | Arr3 _ _ _ cell => cell y x k
  end.

(** [np.dstack([a, b])]: the channels of [a], then those of [b]; heights and
    widths have to agree. *)
Definition dstack2 (a b : ndarray) : result ndarray :=
  if bool_decide (shape01 a = shape01 b) then
    mret (Arr3 (shape01 a).1 (shape01 a).2 (depth a + depth b)
            (fun y x k =>
               if k <? depth a then cell_of a y x k
               else cell_of b y x (k - depth a)))
  else raise (ValueError "concatenate").

(** The body of [save_frame]: the file name and the array handed to
    [imsave]. Its decorators, of moviepy/decorators.py, run before the body:
    they bring [t] to seconds and replace a mask clip by its [to_RGB]. *)
Definition save_frame (self : clip) (filename : string) (t : Q)
    (with_mask_arg : bool) : result (string * ndarray) :=
  im ← get_frame self t;
  im ← (if with_mask_arg then
          match mask self with
          | Some m =>
              mask_frame ← get_frame m t;
              stacked ← dstack2 im (times255 mask_frame);
              mret (astype_uint8 stacked)
          | None => mret (astype_uint8 im)
          end
        else mret (astype_uint8 im));
  mret (filename, im).

(** The red picture under an opaque mask of its own size. *)
Definition masked_red : clip :=
  set_mask (Some (set_is_mask true (still (Arr2 1 2 (fun _ _ => 1%Q)))))
    (still red).

End Clips.

(** ** Construction of colour and text clips *)

Module Construction.
Import Layout Clips.

(** What a constructor does besides computing, in order. *)
Inductive event := FontProbe | FileRead | LayoutWork | RenderWork.

(** A computation that records its events and may raise. *)
Definition traced (A : Type) : Type := (list event * result A)%type.

#[global] Instance traced_ret : MRet traced := fun A x => ([], inr x).
#[global] Instance traced_bind : MBind traced :=
  fun A B f m =>
    match m.2 with
    | inl e => (m.1, inl e)
    | inr a => (m.1 ++ (f a).1, (f a).2)
    end.

Definition tell (e : event) : traced unit := ([e], inr tt).
Definition throw {A : Type} (e : error) : traced A := ([], inl e).
Definition lift {A : Type} (r : result A) : traced A := ([], r).

(** The computation raised, and did so before any layout or rendering. *)
Definition raised_early {A : Type} (m : traced A) : Prop :=
  raised (m.2) /\ (LayoutWork ∉ m.1) /\ (RenderWork ∉ m.1).

(** *** ColorClip *)

(** The values a caller passes as [color]. *)
Inductive pyval :=
| PyNum (q : Q)
| PyStr (s : string)
| PySeq (l : list Q).

(** [np.isscalar]: numbers and strings. *)
Definition isscalar (v : pyval) : bool :=
  match v with
  | PyNum _ | PyStr _ => true
  | PySeq _ => false
  end.

(** [hasattr(v, "__getitem__")]: strings and sequences. *)
Definition has_getitem (v : pyval) : bool :=
  match v with
  | PyStr _ | PySeq _ => true
  | PyNum _ => false
  end.

Definition is_str (v : pyval) : bool :=
  match v with
  | PyStr _ => true
  | _ => false
  end.

(** [np.tile(color, w * h).reshape(shape)]; a negative extent raises. The
    cells of an array of strings have no number: they read 0 here. *)
Definition tile (color : pyval) (w h : Z) (channels : option Z)
    : result ndarray :=
  if (w <? 0) || (h <? 0) then raise (ValueError "negative dimensions")
  else
    match channels, color with
    | None, PyNum q => mret (Arr2 h w (fun _ _ => q))
    | None, _ => mret (Arr2 h w (fun _ _ => 0%Q))
    | Some c, PySeq l =>
        mret (Arr3 h w c (fun _ _ k => nth (Z.to_nat k) l 0%Q))
    | Some c, _ => mret (Arr3 h w c (fun _ _ _ => 0%Q))
    end.

Definition ColorClip_init (size_arg : Z * Z) (color : option pyval)
    (is_mask_arg : bool) (duration_arg : option Q) : traced clip :=
  let '(w, h) := size_arg in
  '(color, channels) ←
    (if is_mask_arg then
       match color with
       | None => mret (PyNum 0, None)
       | Some v =>
           if negb (isscalar v) then
             throw (Exception_ "Color has to be a scalar when mask is true")
           else mret (v, None)
       end
     else
       match color with
       | None => mret (PySeq [0; 0; 0]%Q, Some 3)
       | Some v =>
           if negb (has_getitem v) then
             throw (Exception_ "Color has to contain RGB of the clip")
           else if is_str v then
             throw (Exception_
               "Color cannot be string. Color has to contain RGB of the clip")
           else
             mret (v, Some match v with
                           | PySeq l => Z.of_nat (length l)
                           | _ => 0
                           end)
       end);
  _ ← tell RenderWork;
  arr ← lift (tile color w h channels);
  lift (ImageClip_init ColorClipC arr is_mask_arg true false duration_arg).

(** The rejected colours as the specification lists them. *)
Definition color_invalid_as_stated (color : option pyval) (is_mask_arg : bool)
    : Prop :=
  match color with
  | None => False
  | Some v =>
      (is_mask_arg = true /\ isscalar v = false)
      \/ (is_mask_arg = false /\ is_str v = true)
  end.

(** The rejected colours as the constructor has them. *)
Definition color_invalid (color : option pyval) (is_mask_arg : bool) : Prop :=
  match color with
  | None => False
  | Some v =>
      (is_mask_arg = true /\ isscalar v = false)
      \/ (is_mask_arg = false /\ (has_getitem v = false \/ is_str v = true))
  end.

(** *** TextClip *)

Record text_args := TextArgs {
  ta_font : string;
  ta_text : option string;
  ta_filename : option string;
  ta_font_size : option Z;
  ta_size : option Z * option Z;
  ta_color : string;
  ta_bg_color : option string;
  ta_stroke_color : option string;
  ta_stroke_width : Z;
  ta_method : string;
  ta_text_align : string;
  ta_horizontal_align : string;
  ta_vertical_align : string;
  ta_interline : Z;
  ta_transparent : bool;
  ta_duration : option Q
}.

(** What is handed to Pillow to trace the image. *)
Record drawing := Drawing {
  dr_transparent : bool;
  dr_size : Z * Z;
  dr_bg_color : option string;
  dr_xy : Q * Q;
  dr_text : string;
  dr_fill : string;
  dr_style : style;
  dr_font_size : Z;
  dr_stroke_fill : option string
}.

Record text_clip := TextClip {
  tc_clip : clip;
  tc_text : string;
  tc_color : string;
  tc_stroke_color : option string
}.

Definition is_ws (c : ascii) : bool :=
  let n := nat_of_ascii c in
  Nat.eqb n 32 || (Nat.leb 9 n && Nat.leb n 13)
  || (Nat.leb 28 n && Nat.leb n 31).

(** [s.rstrip()]. *)
Fixpoint rstrip (s : string) : string :=
  match s with
  | EmptyString => EmptyString
  | String c s' =>
      match rstrip s' with
      | EmptyString => if is_ws c then EmptyString else String c EmptyString
      | r => String c r
      end
  end.

(** Truthiness of an optional [str]. *)
Definition given (s : option string) : bool :=
  match s with
  | Some s => truthy s
  | None => false
  end.

Section WithBoundaries.

(** The font boundary, the file system and the rasterizer. *)
Variable multiline_textbbox : style -> Z -> option string -> string -> bbox.
Variable truetype_ok : string -> bool.
Variable read_file : string -> result string.
Variable draw : drawing -> result ndarray.

(** [ImageFont.truetype(font, font_size)] on a font that opens: Pillow
    refuses a size that is not positive. *)
Definition open_font (font_size : Z) : result unit :=
  if font_size <=? 0 then raise (ValueError "font size must be greater than 0")
  else mret tt.

(** [find_text_size] and [break_text] as the constructor calls them: each
    opens the font at the size it is given before it measures. *)
Definition measured_size (text : string) (st : style) (font_size : Z)
    (max_width : option Z) (allow_break : bool) : traced (Z * Z) :=
  _ ← tell LayoutWork;
  _ ← lift (open_font font_size);
  mret (find_text_size multiline_textbbox text st font_size max_width
          allow_break).

Definition wrapped_lines (width : Z) (text : string) (st : style)
    (font_size : Z) : traced (list string) :=
  _ ← tell LayoutWork;
  _ ← lift (open_font font_size);
  mret (break_text multiline_textbbox width text st font_size).

(** The block "Compute all img and text sizes if some are missing": the
    text (wrapped, for a caption), the font size, the width and the height.
    The search for a font size with no width, which the guard before it
    excludes, would compare a number with [None]; it opens the font at
    sizes of at least 1 only. *)
Definition compute_sizes (st : style) (a : text_args) (text : string)
    : traced (string * Z * Z * Z) :=
  let '(img_width, img_height) := ta_size a in
  if String.eqb (ta_method a) "caption" then
    match img_width with
    | None => throw (ValueError "Size is mandatory when method is caption")
    | Some img_width =>
        if bool_decide (img_height = None)
           && bool_decide (ta_font_size a = None)
        then throw (ValueError
          "Height is mandatory when method is caption and font size is None")
        else
          font_size ←
            match ta_font_size a with
            | None =>
                _ ← tell LayoutWork;
                mret (find_optimum_font_size multiline_textbbox text st
                        img_width img_height true)
            | Some fs => mret fs
            end;
          img_height ←
            match img_height with
            | None =>
                text_size ← measured_size text st font_size (Some img_width)
                              true;
                mret text_size.2
            | Some h => mret h
            end;
          lines ← wrapped_lines img_width text st font_size;
          mret (join newline lines, font_size, img_width, img_height)
    end
  else if String.eqb (ta_method a) "label" then
    if bool_decide (ta_font_size a = None) && bool_decide (img_width = None)
    then throw (ValueError
      "Font size is mandatory when method is label and size is None")
    else
      font_size ←
        match ta_font_size a, img_width with
        | None, Some w =>
            _ ← tell LayoutWork;
            mret (find_optimum_font_size multiline_textbbox text st w
                    img_height false)
        | None, None => throw TypeError
        | Some fs, _ => mret fs
        end;
      img_width ←
        match img_width with
        | None =>
            text_size ← measured_size text st font_size None false;
            mret text_size.1
        | Some w => mret w
        end;
      img_height ←
        match img_height with
        | None =>
            text_size ← measured_size text st font_size (Some img_width)
                          false;
            mret text_size.2
        | Some h => mret h
        end;
      mret (text, font_size, img_width, img_height)
  else throw (ValueError "Method must be either `caption` or `label`.").

(** The block "Trace the image", up to the attributes of the clip: the
    image is made, then the font is opened at the font size. *)
Definition trace_image (st : style) (a : text_args)
    (sizes : string * Z * Z * Z) : traced text_clip :=
  let '(text, font_size, img_width, img_height) := sizes in
  _ ← tell RenderWork;
  _ ← lift (open_font font_size);
  let text_size :=
    find_text_size multiline_textbbox text st font_size (Some img_width)
      false in
  let text_width := text_size.1 in
  let text_height := text_size.2 in
  let x :=
    if String.eqb (ta_horizontal_align a) "right"
    then inject_Z (img_width - text_width)
    else if String.eqb (ta_horizontal_align a) "center"
    then (inject_Z (img_width - text_width) / 2)%Q
    else 0%Q in
  let y :=
    if String.eqb (ta_vertical_align a) "bottom"
    then inject_Z (img_height - text_height)
    else if String.eqb (ta_vertical_align a) "center"
    then (inject_Z (img_height - text_height) / 2)%Q
    else 0%Q in
  let y := (y + inject_Z text_height / 2)%Q in
  img_numpy ← lift (draw
    {| dr_transparent := ta_transparent a;
       dr_size := (img_width, img_height);
       dr_bg_color := ta_bg_color a;
       dr_xy := (x, y);
       dr_text := text;
       dr_fill := ta_color a;
       dr_style := st;
       dr_font_size := font_size;
       dr_stroke_fill := ta_stroke_color a |});
  self ← lift (ImageClip_init TextClipC img_numpy false (ta_transparent a)
                 false (ta_duration a));
  mret (TextClip self text (ta_color a) (ta_stroke_color a)).

(** The text of the clip: the stripped content of the file when a file is
    named, the argument otherwise. *)
Definition read_text (a : text_args) : traced (option string) :=
  if given (ta_filename a) then
    _ ← tell FileRead;
    content ← lift (read_file (default EmptyString (ta_filename a)));
    mret (Some (rstrip content))
  else mret (ta_text a).

(** [TextClip.__init__]. *)
Definition TextClip_init (a : text_args) : traced text_clip :=
  let st := {| font := ta_font a; stroke_width := ta_stroke_width a;
               align := ta_text_align a; spacing := ta_interline a |} in
  _ ← tell FontProbe;
  _ ← (if truetype_ok (ta_font a) then mret tt
       else throw (ValueError "Invalid font"));
  text ← read_text a;
  match text with
  | None => throw (ValueError "No text nor filename provided")
  | Some text =>
      sizes ← compute_sizes st a text;
      trace_image st a sizes
  end.

(** The size and font size combinations the chosen method rejects. *)
Definition sizes_invalid (a : text_args) : Prop :=
  (ta_method a = "caption" /\ (ta_size a).1 = None)
  \/ (ta_method a = "caption" /\ (ta_size a).2 = None
      /\ ta_font_size a = None)
  \/ (ta_method a = "label" /\ ta_font_size a = None
      /\ (ta_size a).1 = None)
  \/ (ta_method a <> "caption" /\ ta_method a <> "label").

(** The rejected arguments as the specification lists them. *)
Definition text_invalid (a : text_args) : Prop :=
  truetype_ok (ta_font a) = false
  \/ (ta_text a = None /\ given (ta_filename a) = false)
  \/ sizes_invalid a.

(** The file named by [filename], when one is named, can be read. *)
Definition file_readable (a : text_args) : Prop :=
  given (ta_filename a) = true ->
  exists content, read_file (default EmptyString (ta_filename a)) = inr content.

End WithBoundaries.

(** *** The drawing request, by itself *)

(** The style [TextClip.__init__] hands to every layout helper. *)
Definition style_of (a : text_args) : style :=
  {| font := ta_font a; stroke_width := ta_stroke_width a;
     align := ta_text_align a; spacing := ta_interline a |}.

(** The coordinates computed in the block "Trace the image": the left edge
    of the text and, because of the left-middle anchor, its middle line. *)
Definition text_xy (a : text_args)
    (img_width img_height text_width text_height : Z) : Q * Q :=
  let x :=
    if String.eqb (ta_horizontal_align a) "right"
    then inject_Z (img_width - text_width)
    else if String.eqb (ta_horizontal_align a) "center"
    then (inject_Z (img_width - text_width) / 2)%Q
    else 0%Q in
  let y :=
    if String.eqb (ta_vertical_align a) "bottom"
    then inject_Z (img_height - text_height)
    else if String.eqb (ta_vertical_align a) "center"
    then (inject_Z (img_height - text_height) / 2)%Q
    else 0%Q in
  (x, (y + inject_Z text_height / 2)%Q).

(** What [trace_image] hands to Pillow. *)
Definition drawing_of
    (multiline_textbbox : style -> Z -> option string -> string -> bbox)
    (st : style) (a : text_args) (sizes : string * Z * Z * Z) : drawing :=
  let '(text, font_size, img_width, img_height) := sizes in
  let text_size :=
    find_text_size multiline_textbbox text st font_size (Some img_width)
      false in
  {| dr_transparent := ta_transparent a;
     dr_size := (img_width, img_height);
     dr_bg_color := ta_bg_color a;
     dr_xy := text_xy a img_width img_height text_size.1 text_size.2;
     dr_text := text;
     dr_fill := ta_color a;
     dr_style := st;
     dr_font_size := font_size;
     dr_stroke_fill := ta_stroke_color a |}.

(** The same arguments with another [text]. *)
Definition set_text (t : option string) (a : text_args) : text_args :=
  {| ta_font := ta_font a; ta_text := t; ta_filename := ta_filename a;
     ta_font_size := ta_font_size a; ta_size := ta_size a;
     ta_color := ta_color a; ta_bg_color := ta_bg_color a;
     ta_stroke_color := ta_stroke_color a;
     ta_stroke_width := ta_stroke_width a; ta_method := ta_method a;
     ta_text_align := ta_text_align a;
     ta_horizontal_align := ta_horizontal_align a;
     ta_vertical_align := ta_vertical_align a;
     ta_interline := ta_interline a; ta_transparent := ta_transparent a;
     ta_duration := ta_duration a |}.

(** The height of a box. *)
Definition bbox_height (b : bbox) : Z :=
  let '(_, top, _, bottom) := b in bottom - top.

(** *** Sample boundaries and arguments *)

(** Only "mono.ttf" loads; there is no file; the rasterizer returns a blank
    picture of the requested size. *)
Definition only_mono (f : string) : bool := String.eqb f "mono.ttf".
Definition no_file (name : string) : result string := raise OSError.
Definition blank (d : drawing) : result ndarray :=
  mret (Arr3 (dr_size d).2 (dr_size d).1 3 (fun _ _ _ => 0%Q)).

(** [TextClip("mono.ttf", text="hello world", size=(30, None),
    method=...)]. *)
Definition hello (method : string) : text_args :=
  {| ta_font := "mono.ttf"; ta_text := Some "hello world";
     ta_filename := None; ta_font_size := Some 3;
     ta_size := (Some 30, None); ta_color := "black"; ta_bg_color := None;
     ta_stroke_color := None; ta_stroke_width := 0; ta_method := method;
     ta_text_align := "left"; ta_horizontal_align := "center";
     ta_vertical_align := "center"; ta_interline := 4;
     ta_transparent := false; ta_duration := None |}.

(** [TextClip("mono.ttf", text="hello world", font_size=3,
    size=(15, None), method="caption")]: too narrow for one line. *)
Definition narrow_hello : text_args :=
  {| ta_font := "mono.ttf"; ta_text := Some "hello world";
     ta_filename := None; ta_font_size := Some 3;
     ta_size := (Some 15, None); ta_color := "black"; ta_bg_color := None;
     ta_stroke_color := None; ta_stroke_width := 0; ta_method := "caption";
     ta_text_align := "left"; ta_horizontal_align := "center";
     ta_vertical_align := "center"; ta_interline := 4;
     ta_transparent := false; ta_duration := None |}.

(** The same caption asked for at font size 0. *)
Definition sizeless_hello : text_args :=
  {| ta_font := "mono.ttf"; ta_text := Some "hello world";
     ta_filename := None; ta_font_size := Some 0;
     ta_size := (Some 15, None); ta_color := "black"; ta_bg_color := None;
     ta_stroke_color := None; ta_stroke_width := 0; ta_method := "caption";
     ta_text_align := "left"; ta_horizontal_align := "center";
     ta_vertical_align := "center"; ta_interline := 4;
     ta_transparent := false; ta_duration := None |}.

(** A file system with one file, "poem.txt", and arguments that name it. *)
Definition one_file (name : string) : result string :=
  if String.eqb name "poem.txt" then mret ("hello world" +:+ newline)
  else raise OSError.

Definition from_file (t : option string) : text_args :=
  {| ta_font := "mono.ttf"; ta_text := t;
     ta_filename := Some "poem.txt"; ta_font_size := Some 3;
     ta_size := (Some 15, None); ta_color := "black"; ta_bg_color := None;
     ta_stroke_color := None; ta_stroke_width := 0; ta_method := "caption";
     ta_text_align := "left"; ta_horizontal_align := "center";
     ta_vertical_align := "center"; ta_interline := 4;
     ta_transparent := false; ta_duration := None |}.

(** *** with_add_mask *)

(** [np.ones(a.shape[:2], dtype=float)]. *)
Definition ones_like (a : ndarray) : ndarray :=
  match a with
  | Arr2 h w _ => Arr2 h w (fun _ _ => 1%Q)
  | Arr3 h w _ _ => Arr2 h w (fun _ _ => 1%Q)
  end.

Section WithDuration.

(** [Clip.with_duration] of moviepy/Clip.py. *)
Variable with_duration : clip -> option Q -> result clip.

(** [with_add_mask]. A clip built without a frame function has no [size]
    attribute, and reading it raises. The events of the [ColorClip] are not
    kept. *)
Definition with_add_mask (self : clip) : result clip :=
  if has_constant_size self then
    match size self with
    | Some size_arg =>
        mask_clip ← (ColorClip_init size_arg (Some (PyNum 1)) true None).2;
        m ← with_duration mask_clip (duration self);
        with_mask self (Some m)
    | None => raise (AttributeError "size")
    end
  else
    let make_frame := fun t : Q =>
      frame ← get_frame self t; mret (ones_like frame) in
    mask_clip ← VideoClip_init VideoClipC (Some make_frame) true None true;
    m ← with_duration mask_clip (duration self);
    with_mask self (Some m).

End WithDuration.

(** A [with_duration] that sets the duration and the end of a clip starting
    at 0. *)
Definition set_duration_only (c : clip) (d : option Q) : result clip :=
  mret (set_duration d d c).

End Construction.

(** ** Compositing *)

Module Blit.
Import Clips.

(** *** Pillow images

    An image has a mode, a size (width, height) and, at every coordinate
    (x, y), the value of each band. *)
Inductive mode := ModeL | ModeRGB | ModeRGBA.

Record pil_image := Image {
  im_mode : mode;
  im_size : Z * Z;
  im_px : Z -> Z -> Z -> Z
}.

(** [Image.fromarray] on an array of 8-bit cells. *)
Definition fromarray (a : ndarray) : result pil_image :=
  match a with
  | Arr2 h w cell => mret (Image ModeL (w, h) (fun x y _ => Qtrunc (cell y x)))
  | Arr3 h w c cell =>
      if c =? 3 then
        mret (Image ModeRGB (w, h) (fun x y k => Qtrunc (cell y x k)))
      else if c =? 4 then
        mret (Image ModeRGBA (w, h) (fun x y k => Qtrunc (cell y x k)))
      else raise TypeError
  end.

(** The grey level Pillow gives a colour (ITU-R 601-2 luma, in 16-bit
    fixed point). *)
Definition luma (r g b : Z) : Z :=
  (r * 19595 + g * 38470 + b * 7471 + 32768) / 65536.

(** The bands of pixel (x, y) of [im], read in mode [target]. *)
Definition px_as (target : mode) (im : pil_image) (x y k : Z) : Z :=
  match target, im_mode im with
  | ModeL, ModeL => im_px im x y k
  | ModeL, _ => luma (im_px im x y 0) (im_px im x y 1) (im_px im x y 2)
  | _, ModeL => if k <? 3 then im_px im x y 0 else 255
  | ModeRGBA, ModeRGB => if k <? 3 then im_px im x y k else 255
  | _, _ => im_px im x y k
  end.

(** [im.convert("L")]. *)
Definition convert_L (im : pil_image) : pil_image :=
  Image ModeL (im_size im) (px_as ModeL im).

(** [Image.new(mode, size, fill)]. *)
Definition Image_new (m : mode) (size_arg : Z * Z) (fill : Z) : pil_image :=
  Image m size_arg (fun _ _ _ => fill).

(** Is (x, y) a pixel of an image of size [s]? *)
Definition inside (s : Z * Z) (x y : Z) : bool :=
  (0 <=? x) && (x <? s.1) && (0 <=? y) && (y <? s.2).

(** [bg.paste(im, (0, 0))]. *)
Definition paste_origin (bg im : pil_image) : pil_image :=
  Image (im_mode bg) (im_size bg)
    (fun x y k =>
       if inside (im_size im) x y && inside (im_size bg) x y
       then px_as (im_mode bg) im x y k
       else im_px bg x y k).

(** *** blit_on *)

(** GET IMAGE AND MASK IF ANY: the frame and the mask frame at clip time
    [ct] as images, on common canvases when their sizes differ. *)
Definition fetch (self : clip) (ct : Q)
    : result (pil_image * option pil_image) :=
  frame ← get_frame self ct;
  im_img ← fromarray (astype_uint8 frame);
  match mask self with
  | Some m =>
      mask_frame ← get_frame m ct;
      im_mask ← fromarray (astype_uint8 (times255 mask_frame));
      let im_mask := convert_L im_mask in
      if bool_decide (im_size im_img <> im_size im_mask) then
        let bg_size :=
          (Z.max (im_size im_img).1 (im_size im_mask).1,
           Z.max (im_size im_img).2 (im_size im_mask).2) in
        let im_img_bg := paste_origin (Image_new ModeRGB bg_size 0) im_img in
        let im_mask_bg := paste_origin (Image_new ModeL bg_size 0) im_mask in
        mret (im_img_bg, Some im_mask_bg)
      else mret (im_img, Some im_mask)
  | None => mret (im_img, None)
  end.

(** The short writings of a position. *)
Definition expand (p : position) : result (coord * coord) :=
  match p with
  | PosStr s =>
      if String.eqb s "center" then mret (CStr "center", CStr "center")
      else if String.eqb s "left" then mret (CStr "left", CStr "center")
      else if String.eqb s "right" then mret (CStr "right", CStr "center")
      else if String.eqb s "top" then mret (CStr "center", CStr "top")
      else if String.eqb s "bottom" then mret (CStr "center", CStr "bottom")
      else raise (KeyError s)
  | PosPair x y => mret (x, y)
  end.

(** [pos[i] = dim * pos[i]] for the components that are not strings. *)
Definition scale (relative : bool) (dim : Z) (c : coord) : coord :=
  match c with
  | CNum q => if relative then CNum (inject_Z dim * q)%Q else c
  | CStr _ => c
  end.

(** One axis: [low] is "left" or "top", [high] is "right" or "bottom";
    [outer] and [inner] are the extents of the picture and of the image. *)
Definition anchor (low high : string) (outer inner : Z) (c : coord)
    : result Q :=
  match c with
  | CNum q => mret q
  | CStr s =>
      if String.eqb s low then mret 0%Q
      else if String.eqb s "center" then
        mret (inject_Z (outer - inner) / 2)%Q
      else if String.eqb s high then mret (inject_Z (outer - inner))
      else raise (KeyError s)
  end.

(** SET POSITION. *)
Definition resolve_pos (wf hf wi hi : Z) (relative : bool) (p : position)
    : result (Z * Z) :=
  '(px, py) ← expand p;
  let px := scale relative wf px in
  let py := scale relative hf py in
  x ← anchor "left" "right" wf wi px;
  y ← anchor "top" "bottom" hf hi py;
  mret (Qtrunc x, Qtrunc y).

Section WithBlit.

(** [moviepy.video.tools.drawing.blit]: the compositing itself. *)
Variable raster : Type.
Variable blit :
  pil_image -> pil_image -> Z * Z -> option pil_image -> raster.

Definition blit_on (self : clip) (picture : pil_image) (t : Q)
    : result raster :=
  let '(wf, hf) := im_size picture in
  let ct := (t - start self)%Q in
  '(im_img, im_mask) ← fetch self ct;
  let '(wi, hi) := im_size im_img in
  p ← resolve_pos wf hf wi hi (relative_pos self) (pos self ct);
  mret (blit im_img picture p im_mask).

End WithBlit.

(** The compositing call itself, kept as data: what is blitted, on what,
    where, and through which mask. *)
Record blit_call := BlitCall {
  bl_image : pil_image;
  bl_picture : pil_image;
  bl_pos : Z * Z;
  bl_mask : option pil_image
}.

(** *** Samples *)

(** The red still placed with its corner in the corner of the picture. *)
Definition cornered : clip :=
  set_pos (fun _ => PosPair (CStr "right") (CStr "bottom")) false (still red).

(** A black picture, ten wide and six high. *)
Definition canvas : pil_image := Image_new ModeRGB (10, 6) 0.

(** A mask frame three wide and two high, opaque everywhere. *)
Definition opaque32 : ndarray := Arr2 2 3 (fun _ _ => 1%Q).

(** The red still (two wide, one high) under that larger mask. *)
Definition mismatched : clip :=
  set_mask (Some (set_is_mask true (still opaque32))) (still red).

(** The red still with the names of its position in the wrong order. *)
Definition misplaced : clip :=
  set_pos (fun _ => PosPair (CStr "top") (CStr "left")) false (still red).

(** The red still at the middle of the picture, in relative coordinates. *)
Definition halfway : clip :=
  set_pos (fun _ => PosPair (CNum (1 # 2)) (CNum (1 # 2))) true (still red).

End Blit.

(** ** Objects and references *)

Module Store.

(** Objects live at locations; an attribute holds [None], a reference to an
    object, or an immutable datum (a number, a tuple, a function). *)
Abbreviation loc := positive.

Inductive val :=
| VNone
| VRef (l : loc)
| VData (d : Z).

(** An object: whether its class is [VideoClip] or a subclass of it (and so
    has [VideoClip.__copy__]), and its [__dict__]. *)
Record object := Object {
  is_videoclip : bool;
  attrs : gmap string val
}.

Abbreviation heap := (gmap positive object).

(** A new object at a location not in use. *)
Definition alloc (h : heap) (o : object) : loc * heap :=
  let l := fresh (dom h) in (l, <[l := o]> h).

Definition getattr (h : heap) (l : loc) (attr : string) : option val :=
  o ← h !! l; attrs o !! attr.

Definition setattr (h : heap) (l : loc) (attr : string) (v : val)
    : option heap :=
  o ← h !! l;
  Some (<[l := Object (is_videoclip o) (<[attr := v]> (attrs o))]> h).

(** [value = _copy.copy(value)] for one of the attributes "mask", "audio" of
    the [__dict__] under construction. *)
Definition copy_companion (copy_val : heap -> val -> option (val * heap))
    (attr : string) (st : gmap string val * heap)
    : option (gmap string val * heap) :=
  match st.1 !! attr with
  | Some v => '(v', h') ← copy_val st.2 v; Some (<[attr := v']> st.1, h')
  | None => Some st
  end.

(** [_copy.copy(value)]. [None] and immutable data are returned as they are.
    An object of another class is copied shallowly. A [VideoClip] is copied
    by [VideoClip.__copy__]: a new object of the class, every attribute set
    to the value the source has, "mask" and "audio" to copies made the same
    way. The fuel bounds the nesting of the Python calls; running out of it
    is [None]. *)
Fixpoint copy (fuel : nat) (h : heap) (value : val) : option (val * heap) :=
  match value with
  | VNone | VData _ => Some (value, h)
  | VRef l =>
      match fuel with
      | O => None
      | S fuel =>
          self ← h !! l;
          if is_videoclip self then
            let '(new_clip, h) := alloc h (Object true ∅) in
            st ← copy_companion (copy fuel) "mask" (attrs self, h);
            st ← copy_companion (copy fuel) "audio" st;
            Some (VRef new_clip, <[new_clip := Object true st.1]> st.2)
          else
            let '(l', h) := alloc h self in Some (VRef l', h)
      end
  end.

(** [clip.copy()]. *)
Definition copy_clip (fuel : nat) (h : heap) (l : loc) : option (loc * heap) :=
  '(v, h') ← copy fuel h (VRef l);
  match v with
  | VRef l' => Some (l', h')
  | _ => None
  end.

(** [mask.image_transform(f)], an outplace method: a copy of the mask whose
    frame function is the new one. *)
Definition image_transform (fuel : nat) (h : heap) (l : loc) (frames : val)
    : option (loc * heap) :=
  '(new_clip, h) ← copy_clip fuel h l;
  h ← setattr h new_clip "make_frame" frames;
  Some (new_clip, h).

(** [with_opacity], an outplace method behind [add_mask_if_none]: a clip
    without mask first gets a fully opaque one ([opaque] holds its
    attributes) on a copy of itself. *)
Definition with_opacity (fuel : nat) (h : heap) (l : loc)
    (opaque : gmap string val) (frames : val) : option (loc * heap) :=
  m ← getattr h l "mask";
  '(l, h) ← match m with
            | VNone =>
                let '(new_mask, h) := alloc h (Object true opaque) in
                '(with_mask, h) ← copy_clip fuel h l;
                h ← setattr h with_mask "mask" (VRef new_mask);
                Some (with_mask, h)
            | _ => Some (l, h)
            end;
  '(self, h) ← copy_clip fuel h l;
  m ← getattr h self "mask";
  match m with
  | VRef mask_loc =>
      '(new_mask, h) ← image_transform fuel h mask_loc frames;
      h ← setattr h self "mask" (VRef new_mask);
      Some (self, h)
  | _ => None
  end.

(** Every object of [h] is still there, unchanged, in [h']. *)
Definition untouched (h h' : heap) : Prop :=
  forall l o, h !! l = Some o -> h' !! l = Some o.

(** Two dictionaries agree outside "mask" and "audio". *)
Definition same_but_companions (a a' : gmap string val) : Prop :=
  forall attr, attr <> "mask" -> attr <> "audio" -> a' !! attr = a !! attr.

(** [v'] in [h'] is a copy of [v] in [h]: a reference became a reference
    to an object that [h] did not have, of the same class and with the same
    attribute values outside "mask" and "audio"; anything else is as it
    was. *)
Definition copy_of (h h' : heap) (v v' : val) : Prop :=
  match v with
  | VRef m =>
      exists m' mo mo',
        v' = VRef m' /\ h !! m = Some mo /\ h !! m' = None
        /\ h' !! m' = Some mo'
        /\ is_videoclip mo' = is_videoclip mo
        /\ same_but_companions (attrs mo) (attrs mo')
  | _ => v' = v
  end.

(** The copy [o'] of [o] has the companion [attr] exactly when [o] has it,
    and then holds a copy of it. *)
Definition companion_copied (h h' : heap) (o o' : object) (attr : string)
    : Prop :=
  match attrs o !! attr with
  | Some v => exists v', attrs o' !! attr = Some v' /\ copy_of h h' v v'
  | None => attrs o' !! attr = None
  end.

(** [v] can be copied within [n] nested calls: the objects it leads to
    through "mask" and "audio" are there, and the chain ends. *)
Fixpoint copyable (n : nat) (h : heap) (v : val) : Prop :=
  match v with
  | VRef l =>
      match n with
      | O => False
      | S n =>
          exists o, h !! l = Some o
                    /\ (is_videoclip o = true ->
                        forall attr v', (attr = "mask" \/ attr = "audio") ->
                                        attrs o !! attr = Some v' ->
                                        copyable n h v')
      end
  | _ => True
  end.

(** What a clip shows of its mask: the clip object and the mask object. *)
Definition mask_view (h : heap) (l : loc) : option (object * option object) :=
  o ← h !! l;
  Some (o, match attrs o !! "mask" with
           | Some (VRef m) => h !! m
           | _ => None
           end).

(** *** A sample store

    A clip at location 1 whose mask is the clip at location 2; data 7 and 8
    stand for their frame functions. *)
Definition two_clips : heap :=
  {[ 1%positive :=
       Object true {[ "make_frame" := VData 7; "mask" := VRef 2%positive;
                      "audio" := VNone ]};
     2%positive :=
       Object true {[ "make_frame" := VData 8; "mask" := VNone;
                      "audio" := VNone ]} ]}.

End Store.

(** ** Writing a video file *)

Module Writing.

(** The values of the [audio] argument: [True], [False] or a file name. *)
Inductive audio_arg :=
| AudioBool (b : bool)
| AudioFile (name : string).

(** What [write_videofile] does to the outside, in order: a message to the
    logger, [self.audio.write_audiofile], [ffmpeg_write_video] and
    [os.remove]. *)
Inductive effect :=
| Log (message : string)
| WriteAudio (audiofile : string) (audio_codec : string)
| WriteVideo (filename : string) (codec : string) (audiofile : option string)
| Remove (file : string).

(** [s[1:]]. *)
Definition tail_of (s : string) : string :=
  match s with
  | EmptyString => EmptyString
  | String _ rest => rest
  end.

Section WithSystem.

(** [os.path.splitext(os.path.basename(filename))] and [str.lower]. *)
Variable splitext_basename : string -> string * string.
Variable lower : string -> string.

(** [moviepy.tools]: for an extension, the list under its ["codec"] key;
    the extension of an audio codec. *)
Variable extensions_dict : gmap string (list string).
Variable find_extension : string -> result string.

(** [os.path.join], [Clip._TEMP_FILES_PREFIX], and [os.path.exists] once
    the video has been written. *)
Variable path_join : string -> string -> string.
Variable TEMP_FILES_PREFIX : string.
Variable path_exists : string -> bool.

(** The choice of the video codec. *)
Definition choose_codec (ext : string) (codec : option string)
    : result string :=
  match codec with
  | Some c => mret c
  | None =>
      match extensions_dict !! ext with
      | Some (c :: _) => mret c
      | Some [] => raise IndexError
      | None =>
          raise (ValueError
                   ("MoviePy couldn't find the codec associated "
                    +:+ "with the filename. Provide the 'codec' "
                    +:+ "parameter in write_videofile."))
      end
  end.

(** The choice of the audio codec. *)
Definition choose_audio_codec (ext : string) (audio_codec : option string)
    : string :=
  match audio_codec with
  | None =>
      if bool_decide (ext ∈ ["ogv"; "webm"]) then "libvorbis"
      else "libmp3lame"
  | Some c =>
      if String.eqb c "raw16" then "pcm_s16le"
      else if String.eqb c "raw32" then "pcm_s32le"
      else c
  end.

(** [(audiofile is None) and (audio is True) and (self.audio is not
    None)], [audiofile] being [audio] when that is a string. *)
Definition make_audio_of (has_audio : bool) (audio : audio_arg) : bool :=
  match audio with
  | AudioBool true => has_audio
  | AudioBool false => false
  | AudioFile _ => false
  end.

(** The body of [write_videofile], from the arguments that bear on files:
    the effects it has when the two writers return. [has_audio] says whether
    [self.audio] is not [None]. The decorators of the method, of
    moviepy/decorators.py, run before this body. *)
Definition write_videofile (has_audio : bool) (filename : string)
    (codec : option string) (audio : audio_arg) (audio_codec : option string)
    (temp_audiofile : option string) (temp_audiofile_path : string)
    (remove_temp : bool) : result (list effect) :=
  let '(name, ext) := splitext_basename filename in
  let ext := lower (tail_of ext) in
  codec ← choose_codec ext codec;
  let audio_codec := choose_audio_codec ext audio_codec in
  let audiofile :=
    match audio with
    | AudioFile f => Some f
    | AudioBool _ => None
    end in
  let make_audio := make_audio_of has_audio audio in
  audiofile ←
    (if make_audio && truthy (default EmptyString temp_audiofile)
     then mret temp_audiofile
     else if make_audio then
       audio_ext ← find_extension audio_codec;
       mret (Some (path_join temp_audiofile_path
                     (name +:+ TEMP_FILES_PREFIX
                      +:+ ("wvf_snd." +:+ audio_ext))))
     else mret audiofile);
  let written := default EmptyString audiofile in
  mret ([Log ("MoviePy - Building video " +:+ filename +:+ ".")]
        ++ (if make_audio then [WriteAudio written audio_codec] else [])
        ++ [WriteVideo filename codec audiofile]
        ++ (if remove_temp && make_audio && path_exists written
            then [Remove written] else [])
        ++ [Log ("MoviePy - video ready " +:+ filename)]).

End WithSystem.

(** A small system: names end at the first dot, two known extensions. *)
Fixpoint cut_at_dot (s : string) : string * string :=
  match s with
  | EmptyString => (EmptyString, EmptyString)
  | String c rest =>
      if Ascii.eqb c "."%char then (EmptyString, s)
      else let '(name, ext) := cut_at_dot rest in (String c name, ext)
  end.

Definition sample_extensions : gmap string (list string) :=
  list_to_map [("mp4", ["libx264"; "mpeg4"]); ("webm", ["libvpx"])].

Definition sample_find_extension (codec : string) : result string :=
  if String.eqb codec "libmp3lame" then mret "mp3"
  else if String.eqb codec "libvorbis" then mret "ogg"
  else raise (ValueError "The audio_codec you chose is unknown by MoviePy.").

Definition sample_write (has_audio : bool) (filename : string)
    (codec : option string) (audio : audio_arg) (remove_temp : bool)
    : result (list effect) :=
  write_videofile cut_at_dot id sample_extensions sample_find_extension
    (fun dir file => dir +:+ file) "TEMP_MPY_" (fun _ => true)
    has_audio filename codec audio None None EmptyString remove_temp.

End Writing.

(** * Properties of the Python helpers *)

Lemma string_app_cons (x : ascii) (a b : string) :
  String x a +:+ b = String x (a +:+ b).
Proof. reflexivity. Qed.

Lemma string_app_nil_l (a : string) : EmptyString +:+ a = a.
Proof. reflexivity. Qed.

Lemma string_app_assoc (a b c : string) : (a +:+ b) +:+ c = a +:+ (b +:+ c).
Proof.
  induction a as [|x a IH]; [done |].
  by rewrite !string_app_cons, IH.
Qed.

Lemma string_app_nil_r (a : string) : a +:+ EmptyString = a.
Proof.
  induction a as [|x a IH]; [done |].
  by rewrite string_app_cons, IH.
Qed.

Lemma string_app_length (a b : string) :
  String.length (a +:+ b) = (String.length a + String.length b)%nat.
Proof.
  induction a as [|x a IH]; [done |].
  rewrite string_app_cons. simpl. by rewrite IH.
Qed.

(** * Properties of the text layout engine *)

Module LayoutFacts.
Import Layout.

Section WithFont.

Variable bb : style -> Z -> option string -> string -> bbox.
Variables (width : Z) (st : style) (font_size : Z).

Local Abbreviation W := (line_width bb st font_size).
Local Abbreviation step := (break_step bb width st font_size).
Local Abbreviation loop := (break_loop bb width st font_size).
Local Abbreviation within := (Layout.within bb width st font_size).
Local Abbreviation empty_seen := (Layout.empty_seen bb width st font_size).

Lemma break_step_fit lines cur word :
  W (temp_line_of cur word) <= width ->
  step (lines, cur) word = (lines, temp_line_of cur word).
Proof.
  intros Hfit. unfold break_step.
  destruct (Z.leb_spec (W (temp_line_of cur word)) width); [done | lia].
Qed.

Lemma break_step_overflow lines cur word :
  width < W (temp_line_of cur word) ->
  step (lines, cur) word = (lines ++ [cur], word).
Proof.
  intros Hover. unfold break_step.
  destruct (Z.leb_spec (W (temp_line_of cur word)) width); [lia | done].
Qed.

Lemma break_loop_cons acc word words :
  loop acc (word :: words) = loop (step acc word) words.
Proof. reflexivity. Qed.

(** Lines already emitted stay where they are: the loop only appends. *)
Lemma break_step_extends acc word :
  exists extra, (step acc word).1 = acc.1 ++ extra.
Proof.
  destruct acc as [lines cur]. unfold break_step.
  destruct (_ <=? _); simpl.
  - exists []. by rewrite app_nil_r.
  - by exists [cur].
Qed.

Lemma break_loop_extends words : forall acc,
  exists extra, (loop acc words).1 = acc.1 ++ extra.
Proof.
  induction words as [|word words IH]; intros acc.
  - exists []. by rewrite app_nil_r.
  - rewrite break_loop_cons.
    destruct (IH (step acc word)) as [e2 He2].
    destruct (break_step_extends acc word) as [e1 He1].
    exists (e1 ++ e2). by rewrite He2, He1, app_assoc.
Qed.

Lemma flush_extends acc : exists extra, flush acc = acc.1 ++ extra.
Proof.
  destruct acc as [lines cur]. unfold flush.
  destruct (truthy cur); simpl.
  - by exists [cur].
  - exists []. by rewrite app_nil_r.
Qed.

Lemma finish_extends acc words :
  exists extra, flush (loop acc words) = acc.1 ++ extra.
Proof.
  destruct (flush_extends (loop acc words)) as [e2 He2].
  destruct (break_loop_extends words acc) as [e1 He1].
  exists (e1 ++ e2). by rewrite He2, He1, app_assoc.
Qed.

Lemma finish_keeps acc words l :
  l ∈ acc.1 -> l ∈ flush (loop acc words).
Proof.
  intros Hl. destruct (finish_extends acc words) as [e ->].
  apply elem_of_app. by left.
Qed.

Lemma truthy_false s : truthy s = false -> s = EmptyString.
Proof. by destruct s. Qed.

Lemma split_space_nonempty text : split_space text <> [].
Proof.
  destruct text as [|c s]; simpl; [done |].
  destruct (Ascii.eqb c space); [done |].
  by destruct (split_space s).
Qed.

(** *** Lines stay within the width when every word does *)

Lemma break_step_within acc word :
  W word <= width -> within acc -> within (step acc word).
Proof.
  destruct acc as [lines cur]. intros Hword [Hlines Hcur]. simpl in Hlines, Hcur.
  destruct (Z.le_gt_cases (W (temp_line_of cur word)) width) as [Hfit|Hover].
  - rewrite break_step_fit by done. split; simpl; [done | by right].
  - rewrite break_step_overflow by lia. split; simpl; [| by right].
    intros l [Hl | Hl%list_elem_of_singleton]%elem_of_app; [by apply Hlines |].
    subst l. destruct Hcur as [-> | Hcur]; [| done].
    unfold temp_line_of in Hover. simpl in Hover. lia.
Qed.

Lemma break_loop_within words : forall acc,
  (forall w, w ∈ words -> W w <= width) ->
  within acc -> within (loop acc words).
Proof.
  induction words as [|word words IH]; intros acc Hwords Hacc; [done |].
  rewrite break_loop_cons. apply IH.
  - intros w Hw. apply Hwords. by right.
  - apply break_step_within; [apply Hwords; by left | done].
Qed.

Lemma flush_within acc l : within acc -> l ∈ flush acc -> W l <= width.
Proof.
  destruct acc as [lines cur]. intros [Hlines Hcur]. unfold flush.
  simpl in *. destruct (truthy cur) eqn:Ht; [| by apply Hlines].
  intros [Hl | Hl%list_elem_of_singleton]%elem_of_app; [by apply Hlines |].
  subst l. destruct Hcur as [-> | Hcur]; [done | done].
Qed.

(** *** A word that is too wide ends up on a line of its own *)

Section Monotone.

(** A text is never narrower than a contiguous part of it. *)
Hypothesis W_mono : forall a b, substring_of a b -> W a <= W b.

Lemma temp_line_has_word cur word :
  substring_of word (temp_line_of cur word).
Proof.
  unfold temp_line_of. destruct (truthy cur).
  - exists (cur +:+ " "), EmptyString.
    by rewrite <- !string_app_assoc, string_app_nil_r.
  - exists EmptyString, EmptyString. simpl.
    by rewrite string_app_nil_r.
Qed.

Lemma temp_line_has_cur cur word :
  truthy cur = true -> substring_of cur (temp_line_of cur word).
Proof.
  intros Ht. unfold temp_line_of. rewrite Ht.
  by exists EmptyString, (" " +:+ word).
Qed.

Lemma empty_substring s : substring_of EmptyString s.
Proof. by exists EmptyString, s. Qed.

Lemma break_step_wide acc word :
  width < W word -> step acc word = (acc.1 ++ [acc.2], word).
Proof.
  destruct acc as [lines cur]. intros Hw. apply break_step_overflow.
  pose proof (W_mono _ _ (temp_line_has_word cur word)). simpl. lia.
Qed.

Lemma break_step_empty_seen acc word :
  empty_seen acc -> empty_seen (step acc word).
Proof.
  intros Hacc Hwide. specialize (Hacc Hwide).
  rewrite break_step_wide
    by (pose proof (W_mono _ _ (empty_substring word)); lia).
  simpl. left. apply elem_of_app.
  destruct Hacc as [? | ->]; [by left | right; by left].
Qed.

(** From a state whose current line is the wide word [w]. *)
Lemma finish_from_wide words : forall lines w,
  width < W w ->
  (w = EmptyString -> EmptyString ∈ lines) ->
  w ∈ flush (loop (lines, w) words).
Proof.
  destruct words as [|x words]; intros lines w Hw Hempty.
  - simpl. destruct (truthy w) eqn:Ht.
    + apply elem_of_app. right. by left.
    + apply truthy_false in Ht. subst w. by apply Hempty.
  - rewrite break_loop_cons.
    destruct (truthy w) eqn:Ht.
    + rewrite break_step_overflow.
      * apply finish_keeps. simpl. apply elem_of_app. right. by left.
      * pose proof (W_mono _ _ (temp_line_has_cur w x Ht)). lia.
    + apply truthy_false in Ht. subst w.
      apply finish_keeps.
      destruct (break_step_extends (lines, EmptyString) x) as [e ->].
      apply elem_of_app. left. by apply Hempty.
Qed.

Lemma finish_wide_word words : forall acc w,
  empty_seen acc ->
  w ∈ words -> width < W w -> w ∈ flush (loop acc words).
Proof.
  induction words as [|x words IH]; intros acc w Hseen Hin Hw.
  - by apply elem_of_nil in Hin.
  - rewrite break_loop_cons.
    apply elem_of_cons in Hin as [<- | Hin].
    + rewrite break_step_wide by done.
      apply finish_from_wide; [done |].
      intros ->. apply elem_of_app.
      destruct (Hseen Hw) as [? | ->]; [by left | right; by left].
    + apply IH; [by apply break_step_empty_seen | done | done].
Qed.

End Monotone.

End WithFont.

(** *** The bisection of [find_optimum_font_size] *)

Lemma avg_between (lo hi : Z) : lo < hi -> lo <= (hi + lo) / 2 < hi.
Proof.
  intros Hlt. split.
  - apply Z.div_le_lower_bound; lia.
  - apply Z.div_lt_upper_bound; lia.
Qed.

(** The loop, unfolded once. *)
Lemma bisect_eq (fit : Z -> bool) (lo hi : Z) :
  bisect fit lo hi =
    if lo <? hi then
      if fit ((hi + lo) / 2) then bisect fit ((hi + lo) / 2 + 1) hi
      else bisect fit lo ((hi + lo) / 2 - 1)
    else lo.
Proof.
  rewrite bisect_equation_1.
  destruct (Z_lt_dec lo hi) as [Hlt | Hge]; simpl.
  - destruct (Z.ltb_spec lo hi); [| lia].
    by destruct (fit ((hi + lo) / 2)).
  - by destruct (Z.ltb_spec lo hi); [lia |].
Qed.

Lemma bisect_exit (fit : Z -> bool) (lo hi : Z) :
  hi <= lo -> bisect fit lo hi = lo.
Proof.
  intros Hge. rewrite bisect_eq. by destruct (Z.ltb_spec lo hi); [lia |].
Qed.

Section Bisection.

Variables (fit : Z -> bool) (width : Z).

Local Abbreviation bisect_inv := (Layout.bisect_inv fit width).
Local Abbreviation bisect_post := (Layout.bisect_post fit width).

Lemma bisect_inv_post : forall (n : nat) (lo hi : Z),
  Z.to_nat (hi - lo) = n -> bisect_inv lo hi -> bisect_post (bisect fit lo hi).
Proof.
  induction n as [n IH] using lt_wf_ind.
  intros lo hi Hn (Hlo & Hhi & Hcross & Hbelow & Habove).
  rewrite bisect_eq. destruct (Z.ltb_spec lo hi) as [Hlt | Hge].
  - pose proof (avg_between lo hi Hlt) as Havg.
    destruct (fit ((hi + lo) / 2)) eqn:Hfit.
    + eapply (IH (Z.to_nat (hi - ((hi + lo) / 2 + 1)))); [lia | done |].
      split; [lia |]. split; [lia |]. split; [left; lia |].
      split; [| done].
      intros _. by replace ((hi + lo) / 2 + 1 - 1) with ((hi + lo) / 2) by lia.
    + eapply (IH (Z.to_nat ((hi + lo) / 2 - 1 - lo))); [lia | done |].
      split; [lia |]. split; [lia |]. split; [lia |].
      split; [done |].
      intros _. by replace ((hi + lo) / 2 - 1 + 1) with ((hi + lo) / 2) by lia.
  - split; [lia |]. split; [done |].
    destruct Hcross as [Hle | [-> Hlt]].
    + left. intros Hw. replace lo with hi by lia. apply Habove. lia.
    + right. by apply Habove.
Qed.

Lemma bisect_post_start : 1 <= width -> bisect_post (bisect fit 1 width).
Proof.
  intros Hw. eapply bisect_inv_post; [done |].
  split; [lia |]. split; [lia |]. split; [left; lia |]. split; lia.
Qed.

End Bisection.

(** *** The sample font is monotone *)

Lemma split_lines_nonempty s : split_lines s <> [].
Proof.
  destruct s as [|c s]; simpl; [done |].
  destruct (Ascii.eqb c (ascii_of_nat 10)); [done |].
  by destruct (split_lines s).
Qed.

Lemma split_lines_app a b :
  split_lines (a +:+ b) = glue (split_lines a) (split_lines b).
Proof.
  induction a as [|c a IH].
  - rewrite string_app_nil_l. simpl.
    pose proof (split_lines_nonempty b). by destruct (split_lines b).
  - rewrite string_app_cons. simpl. rewrite IH.
    pose proof (split_lines_nonempty a) as Ha.
    pose proof (split_lines_nonempty b) as Hb.
    destruct (Ascii.eqb c (ascii_of_nat 10)).
    + by destruct (split_lines a).
    + destruct (split_lines a) as [|w [|w' ws]]; [done | |done].
      simpl. by destruct (split_lines b).
Qed.

Lemma widest_nonneg advance rows : 0 <= widest advance rows.
Proof. induction rows as [|r rows IH]; unfold widest in *; simpl; lia. Qed.

Lemma widest_glue advance xs ys :
  0 <= advance ->
  widest advance xs <= widest advance (glue xs ys)
  /\ widest advance ys <= widest advance (glue xs ys).
Proof.
  intros Hadv. induction xs as [|x xs IH].
  - simpl. pose proof (widest_nonneg advance ys). unfold widest at 1. simpl. lia.
  - destruct xs as [|x' xs].
    + destruct ys as [|y ys]; simpl.
      * unfold widest; simpl. lia.
      * unfold widest; simpl. fold (widest advance ys).
        rewrite string_app_length. nia.
    + change (glue (x :: x' :: xs) ys) with (x :: glue (x' :: xs) ys).
      destruct IH as [IH1 IH2].
      unfold widest in *. simpl in *. lia.
Qed.

Lemma mono_line_width st font_size s :
  line_width mono_textbbox st font_size s
  = widest ((font_size + 1) / 2) (split_lines s).
Proof. unfold line_width, mono_textbbox. lia. Qed.

Lemma mono_substring st font_size a b :
  -1 <= font_size -> substring_of a b ->
  line_width mono_textbbox st font_size a
  <= line_width mono_textbbox st font_size b.
Proof.
  intros Hfs (p & q & ->). rewrite !mono_line_width, !split_lines_app.
  assert (0 <= (font_size + 1) / 2) as Hadv by (apply Z.div_pos; lia).
  pose proof (widest_glue _ (split_lines p)
                (glue (split_lines a) (split_lines q)) Hadv) as [_ H1].
  pose proof (widest_glue _ (split_lines a) (split_lines q) Hadv) as [H2 _].
  lia.
Qed.

(** *** The checked claims *)

(** C1 (as amended). For a box at least one pixel wide,
    [find_optimum_font_size] returns a size [s] between 0 and [width]; the
    text fits at [s] when [s] is at least 1, and does not fit at [s + 1] when
    [s] is below [width]; when fitting is downward closed on [1, width], no
    size of [1, width] larger than [s] fits. The loop moves the lower bound
    past a probe that fits and the upper bound past a probe that does not,
    stops when the bounds meet or cross, and the final candidate is tested
    again and decremented by one when it does not fit. *)
Theorem C1_find_optimum_font_size_amended
    (bb : style -> Z -> option string -> string -> bbox)
    (text : string) (st : style) (width : Z) (height : option Z)
    (allow_break : bool) :
  1 <= width ->
  (0 <= find_optimum_font_size bb text st width height allow_break <= width)
  /\ (1 <= find_optimum_font_size bb text st width height allow_break ->
      fits bb text st width height allow_break
        (find_optimum_font_size bb text st width height allow_break) = true)
  /\ (find_optimum_font_size bb text st width height allow_break < width ->
      fits bb text st width height allow_break
        (find_optimum_font_size bb text st width height allow_break + 1) = false)
  /\ (downward_closed (fits bb text st width height allow_break) width ->
      forall s', 1 <= s' <= width ->
        fits bb text st width height allow_break s' = true ->
        s' <= find_optimum_font_size bb text st width height allow_break)
  /\ (forall fit lo hi, lo < hi ->
        bisect fit lo hi =
          if fit ((hi + lo) / 2) then bisect fit ((hi + lo) / 2 + 1) hi
          else bisect fit lo ((hi + lo) / 2 - 1))
  /\ (forall fit lo hi, hi <= lo -> bisect fit lo hi = lo)
  /\ find_optimum_font_size bb text st width height allow_break =
       (if fits bb text st width height allow_break
             (bisect (fits bb text st width height allow_break) 1 width)
        then bisect (fits bb text st width height allow_break) 1 width
        else bisect (fits bb text st width height allow_break) 1 width - 1).
Proof.
  intros Hw. unfold find_optimum_font_size.
  set (fit := fits bb text st width height allow_break).
  destruct (bisect_post_start fit width Hw) as (Hr & Hbelow & Habove).
  set (r := bisect fit 1 width) in *.
  assert (Hnext : (if fit r then r else r - 1) < width ->
                  fit ((if fit r then r else r - 1) + 1) = false).
  { destruct (fit r) eqn:Hfit.
    - destruct Habove as [Habove | Habove]; [done | congruence].
    - intros _. by replace (r - 1 + 1) with r by lia. }
  split; [destruct (fit r); lia |].
  split; [destruct (fit r) eqn:Hfit; [done | intros ?; apply Hbelow; lia] |].
  split; [done |].
  split; [| split; [| split; [| done]]].
  - intros Hdown s' Hs' Hfits'.
    destruct (Z.le_gt_cases s' (if fit r then r else r - 1)) as [|Hgt]; [done |].
    assert (fit ((if fit r then r else r - 1) + 1) = true) as Hyes.
    { apply (Hdown _ s'); [destruct (fit r); lia | lia | done]. }
    rewrite Hnext in Hyes; [done | lia].
  - intros f lo hi Hlt. rewrite bisect_eq at 1.
    by destruct (Z.ltb_spec lo hi); [| lia].
  - intros f lo hi. apply bisect_exit.
Qed.

Lemma C1_find_optimum_font_size_amended_witness :
  (0 <= find_optimum_font_size mono_textbbox "hello world" plain 30 (Some 20) true
   <= 30)
  /\ fits mono_textbbox "hello world" plain 30 (Some 20) true
       (find_optimum_font_size mono_textbbox "hello world" plain 30 (Some 20) true)
     = true.
Proof.
  pose proof (C1_find_optimum_font_size_amended mono_textbbox "hello world"
                plain 30 (Some 20) true ltac:(lia)) as (Hrange & Hfit & _).
  split; [exact Hrange |].
  apply Hfit. by vm_compute.
Defined.

(** C1 (as stated) fails: the one-letter text fits a 10-pixel wide box at
    every size up to 20, so the answer is the upper end 10 of the search
    range, and the text still fits at 11. *)
Lemma C1_find_optimum_font_size_counterexample :
  ~ largest_fit (fits mono_textbbox "i" plain 10 None false) 10
      (find_optimum_font_size mono_textbbox "i" plain 10 None false).
Proof. intros (_ & _ & Hnext & _). by vm_compute in Hnext. Qed.

(** Two more ways the stated optimum is missed: no size fits and the answer
    is 0, outside [1, width]; fitting is not downward closed and a larger
    fitting size is overlooked. *)
Example find_optimum_font_size_nothing_fits :
  find_optimum_font_size mono_textbbox "abc" plain 1 None false = 0.
Proof. by vm_compute. Qed.

Example bisect_overlooks_larger_fit :
  let fit := fun s => (s <=? 2) || (s =? 6) in
  bisect fit 1 7 = 3 /\ fit 3 = false /\ fit 6 = true.
Proof. by vm_compute. Qed.

(** C2. When every word of the text, measured alone, is at most
    [max_width] wide, [break_text] returns only lines that measure at most
    [max_width]. When the font never measures a text narrower than a
    contiguous part of it, a word wider than [max_width] is returned unsplit
    as a line of its own. *)
Theorem C2_break_text_wrap
    (bb : style -> Z -> option string -> string -> bbox)
    (max_width : Z) (text : string) (st : style) (font_size : Z) :
  ((forall w, w ∈ split_space text -> line_width bb st font_size w <= max_width) ->
   forall l, l ∈ break_text bb max_width text st font_size ->
             line_width bb st font_size l <= max_width)
  /\ ((forall a b, substring_of a b ->
                   line_width bb st font_size a <= line_width bb st font_size b) ->
      forall w, w ∈ split_space text ->
                max_width < line_width bb st font_size w ->
                w ∈ break_text bb max_width text st font_size).
Proof.
  split.
  - intros Hwords l Hl. unfold break_text in Hl.
    eapply flush_within; [| exact Hl].
    apply break_loop_within; [done |].
    split; simpl; [| by left].
    intros l' Hl'. by apply elem_of_nil in Hl'.
  - intros Hmono w Hw Hwide. unfold break_text.
    apply finish_wide_word; [done | | done | done].
    intros _. by right.
Qed.

Lemma C2_break_text_wrap_witness :
  (forall l, l ∈ break_text mono_textbbox 10 "hello big world of text" plain 3 ->
             line_width mono_textbbox plain 3 l <= 10)
  /\ "helloooooooooooo"
       ∈ break_text mono_textbbox 10 "helloooooooooooo big" plain 3.
Proof.
  split.
  - apply (proj1 (C2_break_text_wrap mono_textbbox 10
                    "hello big world of text" plain 3)).
    intros w Hw. vm_compute in Hw.
    repeat (apply elem_of_cons in Hw as [-> | Hw]; [by vm_compute |]).
    by apply elem_of_nil in Hw.
  - apply (proj2 (C2_break_text_wrap mono_textbbox 10
                    "helloooooooooooo big" plain 3)).
    + intros a b. apply mono_substring. lia.
    + vm_compute. by left.
    + by vm_compute.
Defined.

(** C10. When the first word of the text measures wider than [max_width],
    the first line [break_text] returns is the empty string; and whenever
    the tentative line of an iteration overflows, the current line is
    appended as it is, empty or not, and the word starts the next line. *)
Theorem C10_break_text_leading_empty_line
    (bb : style -> Z -> option string -> string -> bbox)
    (max_width : Z) (text : string) (st : style) (font_size : Z) :
  (max_width < line_width bb st font_size (hd EmptyString (split_space text)) ->
   head (break_text bb max_width text st font_size) = Some EmptyString)
  /\ (forall lines current_line word,
        max_width
        < line_width bb st font_size (temp_line_of current_line word) ->
        break_step bb max_width st font_size (lines, current_line) word
        = (lines ++ [current_line], word)).
Proof.
  split.
  - intros Hwide. unfold break_text.
    pose proof (split_space_nonempty text) as Hne.
    destruct (split_space text) as [|first rest]; [done |].
    simpl in Hwide. rewrite break_loop_cons.
    rewrite break_step_overflow by done.
    destruct (finish_extends bb max_width st font_size
                ([] ++ [EmptyString], first) rest) as [extra ->].
    done.
  - intros lines cur word Hover. by apply break_step_overflow.
Qed.

Lemma C10_break_text_leading_empty_line_witness :
  head (break_text mono_textbbox 10 "helloooooooooooo big" plain 3)
  = Some EmptyString.
Proof.
  apply (proj1 (C10_break_text_leading_empty_line mono_textbbox 10
                  "helloooooooooooo big" plain 3)).
  by vm_compute.
Defined.

(** *** Further properties of the layout helpers *)

Lemma split_space_cons (c : ascii) (s : string) :
  Ascii.eqb c space = false ->
  exists w ws, split_space s = w :: ws
               /\ split_space (String c s) = String c w :: ws.
Proof.
  intros Hc. pose proof (split_space_nonempty s) as Hne. simpl. rewrite Hc.
  destruct (split_space s) as [|w ws]; [done |]. by exists w, ws.
Qed.

(** Splitting a text made of two parts around a space. *)
Lemma split_space_app (a b : string) :
  split_space (a +:+ " " +:+ b) = split_space a ++ split_space b.
Proof.
  induction a as [|c a IH].
  - reflexivity.
  - rewrite string_app_cons. simpl.
    destruct (Ascii.eqb c space) eqn:Hc.
    + by rewrite IH.
    + rewrite IH. pose proof (split_space_nonempty a) as Hne.
      by destruct (split_space a).
Qed.

Lemma split_space_no_space (w : string) :
  has_space w = false -> split_space w = [w].
Proof.
  induction w as [|c w IH]; [done |].
  simpl. intros [Hc Hw]%orb_false_iff. rewrite Hc, (IH Hw). done.
Qed.

Lemma split_space_words (s : string) :
  Forall (fun w => has_space w = false) (split_space s).
Proof.
  induction s as [|c s IH]; simpl.
  - by constructor.
  - destruct (Ascii.eqb c space) eqn:Hc; [by constructor |].
    destruct (split_space s) as [|w ws]; [by constructor; [simpl; rewrite Hc |] |].
    apply Forall_cons in IH as [Hw Hws].
    constructor; [simpl; by rewrite Hc, Hw | done].
Qed.

Lemma nonempty_words_temp_line (cur word : string) :
  has_space word = false ->
  nonempty_words (temp_line_of cur word)
  = nonempty_words cur ++ filter (fun w => truthy w = true) [word].
Proof.
  intros Hword. unfold temp_line_of, nonempty_words.
  destruct (truthy cur) eqn:Hcur.
  - by rewrite split_space_app, filter_app, (split_space_no_space word).
  - apply truthy_false in Hcur as ->. by rewrite (split_space_no_space word).
Qed.

Section Words.

Variable bb : style -> Z -> option string -> string -> bbox.
Variables (width : Z) (st : style) (font_size : Z).

Local Abbreviation step := (break_step bb width st font_size).
Local Abbreviation loop := (break_loop bb width st font_size).

Lemma break_step_words acc word :
  has_space word = false ->
  words_so_far (step acc word)
  = words_so_far acc ++ filter (fun w => truthy w = true) [word].
Proof.
  intros Hword. destruct acc as [lines cur]. unfold break_step, words_so_far.
  destruct (_ <=? _); simpl.
  - by rewrite nonempty_words_temp_line, app_assoc.
  - rewrite flat_map_app. simpl. rewrite app_nil_r.
    unfold nonempty_words at 3. by rewrite (split_space_no_space word).
Qed.

Lemma break_loop_words words : forall acc,
  Forall (fun w => has_space w = false) words ->
  words_so_far (loop acc words)
  = words_so_far acc ++ filter (fun w => truthy w = true) words.
Proof.
  induction words as [|word words IH]; intros acc Hwords.
  - simpl. by rewrite app_nil_r.
  - apply Forall_cons in Hwords as [Hword Hwords].
    rewrite break_loop_cons, IH by done.
    rewrite break_step_words by done.
    rewrite <- app_assoc. f_equal.
    change (word :: words) with ([word] ++ words). by rewrite filter_app.
Qed.

Lemma flush_words acc : flat_map nonempty_words (flush acc) = words_so_far acc.
Proof.
  destruct acc as [lines cur]. unfold flush, words_so_far. simpl.
  destruct (truthy cur) eqn:Hcur.
  - rewrite flat_map_app. simpl. by rewrite app_nil_r.
  - apply truthy_false in Hcur as ->. by rewrite app_nil_r.
Qed.

Lemma break_step_length acc word :
  (length (step acc word).1 <= S (length acc.1))%nat.
Proof.
  destruct acc as [lines cur]. unfold break_step.
  destruct (_ <=? _); simpl; [lia |]. rewrite length_app. simpl. lia.
Qed.

Lemma break_loop_length words : forall acc,
  (length (loop acc words).1 <= length acc.1 + length words)%nat.
Proof.
  induction words as [|word words IH]; intros acc; simpl; [lia |].
  fold (loop (step acc word) words).
  pose proof (IH (step acc word)). pose proof (break_step_length acc word).
  lia.
Qed.

End Words.

(** X1. [break_text] neither loses, nor reorders, nor cuts a word: the
    words of the returned lines that are not empty are, in order, the words
    of the text that are not empty, whatever the font and the width. *)
Theorem X1_break_text_keeps_words
    (bb : style -> Z -> option string -> string -> bbox)
    (width : Z) (text : string) (st : style) (font_size : Z) :
  flat_map nonempty_words (break_text bb width text st font_size)
  = nonempty_words text.
Proof.
  unfold break_text. rewrite flush_words, break_loop_words.
  - reflexivity.
  - apply split_space_words.
Qed.

(** X2. [break_text] returns at most one line per word of the text, and one
    more. *)
Theorem X2_break_text_line_count
    (bb : style -> Z -> option string -> string -> bbox)
    (width : Z) (text : string) (st : style) (font_size : Z) :
  (length (break_text bb width text st font_size)
   <= length (split_space text) + 1)%nat.
Proof.
  unfold break_text.
  pose proof (break_loop_length bb width st font_size (split_space text)
                ([], EmptyString)) as Hloop.
  destruct (break_loop bb width st font_size ([], EmptyString)
              (split_space text)) as [lines cur].
  simpl in *. destruct (truthy cur); [rewrite length_app; simpl |]; lia.
Qed.

(** X3. The ends of the search of [find_optimum_font_size]: when the text
    fits at every size of [1, width] the answer is [width]; when it fits at
    none the answer is 0; and for a width below 1, where the loop does not
    run, the answer is 1 if the text fits at size 1 and 0 otherwise. *)
Theorem X3_find_optimum_font_size_ends
    (bb : style -> Z -> option string -> string -> bbox)
    (text : string) (st : style) (width : Z) (height : option Z)
    (allow_break : bool) :
  (1 <= width ->
   (forall s, 1 <= s <= width ->
              fits bb text st width height allow_break s = true) ->
   find_optimum_font_size bb text st width height allow_break = width)
  /\ (1 <= width ->
      (forall s, 1 <= s <= width ->
                 fits bb text st width height allow_break s = false) ->
      find_optimum_font_size bb text st width height allow_break = 0)
  /\ (width < 1 ->
      find_optimum_font_size bb text st width height allow_break
      = if fits bb text st width height allow_break 1 then 1 else 0).
Proof.
  unfold find_optimum_font_size.
  set (fit := fits bb text st width height allow_break).
  split; [| split].
  - intros Hw Hall.
    destruct (bisect_post_start fit width Hw) as (Hr & Hbelow & Habove).
    set (r := bisect fit 1 width) in *.
    rewrite (Hall r Hr).
    destruct Habove as [Habove | Habove]; [| by rewrite (Hall r Hr) in Habove].
    destruct (Z.eq_dec r width) as [-> | Hne]; [done |].
    rewrite Hall in Habove by lia. by specialize (Habove ltac:(lia)).
  - intros Hw Hnone.
    destruct (bisect_post_start fit width Hw) as (Hr & Hbelow & _).
    set (r := bisect fit 1 width) in *.
    rewrite (Hnone r Hr).
    destruct (Z.eq_dec r 1) as [-> | Hne]; [done |].
    rewrite Hnone in Hbelow by lia. by specialize (Hbelow ltac:(lia)).
  - intros Hw. by rewrite bisect_exit by lia.
Qed.

Lemma X3_find_optimum_font_size_ends_witness :
  find_optimum_font_size mono_textbbox "i" plain 10 None false = 10
  /\ find_optimum_font_size mono_textbbox "abcdefghijklm" plain 10 None false
     = 0
  /\ find_optimum_font_size mono_textbbox "" plain 0 None false = 1.
Proof.
  destruct (X3_find_optimum_font_size_ends mono_textbbox "i" plain 10 None
              false) as (Hall & _ & _).
  destruct (X3_find_optimum_font_size_ends mono_textbbox "abcdefghijklm" plain
              10 None false) as (_ & Hnone & _).
  destruct (X3_find_optimum_font_size_ends mono_textbbox "" plain 0 None
              false) as (_ & _ & Hlow).
  split; [| split].
  - apply Hall; [lia |]. intros s Hs. unfold fits, find_text_size. simpl.
    unfold widest. simpl.
    assert ((s + 1) / 2 <= 10) by (apply Z.div_le_upper_bound; lia).
    rewrite andb_true_r. apply Z.leb_le. lia.
  - apply Hnone; [lia |]. intros s Hs. unfold fits, find_text_size. simpl.
    unfold widest. simpl.
    assert (1 <= (s + 1) / 2) by (apply Z.div_le_lower_bound; lia).
    rewrite andb_true_r. apply Z.leb_gt. lia.
  - rewrite Hlow by lia. reflexivity.
Defined.

End LayoutFacts.

(** * Properties of clips as values *)

Module ClipsFacts.
Import Clips.

Lemma bind_inr {A B : Type} (m : result A) (f : A -> result B) (a : A) :
  m = inr a -> m ≫= f = f a.
Proof. by intros ->. Qed.

Lemma bind_inr_inv {A B : Type} (m : result A) (f : A -> result B) (b : B) :
  m ≫= f = inr b -> exists a, m = inr a /\ f a = inr b.
Proof. destruct m as [e | a]; [done |]. intros H. by exists a. Qed.

(** On values a copy is its source. *)
Lemma copy_id (c : clip) : copy c = c.
Proof.
  revert c. fix IH 1. intros c.
  destruct c as [k s e d mf sz im hc m p rp ly ig fp]. simpl.
  destruct m as [m |]; [| done].
  by rewrite (IH m).
Qed.

(** The loop over [apply_to] touches the mask only. *)
Lemma apply_attr_make_frame f c attr c' :
  apply_attr f c attr = inr c' ->
  make_frame c' = make_frame c /\ klass c' = klass c
  /\ is_mask c' = is_mask c.
Proof.
  unfold apply_attr. destruct (String.eqb attr "mask").
  - destruct (mask c) as [a |].
    + destruct (f a) as [e | new_a]; [done |].
      intros [= <-]. done.
    + intros [= <-]. done.
  - intros [= <-]. done.
Qed.

Lemma for_each_apply_attr f apply_to : forall c c',
  for_each (apply_attr f) c apply_to = inr c' ->
  make_frame c' = make_frame c /\ klass c' = klass c
  /\ is_mask c' = is_mask c.
Proof.
  induction apply_to as [|attr rest IH]; intros c c'; simpl.
  - intros [= <-]. done.
  - intros (c1 & H1 & H2)%bind_inr_inv.
    apply apply_attr_make_frame in H1 as (E1 & E2 & E3).
    apply IH in H2 as (F1 & F2 & F3).
    by rewrite F1, F2, F3.
Qed.

(** The frame function of an eager transform: the transformed frame of
    time 0, at every time. *)
Lemma eager_frames c image_func apply_to c' :
  ImageClip_image_transform c image_func apply_to = inr c' ->
  exists arr, make_frame c 0 ≫= image_func = inr arr
              /\ make_frame c' = (fun _ => inr arr)
              /\ klass c' = klass c /\ is_mask c' = is_mask c.
Proof.
  unfold ImageClip_image_transform, ImageClip_image_transform_alone.
  rewrite copy_id. unfold get_frame.
  intros (self & Hself & Hloop)%bind_inr_inv.
  apply bind_inr_inv in Hself as (arr & Harr & [= <-]).
  apply for_each_apply_attr in Hloop as (Hmf & Hk & Hm).
  exists arr. by rewrite Hmf, Hk, Hm.
Qed.

(** The frame function of a lazy transform: the frame of the time,
    transformed. *)
Lemma lazy_frames c image_func apply_to c' :
  VideoClip_image_transform c image_func apply_to = inr c' ->
  make_frame c' = (fun t => make_frame c t ≫= image_func)
  /\ klass c' = (if is_image_class (klass c) then VideoClipC else klass c)
  /\ is_mask c' = is_mask c
  /\ exists arr, make_frame c 0 ≫= image_func = inr arr.
Proof.
  unfold VideoClip_image_transform, transform, Clip_transform_alone,
    with_make_frame.
  rewrite copy_id. unfold get_frame. simpl.
  intros (c1 & Hc1 & (c2 & Hloop & Hret)%bind_inr_inv)%bind_inr_inv.
  apply bind_inr_inv in Hc1 as (c0 & (frame0 & H0 & [= <-])%bind_inr_inv
                                 & [= <-]).
  apply for_each_apply_attr in Hloop as (Hmf & Hk & Hm).
  simpl in Hmf, Hk, Hm. unfold lazy_func in *.
  destruct (is_image_class (klass c)); injection Hret as <-; simpl;
    rewrite ?Hmf, ?Hk, ?Hm; eauto.
Qed.

(** C9. On a clip whose frame does not depend on the time, the eager
    [ImageClip.image_transform] and the lazy [VideoClip.image_transform]
    produce clips with the same frame at every time, for every pixel
    function and every list of companions. *)
Theorem C9_eager_image_transform_is_lazy
    (c : clip) (image_func : ndarray -> result ndarray)
    (apply_to : list string) (eager lazy : clip) :
  static c ->
  ImageClip_image_transform c image_func apply_to = inr eager ->
  VideoClip_image_transform c image_func apply_to = inr lazy ->
  forall t, get_frame eager t = get_frame lazy t.
Proof.
  intros Hstatic (arr & Harr & He & _)%eager_frames (Hl & _)%lazy_frames t.
  unfold get_frame. rewrite He, Hl. by rewrite Hstatic, Harr.
Qed.

Lemma still_is_ImageClip :
  ImageClip_init ImageClipC red false true false None = inr (still red).
Proof. reflexivity. Qed.

Lemma C9_eager_image_transform_is_lazy_witness :
  exists eager lazy,
    ImageClip_image_transform (still red) invert ["mask"] = inr eager
    /\ VideoClip_image_transform (still red) invert ["mask"] = inr lazy
    /\ forall t, get_frame eager t = get_frame lazy t.
Proof.
  eexists _, _. split; [reflexivity |]. split; [reflexivity |].
  apply (C9_eager_image_transform_is_lazy (still red) invert ["mask"]);
    [by intros t | reflexivity | reflexivity].
Defined.

(** *** to_mask and to_RGB *)

Lemma Qtrunc_integer (q : Q) (z : Z) : (q == inject_Z z)%Q -> Qtrunc q = z.
Proof.
  unfold Qeq, Qtrunc. simpl. intros H.
  replace (Qnum q) with (z * Z.pos (Qden q)) by lia.
  by apply Z.quot_mul.
Qed.





(** *** BitmapClip *)

Lemma Qtrunc_floor (q : Q) : (0 <= q)%Q -> Qtrunc q = Qfloor q.
Proof.
  destruct q as [n d]. unfold Qle, Qtrunc, Qfloor. simpl. intros Hn.
  apply Z.quot_div_nonneg; lia.
Qed.

Lemma norm_index_in_range (n i : Z) : 0 <= i < n -> norm_index n i = inr i.
Proof.
  intros Hi. unfold norm_index.
  destruct (Z.leb_spec 0 i); [| lia]. by destruct (Z.ltb_spec i n); [| lia].
Qed.

(** The frame function of a bitmap clip at a time that is not negative. *)
Lemma frame_at_floor (frame_array : list ndarray) (f t : Q) (frame : ndarray) :
  (0 <= f * t)%Q ->
  frame_array !! Z.to_nat (Qfloor (f * t)) = Some frame ->
  frame_at frame_array f t = inr frame.
Proof.
  intros Hpos Hframe. unfold frame_at.
  assert (Qtrunc (t * f) = Qfloor (f * t)) as ->.
  { rewrite Qtrunc_floor by (by rewrite Qmult_comm).
    apply Qfloor_comp, Qmult_comm. }
  assert (0 <= Qfloor (f * t)) as Hfloor.
  { change 0 with (Qfloor 0). by apply Qfloor_resp_le. }
  apply lookup_lt_Some in Hframe as Hlt.
  rewrite norm_index_in_range by lia. unfold mbind, result_bind.
  by rewrite Hframe.
Qed.

(** C7. A [BitmapClip] given exactly one of [fps] and [duration] (not zero),
    over frames that decode to at least one array, is built; the one not
    given is the number of frames divided by the one given; and the frame at
    a time [t] that is not negative is the decoded array of index
    [floor(fps * t)], when there is one. *)
Theorem C7_BitmapClip_fps_and_duration
    (bitmap_frames : list (list string)) (fps_arg duration_arg : option Q)
    (color_dict_arg : option (gmap string (Z * Z * Z))) (is_mask_arg : bool)
    (frame_array : list ndarray) (v : Q) :
  decode_frames (effective_color_dict color_dict_arg) bitmap_frames
  = inr frame_array ->
  frame_array <> [] ->
  (fps_arg = Some v /\ duration_arg = None)
  \/ (fps_arg = None /\ duration_arg = Some v) ->
  ~ (v == 0)%Q ->
  exists bc f d,
    BitmapClip_init bitmap_frames fps_arg duration_arg color_dict_arg
      is_mask_arg = inr bc
    /\ fps (bc_clip bc) = Some f
    /\ duration (bc_clip bc) = Some d
    /\ total_frames bc = Z.of_nat (length frame_array)
    /\ (fps_arg = Some v ->
        f = v /\ d = (inject_Z (Z.of_nat (length frame_array)) / v)%Q)
    /\ (duration_arg = Some v ->
        d = v /\ f = (inject_Z (Z.of_nat (length frame_array)) / v)%Q)
    /\ forall t frame,
         (0 <= f * t)%Q ->
         frame_array !! Z.to_nat (Qfloor (f * t)) = Some frame ->
         get_frame (bc_clip bc) t = inr frame.
Proof.
  intros Hdecode Hne Hone Hv.
  assert (Qeq_bool v 0 = false) as Hv0.
  { destruct (Qeq_bool v 0) eqn:E; [| done]. by apply Qeq_bool_eq in E. }
  destruct frame_array as [|frame0 rest] eqn:Harr; [done |].
  rewrite <- Harr in *.
  assert (forall f, frame_at frame_array f 0 = inr frame0) as H0.
  { intros f. apply frame_at_floor.
    - rewrite Qmult_0_r. apply Qle_refl.
    - rewrite (Qfloor_comp _ 0) by apply Qmult_0_r. by rewrite Harr. }
  unfold BitmapClip_init.
  destruct Hone as [[-> ->] | [-> ->]]; simpl; rewrite Hdecode; simpl;
    rewrite Hv0; simpl; unfold VideoClip_init, get_frame; simpl;
    rewrite H0; simpl.
  - eexists _, _, _. split; [reflexivity |]. simpl.
    split; [done |]. split; [done |]. split; [done |].
    split; [done |]. split; [done |].
    intros t frame Hpos Hframe. by apply frame_at_floor.
  - eexists _, _, _. split; [reflexivity |]. simpl.
    split; [done |]. split; [done |]. split; [done |].
    split; [done |]. split; [done |].
    intros t frame Hpos Hframe. by apply frame_at_floor.
Qed.

(** The scenario of the specification: two frames at one frame per second
    last two seconds; time 0 shows the first decoded frame and time 1 the
    second. *)
Lemma C7_BitmapClip_fps_and_duration_witness :
  exists bc d first second,
    BitmapClip_init docstring_frames (Some 1%Q) None None false = inr bc
    /\ duration (bc_clip bc) = Some d /\ (d == 2)%Q
    /\ mapM (decode_frame DEFAULT_COLOR_DICT) docstring_frames
       = inr [first; second]
    /\ get_frame (bc_clip bc) 0 = inr first
    /\ get_frame (bc_clip bc) 1 = inr second.
Proof.
  destruct (C7_BitmapClip_fps_and_duration docstring_frames (Some 1%Q) None
              None false
              docstring_arrays 1%Q)
    as (bc & f & d & Hbc & Hf & Hd & _ & Hfps & _ & Hframes).
  - reflexivity.
  - done.
  - by left.
  - done.
  - destruct (Hfps eq_refl) as [-> ->].
    eexists bc, _, _, _. split; [exact Hbc |]. split; [exact Hd |].
    split; [reflexivity |]. split; [reflexivity |].
    split; apply Hframes; done.
Defined.

(** When both are given the constructor accepts them and, as its docstring
    says, ignores [duration]. *)
Example BitmapClip_both_given :
  (fun r => match r with
            | inr bc => duration (bc_clip bc)
            | inl _ => None
            end)
    (BitmapClip_init docstring_frames (Some 1%Q) (Some 5%Q) None false)
  = Some (2 / 1)%Q.
Proof. reflexivity. Qed.

(** *** Further properties of transforms *)

Lemma bind_assoc_result {A B C : Type} (m : result A) (f : A -> result B)
    (g : B -> result C) :
  (m ≫= f) ≫= g = m ≫= (fun a => f a ≫= g).
Proof. by destruct m. Qed.

Lemma image_transform_alone_eq (c : clip) (f : ndarray -> result ndarray) :
  image_transform c f []
  = if is_image_class (klass c) then ImageClip_image_transform c f []
    else VideoClip_image_transform c f [].
Proof. reflexivity. Qed.

(** What a transform without companions gives, whatever the class. *)
Lemma image_transform_inv (c c' : clip) (f : ndarray -> result ndarray) :
  image_transform c f [] = inr c' ->
  is_image_class (klass c') = is_image_class (klass c)
  /\ (exists arr, make_frame c 0 ≫= f = inr arr)
  /\ if is_image_class (klass c)
     then exists arr, make_frame c 0 ≫= f = inr arr
                      /\ make_frame c' = (fun _ => inr arr)
     else make_frame c' = (fun t => make_frame c t ≫= f).
Proof.
  rewrite image_transform_alone_eq.
  destruct (is_image_class (klass c)) eqn:Hclass.
  - intros (arr & Harr & Hmf & Hk & _)%eager_frames.
    rewrite Hk, Hclass. split; [done |]. split; [by exists arr |].
    by exists arr.
  - intros (Hmf & Hk & _ & Harr)%lazy_frames.
    rewrite Hclass in Hk. rewrite Hk, Hclass. done.
Qed.

(** A transform succeeds as soon as the frame of time 0 can be
    transformed. *)
Lemma image_transform_succeeds (c : clip) (f : ndarray -> result ndarray)
    (arr : ndarray) :
  make_frame c 0 ≫= f = inr arr -> exists c', image_transform c f [] = inr c'.
Proof.
  intros Harr. rewrite image_transform_alone_eq.
  destruct (is_image_class (klass c)) eqn:Hclass.
  - unfold ImageClip_image_transform, ImageClip_image_transform_alone.
    rewrite copy_id. unfold get_frame.
    change (frame0 ← make_frame c 0; f frame0) with (make_frame c 0 ≫= f).
    rewrite Harr. simpl. by eexists.
  - unfold VideoClip_image_transform, transform, Clip_transform_alone,
      with_make_frame. rewrite copy_id, Hclass. unfold get_frame, lazy_func.
    simpl.
    assert ((make_frame c 0 ≫= λ pic, f pic) = inr arr) as -> by exact Harr.
    simpl. by eexists.
Qed.

(** X8. Image transforms compose: transforming a clip with [f] and the
    result with [g] gives, at every time, the frame that the single
    transform with "[f] then [g]" gives, for clips of every class; and the
    single transform succeeds whenever the two in a row do. *)
Theorem X8_image_transform_composes (c c1 c2 : clip)
    (f g : ndarray -> result ndarray) :
  image_transform c f [] = inr c1 ->
  image_transform c1 g [] = inr c2 ->
  exists c12,
    image_transform c (fun pic => f pic ≫= g) [] = inr c12
    /\ forall t, get_frame c12 t = get_frame c2 t.
Proof.
  intros (Hk1 & _ & H1)%image_transform_inv (Hk2 & [arr2 Harr2] & H2)%image_transform_inv.
  rewrite Hk1 in H2.
  assert (make_frame c 0 ≫= (fun pic => f pic ≫= g) = inr arr2) as H0.
  { rewrite <- bind_assoc_result.
    destruct (is_image_class (klass c)).
    - destruct H1 as (arr1 & Harr1 & Hmf1). rewrite Harr1.
      by rewrite Hmf1 in Harr2.
    - by rewrite H1 in Harr2. }
  destruct (image_transform_succeeds c _ arr2 H0) as [c12 Hc12].
  exists c12. split; [done |].
  apply image_transform_inv in Hc12 as (_ & _ & H12).
  intros t. unfold get_frame.
  destruct (is_image_class (klass c)).
  - destruct H12 as (arr12 & Harr12 & ->).
    destruct H2 as (arr2' & Harr2' & ->).
    rewrite H0 in Harr12. rewrite Harr2 in Harr2'. congruence.
  - rewrite H12, H2, H1. by rewrite bind_assoc_result.
Qed.

Lemma X8_image_transform_composes_witness :
  exists c1 c2 c12,
    image_transform (still red) invert [] = inr c1
    /\ image_transform c1 invert [] = inr c2
    /\ image_transform (still red) (fun pic => invert pic ≫= invert) []
       = inr c12
    /\ forall t, get_frame c12 t = get_frame c2 t.
Proof.
  destruct (X8_image_transform_composes (still red)
              (set_img (Some (map_cells (fun v => 255 - v)%Q red))
                 (set_make_frame
                    (fun _ => mret (map_cells (fun v => 255 - v)%Q red))
                    (set_size (Some (2, 1)) (still red))))
              (set_img
                 (Some (map_cells (fun v => 255 - v)%Q
                          (map_cells (fun v => 255 - v)%Q red)))
                 (set_make_frame
                    (fun _ => mret (map_cells (fun v => 255 - v)%Q
                                      (map_cells (fun v => 255 - v)%Q red)))
                    (set_size (Some (2, 1)) (still red))))
              invert invert) as (c12 & Hc12 & Hframes); [reflexivity .. |].
  eexists _, _, c12. split; [reflexivity |]. split; [reflexivity |].
  by split.
Defined.

(** Which channels an array has. *)
Lemma channel_raises (pic : ndarray) (canal : Z) :
  channel pic canal = inl IndexError
  <-> match pic with
      | Arr2 _ _ _ => True
      | Arr3 _ _ c _ => canal < - c \/ c <= canal
      end.
Proof.
  destruct pic as [h w cell | h w c cell]; simpl; [done |].
  unfold norm_index.
  destruct (Z.leb_spec 0 canal), (Z.ltb_spec canal c),
    (Z.leb_spec (- c) canal), (Z.ltb_spec canal 0); simpl;
    split; (done || lia || (intros; exfalso; lia) || idtac).
  all: try (intros [= ]). all: try (intros _; reflexivity).
Qed.

(** X9. [to_mask] on a clip that is not a mask fails at once, with the
    error of the channel selection, when the frame of time 0 has not the
    channel asked for, whether the clip is transformed eagerly or lazily;
    the selection raises [IndexError] exactly on two-dimensional frames and
    on channel numbers outside [-c, c). *)
Theorem X9_to_mask_missing_channel (c : clip) (canal : Z) (frame : ndarray) :
  is_mask c = false ->
  get_frame c 0 = inr frame ->
  match frame with
  | Arr2 _ _ _ => True
  | Arr3 _ _ ch _ => canal < - ch \/ ch <= canal
  end ->
  to_mask c canal = inl IndexError.
Proof.
  intros Hmask Hframe Hmissing%channel_raises.
  unfold to_mask. rewrite Hmask. rewrite image_transform_alone_eq.
  unfold get_frame in Hframe.
  destruct (is_image_class (klass c)) eqn:Hclass.
  - unfold ImageClip_image_transform, ImageClip_image_transform_alone.
    rewrite copy_id. unfold get_frame. rewrite Hframe. simpl.
    by rewrite Hmissing.
  - unfold VideoClip_image_transform, transform, Clip_transform_alone,
      with_make_frame. rewrite copy_id. unfold get_frame, lazy_func. simpl.
    rewrite Hframe. simpl. by rewrite Hmissing.
Qed.

Lemma X9_to_mask_missing_channel_witness :
  to_mask (still red) 3 = inl IndexError
  /\ to_mask (still (Arr2 1 1 (fun _ _ => 0%Q))) 0 = inl IndexError.
Proof.
  split.
  - apply (X9_to_mask_missing_channel (still red) 3 red); [done | done |].
    simpl. lia.
  - by apply (X9_to_mask_missing_channel
                (still (Arr2 1 1 (fun _ _ => 0%Q))) 0
                (Arr2 1 1 (fun _ _ => 0%Q))).
Defined.

(** *** Time transforms and frozen frames *)

Lemma set_mask_id (c : clip) (a : clip) :
  mask c = Some a -> set_mask (Some a) c = c.
Proof. destruct c. simpl. by intros ->. Qed.

Lemma all_images_inv (c : clip) :
  all_images c = true ->
  is_image_class (klass c) = true
  /\ forall a, mask c = Some a -> all_images a = true.
Proof.
  destruct c as [k s e d mf sz im hc m p rp ly ig fp]. simpl.
  intros [Hk Hm]%andb_true_iff. split; [done |]. by intros a ->.
Qed.

Lemma for_each_cons {A S : Type} (body : S -> A -> result S) (s : S) (x : A)
    (rest : list A) :
  for_each body s (x :: rest)
  = body s x ≫= (fun s' => for_each body s' rest).
Proof. reflexivity. Qed.

Section TimeTransform.

Variable Clip_time_transform : clip -> (Q -> Q) -> result clip.
Variable time_func : Q -> Q.

Lemma time_transform_default_id (c : clip) :
  all_images c = true ->
  time_transform_default Clip_time_transform c time_func = inr c.
Proof.
  revert c. fix IH 1. intros c Hall.
  destruct c as [k s e d mf sz im hc m p rp ly ig fp].
  simpl in Hall. apply andb_true_iff in Hall as [Hk Hm].
  cbn [time_transform_default]. rewrite Hk.
  destruct m as [a |].
  - rewrite (IH a Hm). simpl. by rewrite (copy_id a).
  - done.
Qed.

Lemma for_each_time_transform_id (apply_to : list string) (c : clip) :
  all_images c = true ->
  for_each
    (apply_attr (fun a => time_transform_default Clip_time_transform a
                            time_func)) c apply_to = inr c.
Proof.
  intros Hall. apply all_images_inv in Hall as [_ Hmask].
  induction apply_to as [|attr rest IH]; [done |].
  assert (apply_attr (fun a => time_transform_default Clip_time_transform a
                                 time_func) c attr = inr c) as Hstep.
  { unfold apply_attr. destruct (String.eqb attr "mask"); [| done].
    destruct (mask c) as [a |] eqn:Hm; [| done].
    rewrite (time_transform_default_id a (Hmask a eq_refl)). simpl.
    by rewrite (set_mask_id c a Hm). }
  rewrite for_each_cons, Hstep. exact IH.
Qed.

(** X10. [ImageClip.time_transform] never changes the frames of the clip:
    every result has the frame function and the class of the source; and
    when the clip and all its nested masks are of an image class, the
    result is the very same clip value, whatever the function of time and
    the companions named. *)
Theorem X10_time_transform_keeps_images (c : clip)
    (apply_to : option (list string)) (keep_duration : bool) :
  (forall r,
      ImageClip_time_transform Clip_time_transform c time_func apply_to
        keep_duration = inr r ->
      make_frame r = make_frame c /\ klass r = klass c
      /\ duration r = duration c)
  /\ (all_images c = true ->
      ImageClip_time_transform Clip_time_transform c time_func apply_to
        keep_duration = inr c).
Proof.
  unfold ImageClip_time_transform. rewrite copy_id. split.
  - intros r Hr.
    assert (forall l x y,
               for_each (apply_attr (fun a => time_transform_default
                           Clip_time_transform a time_func)) x l = inr y ->
               duration y = duration x) as Hdur.
    { induction l as [|attr rest IH]; intros x y; simpl.
      - by intros [= <-].
      - intros (x1 & H1 & H2)%bind_inr_inv. rewrite (IH _ _ H2).
        unfold apply_attr in H1. destruct (String.eqb attr "mask").
        + destruct (mask x); [| by injection H1 as <-].
          apply bind_inr_inv in H1 as (a' & _ & [= <-]). done.
        + by injection H1 as <-. }
    pose proof (Hdur _ _ _ Hr).
    apply for_each_apply_attr in Hr as (Hmf & Hk & _). done.
  - apply for_each_time_transform_id.
Qed.

End TimeTransform.

Lemma X10_time_transform_keeps_images_witness :
  ImageClip_time_transform (fun _ _ => raise TypeError)
    (set_mask (Some (set_is_mask true (still opaque_pixel))) (still red))
    (fun t => (2 * t)%Q) None false
  = inr (set_mask (Some (set_is_mask true (still opaque_pixel))) (still red)).
Proof.
  by apply (proj2 (X10_time_transform_keeps_images
                     (fun _ _ => raise TypeError) (fun t => (2 * t)%Q)
                     (set_mask (Some (set_is_mask true (still opaque_pixel)))
                        (still red)) None false)).
Defined.

(** [ImageClip.__init__] on a frame it keeps. *)
Lemma ImageClip_init_kept (k : cls) (frame : ndarray) (im tr fa : bool)
    (d : option Q) :
  kept_frame im frame ->
  exists r, ImageClip_init k frame im tr fa d = inr r
            /\ klass r = k /\ is_mask r = im /\ duration r = d
            /\ mask r = None
            /\ make_frame r = (fun _ => inr frame).
Proof.
  intros Hkept. unfold ImageClip_init, VideoClip_init. simpl.
  destruct frame as [h w cell | h w c cell]; simpl in *.
  - destruct d; eexists; (split; [reflexivity |]); done.
  - destruct Hkept as [-> Hc].
    assert ((c =? 4) = false) as -> by (by apply Z.eqb_neq).
    destruct d; eexists; (split; [reflexivity |]); done.
Qed.

Lemma to_ImageClip_eq (c : clip) (t : Q) (wm : bool) (d : option Q) :
  to_ImageClip c t wm d
  = (frame ← get_frame c t;
     new_clip ← ImageClip_init ImageClipC frame (is_mask c) true false d;
     if wm then
       match mask c with
       | Some a =>
           new_mask ← to_ImageClip a t true None;
           mret (set_mask (Some new_mask) new_clip)
       | None => mret new_clip
       end
     else mret new_clip).
Proof. by destruct c. Qed.

(** X11. [to_ImageClip(t)] freezes the clip at time [t]: for a frame that
    [ImageClip] keeps as it is, the result is an [ImageClip] with the mask
    flag of the source and the duration asked for, and it shows the frame
    of time [t] at every time; asked to, it carries the mask of the source
    frozen at the same time. *)
Theorem X11_to_ImageClip_freezes (c : clip) (t : Q) (frame : ndarray) :
  get_frame c t = inr frame ->
  kept_frame (is_mask c) frame ->
  (forall d, exists r,
      to_ImageClip c t false d = inr r
      /\ klass r = ImageClipC /\ is_mask r = is_mask c /\ duration r = d
      /\ forall t', get_frame r t' = inr frame)
  /\ (forall m mframe d,
        mask c = Some m -> mask m = None ->
        get_frame m t = inr mframe -> kept_frame (is_mask m) mframe ->
        exists r mk,
          to_ImageClip c t true d = inr r
          /\ mask r = Some mk
          /\ (forall t', get_frame r t' = inr frame)
          /\ (forall t', get_frame mk t' = inr mframe)).
Proof.
  intros Hframe Hkept. split.
  - intros d. rewrite to_ImageClip_eq, Hframe. simpl.
    destruct (ImageClip_init_kept ImageClipC frame (is_mask c) true false d
                Hkept) as (r & -> & Hk & Hm & Hd & _ & Hmf).
    exists r. simpl. unfold get_frame. by rewrite Hmf.
  - intros m mframe d Hmask Hnomask Hmframe Hmkept.
    rewrite to_ImageClip_eq, Hframe, Hmask. simpl.
    destruct (ImageClip_init_kept ImageClipC frame (is_mask c) true false d
                Hkept) as (r & -> & _ & _ & _ & _ & Hmf).
    simpl. rewrite to_ImageClip_eq, Hmframe, Hnomask. simpl.
    destruct (ImageClip_init_kept ImageClipC mframe (is_mask m) true false
                None Hmkept) as (mk & -> & _ & _ & _ & _ & Hmmf).
    simpl. exists (set_mask (Some mk) r), mk.
    split; [done |]. split; [done |]. unfold get_frame. simpl.
    by rewrite Hmf, Hmmf.
Qed.

Lemma X11_to_ImageClip_freezes_witness :
  exists r,
    to_ImageClip (bc_clip_of docstring_clip) 1 false (Some 3%Q) = inr r
    /\ forall t', get_frame r t' = get_frame (bc_clip_of docstring_clip) 1.
Proof.
  destruct (X11_to_ImageClip_freezes (bc_clip_of docstring_clip) 1
              (default red (docstring_arrays !! 1%nat)))
    as (Hplain & _); [reflexivity | by split |].
  destruct (Hplain (Some 3%Q)) as (r & Hr & _ & _ & _ & Hframes).
  exists r. split; [done |]. intros t'. by rewrite Hframes.
Defined.

(** *** Further properties of BitmapClip *)

Lemma mapM_inr {A B : Type} (f : A -> result B) (l : list A) : forall k,
  mapM f l = inr k -> Forall2 (fun x y => f x = inr y) l k.
Proof.
  induction l as [|x l IH]; intros k; simpl.
  - intros [= <-]. constructor.
  - intros (y & Hy & (k' & Hk' & [= <-])%bind_inr_inv)%bind_inr_inv.
    constructor; [done | by apply IH].
Qed.

Lemma chars_length (row : string) : length (chars row) = String.length row.
Proof. induction row as [|c row IH]; simpl; [done | by rewrite IH]. Qed.

Lemma decode_row_inr (cd : gmap string (Z * Z * Z)) (row : string)
    (px : list (Z * Z * Z)) :
  decode_row cd row = inr px ->
  length px = String.length row
  /\ Forall (fun c => is_Some (cd !! c)) (chars row).
Proof.
  intros H%mapM_inr. split.
  - rewrite <- chars_length. symmetry. by eapply Forall2_length.
  - eapply Forall2_Forall_l; [exact H |]. apply Forall_forall.
    intros y _ c Hc. destruct (cd !! c); [by eexists | done].
Qed.

(** A frame that decodes: its shape and its letters. *)
Lemma decode_frame_inr (cd : gmap string (Z * Z * Z)) (frame : list string)
    (arr : ndarray) :
  decode_frame cd frame = inr arr ->
  shape_size arr = (Z.of_nat (String.length (hd EmptyString frame)),
                    Z.of_nat (length frame))
  /\ Forall (fun row => Forall (fun c => is_Some (cd !! c)) (chars row))
       frame.
Proof.
  unfold decode_frame. intros (rows & Hrows & Harr)%bind_inr_inv.
  apply mapM_inr in Hrows. unfold np_array in Harr.
  destruct (forallb _ rows); [| done].
  injection Harr as <-. simpl.
  pose proof (Forall2_length _ _ _ Hrows) as Hlen.
  split.
  - rewrite <- Hlen. f_equal. f_equal.
    destruct Hrows as [|row px frame' rows' Hrow _]; [done |].
    simpl. by apply decode_row_inr in Hrow as [-> _].
  - clear Hlen.
    induction Hrows as [|row px frame' rows' Hrow Hrows IH];
      [by constructor |].
    apply decode_row_inr in Hrow as [_ Hletters]. by constructor.
Qed.

Lemma stack_frames_inr (frame_list frame_array : list ndarray) :
  stack_frames frame_list = inr frame_array -> frame_array = frame_list.
Proof.
  unfold stack_frames. destruct (forallb _ frame_list); [| done].
  by intros [= <-].
Qed.

Lemma Qtrunc_zero_l (f : Q) : Qtrunc (0 * f) = 0.
Proof. unfold Qtrunc. simpl. by rewrite Z.quot_0_l. Qed.

(** What a bitmap clip that has been built is made of. *)
Lemma BitmapClip_init_inv (bitmap_frames : list (list string))
    (fps_arg duration_arg : option Q)
    (color_dict_arg : option (gmap string (Z * Z * Z))) (is_mask_arg : bool)
    (bc : bitmap_clip) :
  BitmapClip_init bitmap_frames fps_arg duration_arg color_dict_arg
    is_mask_arg = inr bc ->
  exists frame_array f frame0,
    decode_frames (effective_color_dict color_dict_arg) bitmap_frames
    = inr frame_array
    /\ (fps_arg <> None \/ duration_arg <> None)
    /\ fps (bc_clip bc) = Some f
    /\ make_frame (bc_clip bc) = frame_at frame_array f
    /\ frame_array !! 0%nat = Some frame0
    /\ size (bc_clip bc) = Some (shape_size frame0)
    /\ total_frames bc = Z.of_nat (length frame_array).
Proof.
  unfold BitmapClip_init.
  destruct (bool_decide (fps_arg = None) && bool_decide (duration_arg = None))
    eqn:Hnone; [done |].
  intros (frame_array & Hdecode & (pair & Hpair & Hrest)%bind_inr_inv)
    %bind_inr_inv.
  destruct pair as [f d].
  apply bind_inr_inv in Hrest as (self & Hself & [= <-]).
  unfold VideoClip_init in Hself. simpl in Hself.
  apply bind_inr_inv in Hself as (self0 & Hself0 & [= <-]).
  apply bind_inr_inv in Hself0 as (frame0 & Hframe0 & [= <-]).
  unfold get_frame in Hframe0. simpl in Hframe0.
  unfold frame_at in Hframe0. rewrite Qtrunc_zero_l in Hframe0.
  apply bind_inr_inv in Hframe0 as (i & Hi & Hlook).
  assert (i = 0) as ->.
  { unfold norm_index in Hi.
    destruct ((0 <=? 0) && (0 <? Z.of_nat (length frame_array)));
      [by injection Hi |].
    destruct ((- Z.of_nat (length frame_array) <=? 0) && (0 <? 0)) eqn:E;
      [| done].
    by apply andb_true_iff in E as [_ ?]. }
  change (Z.to_nat 0) with 0%nat in Hlook.
  destruct (frame_array !! 0%nat) as [fr |] eqn:Hfirst; [| done].
  injection Hlook as <-.
  exists frame_array, f, fr. split; [done |].
  split.
  { apply andb_false_iff in Hnone as [H | H];
      apply bool_decide_eq_false in H; [by left | by right]. }
  split; [by destruct d |].
  split; [by destruct d |]. split; [done |]. by destruct d.
Qed.

(** X12. The size of a [BitmapClip] is read off its first frame: the width
    is the number of letters of the first row, the height the number of
    rows. *)
Theorem X12_BitmapClip_size (first : list string) (rest : list (list string))
    (fps_arg duration_arg : option Q)
    (color_dict_arg : option (gmap string (Z * Z * Z))) (is_mask_arg : bool)
    (bc : bitmap_clip) :
  first <> [] ->
  BitmapClip_init (first :: rest) fps_arg duration_arg color_dict_arg
    is_mask_arg = inr bc ->
  size (bc_clip bc)
  = Some (Z.of_nat (String.length (hd EmptyString first)),
          Z.of_nat (length first)).
Proof.
  intros _.
  intros (frame_array & f & frame0 & Hdecode & _ & _ & _ & Hfirst & -> & _)
    %BitmapClip_init_inv.
  unfold decode_frames in Hdecode.
  apply bind_inr_inv in Hdecode as (frame_list & Hlist & Hstack).
  apply stack_frames_inr in Hstack as ->.
  simpl in Hlist.
  apply bind_inr_inv in Hlist as (arr & Harr & (k & _ & [= <-])%bind_inr_inv).
  injection Hfirst as <-. by apply decode_frame_inr in Harr as [-> _].
Qed.

Lemma X12_BitmapClip_size_witness :
  size (bc_clip_of docstring_clip) = Some (5, 3).
Proof.
  destruct docstring_clip as [e | bc] eqn:Hbc; [done |].
  exact (X12_BitmapClip_size ["RRRRR"; "RRBRR"; "RRBRR"]
           [["RGGGR"; "RGGGR"; "RGGGR"]] (Some 1%Q) None None false bc
           ltac:(done) Hbc).
Defined.

(** X13. What a [BitmapClip] accepts: if the constructor returns, then
    [fps] or [duration] was given, there is at least one frame, and every
    letter of every row of every frame is a key of the colour dictionary in
    force. *)
Theorem X13_BitmapClip_accepts (bitmap_frames : list (list string))
    (fps_arg duration_arg : option Q)
    (color_dict_arg : option (gmap string (Z * Z * Z))) (is_mask_arg : bool)
    (bc : bitmap_clip) :
  BitmapClip_init bitmap_frames fps_arg duration_arg color_dict_arg
    is_mask_arg = inr bc ->
  (fps_arg <> None \/ duration_arg <> None)
  /\ bitmap_frames <> []
  /\ Forall
       (Forall
          (fun row =>
             Forall (fun c => is_Some
                                (effective_color_dict color_dict_arg !! c))
               (chars row)))
       bitmap_frames.
Proof.
  intros (frame_array & f & frame0 & Hdecode & Hgiven & _ & _ & Hfirst & _)
    %BitmapClip_init_inv.
  split; [done |].
  unfold decode_frames in Hdecode.
  apply bind_inr_inv in Hdecode as (frame_list & Hlist & Hstack).
  apply stack_frames_inr in Hstack as ->.
  apply mapM_inr in Hlist.
  split; [intros ->; by inversion Hlist; subst |].
  clear Hfirst.
  induction Hlist as [|fr arr frs arrs Harr Hlist IH]; [by constructor |].
  apply decode_frame_inr in Harr as [_ Hrows]. by constructor.
Qed.

Lemma X13_BitmapClip_accepts_witness :
  exists bc, docstring_clip = inr bc
  /\ Forall
       (Forall
          (fun row =>
             Forall (fun c => is_Some (DEFAULT_COLOR_DICT !! c)) (chars row)))
       docstring_frames.
Proof.
  destruct docstring_clip as [e | bc] eqn:Hbc; [done |].
  exists bc. split; [done |].
  exact (proj2 (proj2 (X13_BitmapClip_accepts docstring_frames (Some 1%Q)
                         None None false bc Hbc))).
Defined.

Lemma Qtrunc_ceiling (q : Q) : (q <= 0)%Q -> Qtrunc q = Qceiling q.
Proof.
  destruct q as [n d]. unfold Qle, Qtrunc, Qceiling, Qfloor. simpl.
  intros Hn.
  rewrite <- (Z.opp_involutive n) at 1.
  rewrite Z.quot_opp_l by done.
  f_equal. apply Z.quot_div_nonneg; lia.
Qed.

Lemma norm_index_raises (n i : Z) :
  i < - n \/ (0 <= n /\ n <= i) -> norm_index n i = inl IndexError.
Proof.
  intros Hi. unfold norm_index.
  destruct (Z.leb_spec 0 i), (Z.ltb_spec i n), (Z.leb_spec (- n) i),
    (Z.ltb_spec i 0); simpl; try done; lia.
Qed.

Lemma norm_index_negative (n i : Z) :
  - n <= i < 0 -> norm_index n i = inr (n + i).
Proof.
  intros Hi. unfold norm_index.
  destruct (Z.leb_spec 0 i), (Z.ltb_spec i n), (Z.leb_spec (- n) i),
    (Z.ltb_spec i 0); simpl; try done; lia.
Qed.

(** X14. Times outside a [BitmapClip]. With [n] frames and the frame rate
    [fps], the product [t * fps] decides: from [n] on, and from [- n - 1]
    down, the frame function raises [IndexError]; strictly between -1 and 0
    it shows the first frame, as at time 0; and for a negative product whose
    ceiling [k] is at least [- n] it shows the frame of index [n + k],
    counted from the end. *)
Theorem X14_BitmapClip_outside_times (bitmap_frames : list (list string))
    (fps_arg duration_arg : option Q)
    (color_dict_arg : option (gmap string (Z * Z * Z))) (is_mask_arg : bool)
    (frame_array : list ndarray) (bc : bitmap_clip) (f : Q) :
  decode_frames (effective_color_dict color_dict_arg) bitmap_frames
  = inr frame_array ->
  BitmapClip_init bitmap_frames fps_arg duration_arg color_dict_arg
    is_mask_arg = inr bc ->
  fps (bc_clip bc) = Some f ->
  (forall t, (inject_Z (total_frames bc) <= t * f)%Q ->
     get_frame (bc_clip bc) t = inl IndexError)
  /\ (forall t, (t * f <= inject_Z (- total_frames bc - 1))%Q ->
        get_frame (bc_clip bc) t = inl IndexError)
  /\ (forall t, (-1 < t * f)%Q -> (t * f < 0)%Q ->
        get_frame (bc_clip bc) t = get_frame (bc_clip bc) 0)
  /\ (forall t frame, (t * f <= -1)%Q ->
        - total_frames bc <= Qceiling (t * f) ->
        frame_array !! Z.to_nat (total_frames bc + Qceiling (t * f))
        = Some frame ->
        get_frame (bc_clip bc) t = inr frame).
Proof.
  intros Hdecode
    (fa & f' & frame0 & Hdecode' & _ & Hf & Hmf & _ & _ & Htotal)
    %BitmapClip_init_inv Hfps.
  assert (fa = frame_array) as -> by congruence.
  assert (f' = f) as -> by congruence.
  unfold get_frame. rewrite Hmf, Htotal. unfold frame_at.
  set (n := Z.of_nat (length frame_array)).
  assert (0 <= n) as Hn by lia.
  split; [| split; [| split]].
  - intros t Ht.
    assert (n <= Qtrunc (t * f)) as Hi.
    { rewrite Qtrunc_floor.
      - rewrite <- (Qfloor_Z n). by apply Qfloor_resp_le.
      - eapply Qle_trans; [| exact Ht].
        change 0%Q with (inject_Z 0). rewrite <- Zle_Qle. done. }
    rewrite norm_index_raises; [done |]. right. lia.
  - intros t Ht.
    assert (Qtrunc (t * f) <= - n - 1) as Hi.
    { rewrite Qtrunc_ceiling.
      - rewrite <- (Qceiling_Z (- n - 1)). by apply Qceiling_resp_le.
      - eapply Qle_trans; [exact Ht |].
        change 0%Q with (inject_Z 0). rewrite <- Zle_Qle. lia. }
    rewrite norm_index_raises; [done |]. left. lia.
  - intros t Hlo Hhi.
    assert (Qtrunc (t * f) = 0) as ->.
    { rewrite Qtrunc_ceiling by (by apply Qlt_le_weak).
      pose proof (Qceiling_lt (t * f)) as Hc.
      pose proof (Qle_ceiling (t * f)) as Hc'.
      assert (Qceiling (t * f) - 1 < 0)%Z as H1.
      { rewrite Zlt_Qlt. eapply Qlt_trans; [exact Hc | exact Hhi]. }
      assert (-1 < Qceiling (t * f))%Z as H2.
      { rewrite Zlt_Qlt. eapply Qlt_le_trans; [exact Hlo | exact Hc']. }
      lia. }
    by rewrite Qtrunc_zero_l.
  - intros t frame Ht Hk Hframe.
    assert (Qceiling (t * f) <= -1) as Hc.
    { rewrite <- (Qceiling_Z (-1)). by apply Qceiling_resp_le. }
    rewrite Qtrunc_ceiling by (eapply Qle_trans; [exact Ht | done]).
    rewrite norm_index_negative by (fold n in Hk; lia).
    unfold mbind, result_bind. fold n in Hframe. by rewrite Hframe.
Qed.

(** The two-frame clip of the docstring at one frame per second: time 2 is
    out of range, and time -1 shows the last frame. *)
Lemma X14_BitmapClip_outside_times_witness :
  get_frame (bc_clip_of docstring_clip) 2 = inl IndexError
  /\ exists second,
       docstring_arrays !! 1%nat = Some second
       /\ get_frame (bc_clip_of docstring_clip) (-1) = inr second.
Proof.
  destruct docstring_clip as [e | bc] eqn:Hbc; [done |].
  destruct (docstring_arrays !! 1%nat) as [second |] eqn:Hsecond; [| done].
  destruct (X14_BitmapClip_outside_times docstring_frames (Some 1%Q) None None
              false docstring_arrays bc 1%Q) as (Hout & _ & _ & Hneg).
  - reflexivity.
  - exact Hbc.
  - by injection Hbc as <-.
  - split.
    + apply Hout. by injection Hbc as <-.
    + exists second. split; [done |].
      apply Hneg; [done | by injection Hbc as <- |].
      injection Hbc as <-. exact Hsecond.
Defined.

(** *** DataVideoClip *)

Lemma py_index_floor {A : Type} (l : list A) (q : Q) (x : A) :
  (0 <= q)%Q -> l !! Z.to_nat (Qfloor q) = Some x ->
  py_index l (Qtrunc q) = inr x.
Proof.
  intros Hq Hx. unfold py_index. rewrite Qtrunc_floor by done.
  assert (0 <= Qfloor q) as Hfloor.
  { change 0 with (Qfloor 0). by apply Qfloor_resp_le. }
  apply lookup_lt_Some in Hx as Hlt.
  rewrite norm_index_in_range by lia. unfold mbind, result_bind.
  by rewrite Hx.
Qed.

Lemma Qtrunc_zero_r (f : Q) : Qtrunc (f * 0) = 0.
Proof. unfold Qtrunc. simpl. by rewrite Z.mul_0_r, Z.quot_0_l. Qed.

(** X15. [DataVideoClip]. A frame rate of zero raises [ZeroDivisionError]
    and, the rate not being zero, no data raises [IndexError]. Otherwise,
    when the first dataset renders, the clip is built: it lasts
    [len(data) / fps], has the size of the first rendered frame, and the
    frame at a time [t] with [0 <= fps * t] is the rendering of the dataset
    of index [floor(fps * t)]; from [fps * t = len(data)] on the frame
    function raises [IndexError]. *)
Theorem X15_DataVideoClip {D : Type} (data : list D)
    (data_to_frame : D -> result ndarray) (fps_arg : Q)
    (is_mask_arg has_constant_size_arg : bool) :
  ((fps_arg == 0)%Q ->
   DataVideoClip_init data data_to_frame fps_arg is_mask_arg
     has_constant_size_arg = inl ZeroDivisionError)
  /\ (~ (fps_arg == 0)%Q -> data = [] ->
      DataVideoClip_init data data_to_frame fps_arg is_mask_arg
        has_constant_size_arg = inl IndexError)
  /\ (~ (fps_arg == 0)%Q ->
      forall d0 rest frame0,
        data = d0 :: rest -> data_to_frame d0 = inr frame0 ->
        exists c,
          DataVideoClip_init data data_to_frame fps_arg is_mask_arg
            has_constant_size_arg = inr c
          /\ duration c
             = Some (1 * inject_Z (Z.of_nat (length data)) / fps_arg)%Q
          /\ fps c = Some fps_arg
          /\ size c = Some (shape_size frame0)
          /\ (forall t d, (0 <= fps_arg * t)%Q ->
                data !! Z.to_nat (Qfloor (fps_arg * t)) = Some d ->
                get_frame c t = data_to_frame d)
          /\ (forall t,
                (inject_Z (Z.of_nat (length data)) <= fps_arg * t)%Q ->
                get_frame c t = inl IndexError)).
Proof.
  unfold DataVideoClip_init. split; [| split].
  - intros Hz. apply Qeq_bool_iff in Hz. by rewrite Hz.
  - intros Hnz ->.
    destruct (Qeq_bool fps_arg 0) eqn:E; [by apply Qeq_bool_eq in E |].
    simpl. unfold VideoClip_init, get_frame. simpl.
    by rewrite Qtrunc_zero_r.
  - intros Hnz d0 rest frame0 Hdata Hframe0.
    destruct (Qeq_bool fps_arg 0) eqn:E; [by apply Qeq_bool_eq in E |].
    simpl. unfold VideoClip_init, get_frame. simpl.
    rewrite Qtrunc_zero_r.
    assert (py_index data 0 = inr d0) as -> by (by rewrite Hdata).
    simpl. rewrite Hframe0. simpl.
    eexists. split; [reflexivity |]. simpl.
    split; [done |]. split; [done |]. split; [done |]. split.
    + intros t d Hpos Hd. by rewrite (py_index_floor _ _ d).
    + intros t Ht. unfold py_index.
      assert (Z.of_nat (length data) <= Qtrunc (fps_arg * t)) as Hi.
      { rewrite Qtrunc_floor.
        - rewrite <- (Qfloor_Z (Z.of_nat (length data))).
          by apply Qfloor_resp_le.
        - eapply Qle_trans; [| exact Ht].
          change 0%Q with (inject_Z 0). rewrite <- Zle_Qle. lia. }
      rewrite norm_index_raises; [done |]. right. lia.
Qed.

(** Three datasets, each rendered as one pixel of its value, at two frames
    per second: the clip lasts 3/2, shows the second dataset at time 1/2 and
    has no frame at time 3/2. *)
Lemma X15_DataVideoClip_witness :
  exists c,
    DataVideoClip_init [1%Q; 2%Q; 3%Q] (fun d => inr (ticking_frame d)) 2
      false true = inr c
    /\ duration c = Some (1 * inject_Z 3 / 2)%Q
    /\ get_frame c (1 # 2) = inr (ticking_frame 2)
    /\ get_frame c (3 # 2) = inl IndexError.
Proof.
  destruct (X15_DataVideoClip [1%Q; 2%Q; 3%Q]
              (fun d => inr (ticking_frame d)) 2 false true)
    as (_ & _ & Hbuilt).
  destruct (Hbuilt ltac:(done) 1%Q [2%Q; 3%Q] (ticking_frame 1) eq_refl
              eq_refl)
    as (c & Hc & Hd & _ & _ & Hframes & Hout).
  exists c. split; [exact Hc |]. split; [exact Hd |]. split.
  - apply (Hframes (1 # 2)%Q 2%Q); done.
  - apply Hout. done.
Defined.

(** *** UpdatedVideoClip *)

Section WorldFacts.

Variable world : Type.
Variable clip_t : world -> Q.
Variable update : world -> world.
Variable to_frame : world -> ndarray.

Lemma advance_reached (fuel : nat) (w : world) (t : Q) :
  (t <= clip_t w)%Q -> advance world clip_t update fuel w t = Some w.
Proof.
  intros Ht. destruct fuel; simpl;
    (destruct (Qlt_le_dec (clip_t w) t) as [Hlt | _]; [| done]);
    exfalso; eapply Qlt_irrefl, Qlt_le_trans; eauto.
Qed.

Lemma advance_inv (fuel : nat) : forall (w w' : world) (t : Q),
  advance world clip_t update fuel w t = Some w' ->
  exists k : nat,
    (k <= fuel)%nat
    /\ w' = Nat.iter k update w
    /\ (t <= clip_t w')%Q
    /\ forall j : nat, (j < k)%nat -> (clip_t (Nat.iter j update w) < t)%Q.
Proof.
  induction fuel as [|fuel IH]; intros w w' t; simpl.
  - destruct (Qlt_le_dec (clip_t w) t) as [Hlt | Hle]; [done |].
    intros [= <-]. exists 0%nat.
    split; [done |]. split; [done |]. split; [done |]. intros j Hj. lia.
  - destruct (Qlt_le_dec (clip_t w) t) as [Hlt | Hle].
    + intros (k & Hk & -> & Hreached & Hbefore)%IH.
      exists (S k). split; [lia |]. split; [by rewrite Nat.iter_succ_r |].
      split; [done |].
      intros [|j] Hj; [done |]. rewrite Nat.iter_succ_r. apply Hbefore. lia.
    + intros [= <-]. exists 0%nat.
      split; [lia |]. split; [done |]. split; [done |]. intros j Hj. lia.
Qed.

Lemma advance_enough (dt : Q) :
  (0 < dt)%Q ->
  (forall w, clip_t w + dt <= clip_t (update w))%Q ->
  forall (fuel : nat) (w : world) (t : Q),
    (t - clip_t w <= inject_Z (Z.of_nat fuel) * dt)%Q ->
    exists w', advance world clip_t update fuel w t = Some w'.
Proof.
  intros Hdt Hstep. induction fuel as [|fuel IH]; intros w t Hfuel; simpl.
  - destruct (Qlt_le_dec (clip_t w) t) as [Hlt | Hle]; [| by eexists].
    exfalso. change (inject_Z (Z.of_nat 0)) with 0%Q in Hfuel. lra.
  - destruct (Qlt_le_dec (clip_t w) t) as [Hlt | Hle]; [| by eexists].
    apply IH. specialize (Hstep w).
    assert (inject_Z (Z.of_nat (S fuel)) * dt
            == inject_Z (Z.of_nat fuel) * dt + dt)%Q as Hmul.
    { rewrite Nat2Z.inj_succ. unfold Z.succ. rewrite inject_Z_plus. ring. }
    rewrite Hmul in Hfuel.
    set (P := (inject_Z (Z.of_nat fuel) * dt)%Q) in *. clearbody P. lra.
Qed.

(** X16. The frame function of an [UpdatedVideoClip]. When it returns it has
    printed [t], stepped the world some [k] times, [k] being the least
    number of steps after which the world's clock is at [t] or later, and
    rendered the world it leaves. A world whose clock is already at [t] or
    later is left as it is, so the clip never goes back in time. And if
    each step advances the clock by at least [dt > 0], the loop ends within
    [(t - clip_t) / dt] steps. *)
Theorem X16_UpdatedVideoClip_make_frame :
  (forall fuel w t p frame w',
     updated_make_frame world clip_t update to_frame fuel w t
     = Some (p, frame, w') ->
     p = t /\ frame = to_frame w' /\ (t <= clip_t w')%Q
     /\ exists k : nat,
          w' = Nat.iter k update w
          /\ forall j : nat,
               (j < k)%nat -> (clip_t (Nat.iter j update w) < t)%Q)
  /\ (forall fuel w t,
        (t <= clip_t w)%Q ->
        updated_make_frame world clip_t update to_frame fuel w t
        = Some (t, to_frame w, w))
  /\ (forall dt fuel w t,
        (0 < dt)%Q ->
        (forall w, clip_t w + dt <= clip_t (update w))%Q ->
        (t - clip_t w <= inject_Z (Z.of_nat fuel) * dt)%Q ->
        exists w',
          updated_make_frame world clip_t update to_frame fuel w t
          = Some (t, to_frame w', w')).
Proof.
  unfold updated_make_frame. split; [| split].
  - intros fuel w t p frame w' H.
    destruct (advance world clip_t update fuel w t) as [w'' |] eqn:Hadv;
      [| done].
    simpl in H. injection H as <- <- <-.
    apply advance_inv in Hadv as (k & _ & -> & Hreached & Hbefore).
    split; [done |]. split; [done |]. split; [done |]. by exists k.
  - intros fuel w t Ht. by rewrite advance_reached.
  - intros dt fuel w t Hdt Hstep Hfuel.
    destruct (advance_enough dt Hdt Hstep fuel w t Hfuel) as [w' ->].
    by exists w'.
Qed.

End WorldFacts.

(** The counting world from 0 asked for time 1: two steps of one half, and
    then a request for time 1/2 shows the world still at 1. *)
Lemma X16_UpdatedVideoClip_make_frame_witness :
  updated_make_frame Q id tick ticking_frame 2 0%Q 1
  = Some (1%Q, ticking_frame (tick (tick 0)), tick (tick 0))
  /\ updated_make_frame Q id tick ticking_frame 0 (tick (tick 0)) (1 # 2)
     = Some ((1 # 2)%Q, ticking_frame (tick (tick 0)), tick (tick 0)).
Proof.
  destruct (X16_UpdatedVideoClip_make_frame Q id tick ticking_frame)
    as (Hret & Hkeep & Hends).
  split.
  - destruct (Hends (1 # 2)%Q 2%nat 0%Q 1%Q) as [w' Hw'].
    + reflexivity.
    + intros w. unfold tick, id. apply Qle_refl.
    + vm_compute. discriminate.
    + assert (w' = tick (tick 0)) as <-; [| exact Hw'].
      destruct (Hret _ _ _ _ _ _ Hw') as (_ & _ & _ & k & Hk & _).
      vm_compute in Hw'. injection Hw' as _ Hw. exact (eq_sym Hw).
  - apply Hkeep. vm_compute. discriminate.
Defined.

(** *** fill_array *)

Lemma slice_stop_shrink (n stop : Z) :
  0 <= stop -> stop <= n -> slice_stop n stop = stop.
Proof.
  intros H0 Hn. unfold slice_stop. destruct (Z.ltb_spec stop 0); lia.
Qed.

(** X19. [fill_array] brings a colour picture to the shape asked for, rows
    first: for a picture of positive height and width with three channels
    and a shape (rows, columns) without negative entry, not asking at once
    for no row and for more columns, the result has exactly that shape; its
    cells are those of the picture where the picture has some and 1
    elsewhere. A two-dimensional array, a mask frame, can only be cropped:
    asking for more rows or more columns raises [ValueError]. *)
Theorem X19_fill_array (h w : Z) (rows cols : Z) :
  0 < h -> 0 < w ->
  (forall cell,
     0 <= rows -> 0 <= cols -> 0 < rows \/ cols <= w ->
     exists cell',
       fill_array (Arr3 h w 3 cell) (rows, cols) = inr (Arr3 rows cols 3 cell')
       /\ forall y x k,
            0 <= y < rows -> 0 <= x < cols ->
            cell' y x k
            = if (y <? h) && (x <? w) then cell y x k else 1%Q)
  /\ (forall cell,
        h < rows \/ w < cols ->
        raised (fill_array (Arr2 h w cell) (rows, cols)))
  /\ (forall cell,
        0 <= rows <= h -> 0 <= cols <= w ->
        fill_array (Arr2 h w cell) (rows, cols) = inr (Arr2 rows cols cell)).
Proof.
  intros Hh Hw. unfold fill_array. simpl. split; [| split].
  - intros cell Hrows Hcols Hsome.
    destruct (Z.ltb_spec (rows - h) 0) as [Hdx | Hdx];
      [| destruct (Z.ltb_spec 0 (rows - h)) as [Hdx' | Hdx']]; simpl.
    + rewrite slice_stop_shrink by lia.
      destruct (Z.ltb_spec (cols - w) 0) as [Hdy | Hdy];
        [| destruct (Z.ltb_spec 0 (cols - w)) as [Hdy' | Hdy']]; simpl.
      * rewrite slice_stop_shrink by lia. eexists. split; [reflexivity |].
        intros y x k Hy Hx.
        destruct (Z.ltb_spec y h), (Z.ltb_spec x w); simpl; (done || lia).
      * destruct (Z.ltb_spec 0 rows); [| lia]. simpl.
        replace (w + (cols - w)) with cols by lia.
        eexists. split; [reflexivity |]. intros y x k Hy Hx. simpl.
        destruct (Z.ltb_spec y h), (Z.ltb_spec x w); simpl; (done || lia).
      * replace w with cols by lia. eexists. split; [reflexivity |].
        intros y x k Hy Hx.
        destruct (Z.ltb_spec y h), (Z.ltb_spec x cols); simpl; (done || lia).
    + destruct (Z.ltb_spec 0 w); [| lia]. simpl.
      replace (h + (rows - h)) with rows by lia.
      destruct (Z.ltb_spec (cols - w) 0) as [Hdy | Hdy];
        [| destruct (Z.ltb_spec 0 (cols - w)) as [Hdy' | Hdy']]; simpl.
      * rewrite slice_stop_shrink by lia. eexists. split; [reflexivity |].
        intros y x k Hy Hx. simpl.
        destruct (Z.ltb_spec y h), (Z.ltb_spec x w); simpl; (done || lia).
      * destruct (Z.ltb_spec 0 rows); [| lia]. simpl.
        replace (w + (cols - w)) with cols by lia.
        eexists. split; [reflexivity |]. intros y x k Hy Hx. simpl.
        destruct (Z.ltb_spec y h), (Z.ltb_spec x w); simpl; (done || lia).
      * replace w with cols by lia. eexists. split; [reflexivity |].
        intros y x k Hy Hx. simpl.
        destruct (Z.ltb_spec y h), (Z.ltb_spec x cols); simpl; (done || lia).
    + replace h with rows by lia.
      destruct (Z.ltb_spec (cols - w) 0) as [Hdy | Hdy];
        [| destruct (Z.ltb_spec 0 (cols - w)) as [Hdy' | Hdy']]; simpl.
      * rewrite slice_stop_shrink by lia. eexists. split; [reflexivity |].
        intros y x k Hy Hx.
        destruct (Z.ltb_spec y rows), (Z.ltb_spec x w); simpl; (done || lia).
      * destruct (Z.ltb_spec 0 rows); [| lia]. simpl.
        replace (w + (cols - w)) with cols by lia.
        eexists. split; [reflexivity |]. intros y x k Hy Hx. simpl.
        destruct (Z.ltb_spec y rows), (Z.ltb_spec x w); simpl; (done || lia).
      * replace w with cols by lia. eexists. split; [reflexivity |].
        intros y x k Hy Hx.
        destruct (Z.ltb_spec y rows), (Z.ltb_spec x cols); simpl;
          (done || lia).
  - intros cell Hmore.
    destruct (Z.ltb_spec (rows - h) 0) as [Hdx | Hdx];
      [| destruct (Z.ltb_spec 0 (rows - h)) as [Hdx' | Hdx']]; simpl.
    + destruct (Z.ltb_spec (cols - w) 0); [lia |].
      destruct (Z.ltb_spec 0 (cols - w)); [| lia]. by eexists.
    + destruct (Z.ltb_spec 0 w); [| lia]. by eexists.
    + destruct (Z.ltb_spec (cols - w) 0); [lia |].
      destruct (Z.ltb_spec 0 (cols - w)); [| lia]. by eexists.
  - intros cell Hrows Hcols.
    destruct (Z.ltb_spec (rows - h) 0) as [Hdx | Hdx];
      [| destruct (Z.ltb_spec 0 (rows - h)) as [Hdx' | Hdx']]; simpl;
      try lia.
    + rewrite slice_stop_shrink by lia.
      destruct (Z.ltb_spec (cols - w) 0) as [Hdy | Hdy];
        [| destruct (Z.ltb_spec 0 (cols - w)) as [Hdy' | Hdy']]; simpl;
        try lia.
      * by rewrite slice_stop_shrink by lia.
      * by replace w with cols by lia.
    + replace h with rows by lia.
      destruct (Z.ltb_spec (cols - w) 0) as [Hdy | Hdy];
        [| destruct (Z.ltb_spec 0 (cols - w)) as [Hdy' | Hdy']]; simpl;
        try lia.
      * by rewrite slice_stop_shrink by lia.
      * by replace w with cols by lia.
Qed.

(** The red picture, two wide and one high, brought to two rows of three:
    red where it was, ones in the new column and the new row. *)
Lemma X19_fill_array_witness :
  exists cell',
    fill_array red (2, 3) = inr (Arr3 2 3 3 cell')
    /\ cell' 0 1 0 = 255%Q /\ cell' 0 2 0 = 1%Q /\ cell' 1 0 0 = 1%Q.
Proof.
  destruct (proj1 (X19_fill_array 1 2 2 3 ltac:(lia) ltac:(lia))
              (fun _ _ k => if k =? 0 then 255%Q else 0%Q))
    as (cell' & Hfill & Hcells); [lia | lia | lia |].
  exists cell'. split; [exact Hfill |].
  split; [| split]; rewrite Hcells by lia; reflexivity.
Defined.

(** *** ImageClip *)

Lemma channel_shape (pic a : ndarray) (canal : Z) :
  channel pic canal = inr a -> shape_size a = shape_size pic.
Proof.
  destruct pic as [h w cell | h w c cell]; simpl; [done |].
  by intros (k & _ & [= <-])%bind_inr_inv.
Qed.

Lemma map_cells_shape (f : Q -> Q) (a : ndarray) :
  shape_size (map_cells f a) = shape_size a.
Proof. by destruct a. Qed.

Lemma channel_found (h w c : Z) (cell : Z -> Z -> Z -> Q) (canal : Z) :
  0 <= canal < c ->
  channel (Arr3 h w c cell) canal
  = inr (Arr2 h w (fun y x => cell y x canal)).
Proof. intros Hc. simpl. by rewrite norm_index_in_range. Qed.

(** X20. An [ImageClip] made from an array that has at least one channel
    when it is three-dimensional: the constructor returns; the clip shows
    one and the same frame at all times, kept as [img]; its size is the
    width and height of the array given, whatever conversion was applied;
    and it carries a mask exactly when the array has four channels and the
    clip is built with [transparent] and neither [fromalpha] nor [is_mask].
    That mask is a mask clip of the same size whose constant frame is the
    fourth channel divided by 255. *)
Theorem X20_ImageClip_init (k : cls) (img_arg : ndarray)
    (is_mask_arg transparent fromalpha : bool) (duration_arg : option Q) :
  match img_arg with
  | Arr3 _ _ c _ => 0 < c
  | Arr2 _ _ _ => True
  end ->
  exists c frame,
    ImageClip_init k img_arg is_mask_arg transparent fromalpha duration_arg
    = inr c
    /\ (forall t, get_frame c t = inr frame)
    /\ img c = Some frame
    /\ shape_size frame = shape_size img_arg
    /\ size c = Some (shape_size img_arg)
    /\ is_mask c = is_mask_arg
    /\ duration c = duration_arg
    /\ match mask c with
       | Some m =>
           (exists h w cell, img_arg = Arr3 h w 4 cell)
           /\ fromalpha = false /\ is_mask_arg = false /\ transparent = true
           /\ is_mask m = true
           /\ size m = Some (shape_size img_arg)
           /\ exists a,
                channel img_arg 3 = inr a
                /\ forall t, get_frame m t = inr (normalize a)
       | None =>
           ~ ((exists h w cell, img_arg = Arr3 h w 4 cell)
              /\ fromalpha = false /\ is_mask_arg = false
              /\ transparent = true)
       end.
Proof.
  intros Hc. unfold ImageClip_init, VideoClip_init. simpl.
  destruct img_arg as [h w cell | h w c cell]; simpl.
  - eexists _, _. split; [reflexivity |]. simpl.
    split; [done |]. split; [done |]. split; [done |].
    split; [by destruct duration_arg |].
    split; [by destruct duration_arg |].
    split; [by destruct duration_arg |].
    destruct duration_arg; simpl; by intros [(? & ? & ? & ?) _].
  - destruct (Z.eqb_spec c 4) as [-> | Hc4].
    + destruct fromalpha; [| destruct is_mask_arg; [| destruct transparent]];
        simpl.
      * eexists _, _. split; [reflexivity |]. simpl.
        split; [done |]. split; [done |]. split; [done |].
        split; [by destruct duration_arg |].
        split; [by destruct duration_arg |].
        split; [by destruct duration_arg |].
        destruct duration_arg; simpl; by intros (_ & ? & _).
      * eexists _, _. split; [reflexivity |]. simpl.
        split; [done |]. split; [done |]. split; [done |].
        split; [by destruct duration_arg |].
        split; [by destruct duration_arg |].
        split; [by destruct duration_arg |].
        destruct duration_arg; simpl; by intros (_ & _ & ? & _).
      * eexists _, _. split; [reflexivity |]. simpl.
        split; [done |]. split; [done |]. split; [done |].
        split; [by destruct duration_arg |].
        split; [by destruct duration_arg |].
        split; [by destruct duration_arg |].
        destruct duration_arg; simpl.
        -- split; [by eexists _, _, _ |].
           split; [done |]. split; [done |]. split; [done |].
           split; [done |]. split; [done |].
           eexists. split; [reflexivity |]. done.
        -- split; [by eexists _, _, _ |].
           split; [done |]. split; [done |]. split; [done |].
           split; [done |]. split; [done |].
           eexists. split; [reflexivity |]. done.
      * eexists _, _. split; [reflexivity |]. simpl.
        split; [done |]. split; [done |]. split; [done |].
        split; [by destruct duration_arg |].
        split; [by destruct duration_arg |].
        split; [by destruct duration_arg |].
        destruct duration_arg; simpl; by intros (_ & _ & _ & ?).
    + destruct is_mask_arg; simpl.
      * rewrite norm_index_in_range by lia. simpl.
        eexists _, _. split; [reflexivity |]. simpl.
        split; [done |]. split; [done |]. split; [done |].
        split; [by destruct duration_arg |].
        split; [by destruct duration_arg |].
        split; [by destruct duration_arg |].
        destruct duration_arg; simpl; by intros (_ & _ & ? & _).
      * eexists _, _. split; [reflexivity |]. simpl.
        split; [done |]. split; [done |]. split; [done |].
        split; [by destruct duration_arg |].
        split; [by destruct duration_arg |].
        split; [by destruct duration_arg |].
        destruct duration_arg; simpl;
          intros [(h' & w' & cell' & [= _ _ ? _]) _]; done.
Qed.

(** A pixel with an alpha layer of 128: the clip is one pixel wide and high
    and its mask shows 128/255. *)
Lemma X20_ImageClip_init_witness :
  exists c m mf,
    ImageClip_init ImageClipC rgba_pixel false true false None = inr c
    /\ size c = Some (1, 1)
    /\ mask c = Some m
    /\ get_frame m 0 = inr mf
    /\ match mf with
       | Arr2 _ _ cell => (cell 0%Z 0%Z == 128 # 255)%Q
       | Arr3 _ _ _ _ => False
       end.
Proof.
  destruct (X20_ImageClip_init ImageClipC rgba_pixel false true false None)
    as (c & frame & Hc & _ & _ & _ & Hsize & _ & _ & Hmask); [done |].
  vm_compute in Hc. injection Hc as <-. simpl in Hmask.
  destruct Hmask as (_ & _ & _ & _ & _ & _ & a & Ha & Hframes).
  eexists _, _, (normalize a). split; [reflexivity |].
  split; [exact Hsize |]. split; [reflexivity |].
  split; [exact (Hframes 0%Q) |].
  vm_compute in Ha. injection Ha as <-. reflexivity.
Defined.

(** *** save_frame *)

Lemma times255_cell (a : ndarray) (y x k : Z) :
  cell_of (times255 a) y x k = (255 * cell_of a y x k)%Q.
Proof. by destruct a. Qed.

(** X21. What [save_frame] hands to [imsave]. Without a mask, or with
    [with_mask] false, it is the frame cast to 8 bits. With a mask whose
    frame has the height and width of the clip's frame, it is the frame
    followed by the channels of the mask frame, one alpha layer for a
    two-dimensional mask frame, holding 255 times the mask, all cast to 8
    bits. With a mask frame of another height or width it raises
    [ValueError]: sizes are not reconciled here. *)
Theorem X21_save_frame (self : clip) (filename : string) (t : Q)
    (frame : ndarray) :
  get_frame self t = inr frame ->
  save_frame self filename t false = inr (filename, astype_uint8 frame)
  /\ (mask self = None ->
      save_frame self filename t true = inr (filename, astype_uint8 frame))
  /\ (forall m mask_frame,
        mask self = Some m -> get_frame m t = inr mask_frame ->
        (shape01 frame = shape01 mask_frame ->
         exists cell,
           save_frame self filename t true
           = inr (filename,
                  Arr3 (shape01 frame).1 (shape01 frame).2
                    (depth frame + depth mask_frame) cell)
           /\ forall y x k,
                cell y x k
                = if k <? depth frame then uint8 (cell_of frame y x k)
                  else uint8 (255 * cell_of mask_frame y x (k - depth frame)))
        /\ (shape01 frame <> shape01 mask_frame ->
            save_frame self filename t true
            = inl (ValueError "concatenate"))).
Proof.
  intros Hframe. unfold save_frame. rewrite Hframe. simpl.
  split; [done |]. split; [by intros -> |].
  intros m mask_frame -> Hmask. rewrite Hmask. simpl.
  assert (shape01 (times255 mask_frame) = shape01 mask_frame) as Hs
    by (by destruct mask_frame).
  assert (depth (times255 mask_frame) = depth mask_frame) as Hd
    by (by destruct mask_frame).
  unfold dstack2. rewrite Hs, Hd. split.
  - intros Hsame. rewrite bool_decide_eq_true_2 by done. simpl.
    eexists. split; [reflexivity |]. intros y x k. simpl.
    destruct (k <? depth frame); [done |]. by rewrite times255_cell.
  - intros Hdiff. by rewrite bool_decide_eq_false_2 by done.
Qed.

(** The red picture under an opaque mask of its size is saved with four
    channels, the fourth at 255. *)
Lemma X21_save_frame_witness :
  exists cell,
    save_frame masked_red "frame.png" 0 true
    = inr ("frame.png", Arr3 1 2 4 cell)
    /\ cell 0 1 0 = 255%Q /\ cell 0 1 3 = 255%Q.
Proof.
  destruct (X21_save_frame masked_red "frame.png" 0%Q red eq_refl)
    as (_ & _ & Hmask).
  destruct (Hmask (set_is_mask true (still (Arr2 1 2 (fun _ _ => 1%Q))))
              (Arr2 1 2 (fun _ _ => 1%Q)) eq_refl eq_refl) as [Hsame _].
  destruct (Hsame eq_refl) as (cell & Hsave & Hcells).
  exists cell. split; [exact Hsave |].
  split; rewrite Hcells; reflexivity.
Defined.

End ClipsFacts.

(** * Properties of the constructors *)

Module ConstructionFacts.
Import Layout Clips Construction.

Lemma not_early_render {A : Type} (m : traced A) :
  RenderWork ∈ m.1 -> ~ raised_early m.
Proof. intros Hin (_ & _ & Hout). done. Qed.

Lemma early_intro {A : Type} (m : traced A) (e : error) :
  m.2 = inl e -> LayoutWork ∉ m.1 -> RenderWork ∉ m.1 -> raised_early m.
Proof. intros He H1 H2. split; [by exists e | done]. Qed.

(** [ColorClip.__init__] raises before any rendering exactly on the colours
    its three guards reject. *)
Lemma ColorClip_init_raises (size_arg : Z * Z) (color : option pyval)
    (is_mask_arg : bool) (duration_arg : option Q) :
  raised_early (ColorClip_init size_arg color is_mask_arg duration_arg)
  <-> color_invalid color is_mask_arg.
Proof.
  destruct size_arg as [w h]. unfold ColorClip_init, color_invalid.
  destruct is_mask_arg, color as [[q | s | l] |]; simpl.
  all: split; [intros Hr | intros Hi].
  all: try (exfalso; revert Hr; apply not_early_render; simpl; set_solver).
  all: try (destruct Hi as [[? ?] | [? [? | ?]]]; done).
  all: try (eapply early_intro; simpl; [reflexivity | set_solver ..]).
  all: try tauto.
  all: try (left; done).
  all: try (right; split; [done |]; (by left) || (by right)).
Qed.

(** *** Sequencing and early raises *)

Lemma raised_early_bind {A B : Type} (m : traced A) (f : A -> traced B) :
  raised_early (m ≫= f)
  <-> raised_early m
      \/ exists a, m.2 = inr a /\ (LayoutWork ∉ m.1) /\ (RenderWork ∉ m.1)
                   /\ raised_early (f a).
Proof.
  destruct m as [log [e | a]]; unfold mbind, traced_bind, raised_early; simpl.
  - split.
    + intros [_ H]. left. split; [by exists e | done].
    + intros [[_ H] | (a & Ha & _)]; [| discriminate Ha].
      split; [by exists e | done].
  - rewrite !not_elem_of_app. split.
    + intros (Hr & [H1 H2] & [H3 H4]). right. by exists a.
    + intros [[[e He] _] | (a' & [= <-] & H1 & H2 & Hr & H3 & H4)]; [done |].
      done.
Qed.

Lemma early_throw {A : Type} (e : error) : raised_early (throw e : traced A).
Proof. eapply early_intro; [reflexivity | apply not_elem_of_nil ..]. Qed.

Lemma not_early_returned {A : Type} (m : traced A) (a : A) :
  m.2 = inr a -> ~ raised_early m.
Proof. intros Ha [[e He] _]. congruence. Qed.

Lemma early_after_quiet {A B : Type} (m : traced A) (f : A -> traced B)
    (a : A) :
  m.2 = inr a -> LayoutWork ∉ m.1 -> RenderWork ∉ m.1 ->
  raised_early (m ≫= f) <-> raised_early (f a).
Proof.
  intros Ha H1 H2. rewrite raised_early_bind. split.
  - intros [Hm | (a' & Ha' & _ & _ & Hr)].
    + by apply (not_early_returned m a) in Hm.
    + congruence.
  - intros Hr. right. by exists a.
Qed.

Lemma not_early_layout {A : Type} (m : traced A) :
  LayoutWork ∈ m.1 -> ~ raised_early m.
Proof. intros Hin (_ & Hout & _). done. Qed.

Lemma mret_bind_traced {A B : Type} (x : A) (f : A -> traced B) :
  mret x ≫= f = f x.
Proof.
  unfold mbind, traced_bind, mret, traced_ret. simpl. by destruct (f x).
Qed.

Lemma tell_bind_log {B : Type} (e : event) (f : unit -> traced B) :
  e ∈ (tell e ≫= f).1.
Proof. unfold mbind, traced_bind. simpl. by left. Qed.

Lemma bind_log_l {A B : Type} (m : traced A) (f : A -> traced B) (e : event) :
  e ∈ m.1 -> e ∈ (m ≫= f).1.
Proof.
  destruct m as [log [err | a]]; unfold mbind, traced_bind; simpl; [done |].
  intros H. apply elem_of_app. by left.
Qed.

Lemma early_before_loud {A B : Type} (m : traced A) (f : A -> traced B) :
  (forall a, ~ raised_early (f a)) ->
  raised_early (m ≫= f) <-> raised_early m.
Proof.
  intros Hf. rewrite raised_early_bind. split; [| by left].
  intros [Hm | (a & _ & _ & _ & Hr)]; [done | by apply Hf in Hr].
Qed.

Section WithBoundaries.

Variable bb : style -> Z -> option string -> string -> bbox.
Variable truetype_ok : string -> bool.
Variable read_file : string -> result string.
Variable draw : drawing -> result ndarray.

Lemma measured_size_log (text : string) (st : style) (font_size : Z)
    (max_width : option Z) (allow_break : bool) :
  LayoutWork ∈ (measured_size bb text st font_size max_width allow_break).1.
Proof. apply tell_bind_log. Qed.

Lemma wrapped_lines_log (width : Z) (text : string) (st : style)
    (font_size : Z) :
  LayoutWork ∈ (wrapped_lines bb width text st font_size).1.
Proof. apply tell_bind_log. Qed.

(** The sizes block raises, before any layout, exactly on the rejected
    combinations; otherwise it returns, or raises once a layout helper has
    been entered. *)
Lemma compute_sizes_raises (st : style) (a : text_args) (text : string) :
  raised_early (compute_sizes bb st a text) <-> sizes_invalid a.
Proof.
  unfold compute_sizes, sizes_invalid.
  destruct (ta_size a) as [[w |] [h |]],
    (String.eqb_spec (ta_method a) "caption") as [Hc | Hc],
    (String.eqb_spec (ta_method a) "label") as [Hl | Hl],
    (ta_font_size a) as [fs |]; cbn [fst snd bool_decide andb].
  all: try (rewrite Hc in Hl; discriminate Hl).
  all: rewrite ?mret_bind_traced.
  all: split; [intros Hr | intros Hi].
  all: try apply early_throw.
  all: try (exfalso; revert Hr; eapply not_early_returned; reflexivity).
  all: try (exfalso; revert Hr; apply not_early_layout;
            first [ apply tell_bind_log
                  | apply bind_log_l;
                    first [ apply measured_size_log
                          | apply wrapped_lines_log
                          | apply tell_bind_log
                          | apply bind_log_l, measured_size_log ] ]).
  all: try (destruct Hi as [[? ?] | [[? [? ?]] | [[? [? ?]] | [? ?]]]];
            congruence).
  all: try (left; done).
  all: try (right; left; done).
  all: try (right; right; left; done).
  all: try (right; right; right; done).
Qed.

Lemma trace_image_not_early (st : style) (a : text_args)
    (sizes : string * Z * Z * Z) :
  ~ raised_early (trace_image bb draw st a sizes).
Proof.
  destruct sizes as [[[text font_size] img_width] img_height].
  apply not_early_render. unfold trace_image.
  unfold mbind at 1, traced_bind at 1. simpl. by left.
Qed.

(** [TextClip.__init__] raises before any layout or rendering exactly on
    the arguments its guards reject, the named file being readable. *)
Lemma TextClip_init_raises (a : text_args) :
  file_readable read_file a ->
  raised_early (TextClip_init bb truetype_ok read_file draw a)
  <-> text_invalid truetype_ok a.
Proof.
  intros Hfile. unfold TextClip_init, text_invalid.
  rewrite (early_after_quiet (tell FontProbe) _ tt);
    [| done | by intros [= ]%list_elem_of_singleton ..].
  destruct (truetype_ok (ta_font a)) eqn:Hfont.
  2: { split; [by left |]. intros _.
       rewrite raised_early_bind. left. apply early_throw. }
  rewrite (early_after_quiet (mret tt) _ tt);
    [| done | apply not_elem_of_nil ..].
  assert (exists text : option string,
             (read_text read_file a).2 = inr text
             /\ (LayoutWork ∉ (read_text read_file a).1)
             /\ (RenderWork ∉ (read_text read_file a).1)
             /\ (text = None <-> ta_text a = None
                                 /\ given (ta_filename a) = false))
    as (text & Htext & H1 & H2 & Hnone).
  { unfold read_text, file_readable in *.
    destruct (given (ta_filename a)) eqn:Hgiven.
    - destruct (Hfile eq_refl) as [content Hcontent]. rewrite Hcontent.
      exists (Some (rstrip content)). simpl.
      split; [done |].
      split; [by intros [= ]%list_elem_of_singleton |].
      split; [by intros [= ]%list_elem_of_singleton |].
      split; [done | by intros [_ ?]].
    - exists (ta_text a). simpl.
      split; [done |]. split; [apply not_elem_of_nil |].
      split; [apply not_elem_of_nil |]. split; [done | by intros [? _]]. }
  rewrite (early_after_quiet (read_text read_file a) _ text) by done.
  destruct text as [text |].
  - rewrite early_before_loud by apply trace_image_not_early.
    rewrite compute_sizes_raises. split; [by right; right |].
    intros [? | [Hn | ?]]; [done | | done].
    apply Hnone in Hn. done.
  - split; [| intros _; apply early_throw].
    intros _. right. left. by apply Hnone.
Qed.

End WithBoundaries.

(** *** The checked claim *)

(** C8 (as amended). [ColorClip] raises before any rendering exactly when
    the colour is given and is not a scalar for a mask, or, for a clip that
    is not a mask, cannot be indexed (a bare number) or is a string.
    [TextClip], the file it may name being readable, raises before any
    layout or rendering exactly when the font is invalid, neither text nor
    file name is given, the width is missing for a caption, height and font
    size are both missing for a caption, font size and width are both
    missing for a label, or the method is neither of the two. *)
Theorem C8_construction_errors_amended :
  (forall (size_arg : Z * Z) (color : option pyval) (is_mask_arg : bool)
          (duration_arg : option Q),
      raised_early (ColorClip_init size_arg color is_mask_arg duration_arg)
      <-> color_invalid color is_mask_arg)
  /\ (forall (bb : style -> Z -> option string -> string -> bbox)
             (truetype_ok : string -> bool)
             (read_file : string -> result string)
             (draw : drawing -> result ndarray) (a : text_args),
        file_readable read_file a ->
        raised_early (TextClip_init bb truetype_ok read_file draw a)
        <-> text_invalid truetype_ok a).
Proof.
  split.
  - apply ColorClip_init_raises.
  - apply TextClip_init_raises.
Qed.

Lemma C8_construction_errors_amended_witness :
  raised_early (TextClip_init mono_textbbox only_mono no_file blank
                  (hello "banner"))
  /\ ~ raised_early (TextClip_init mono_textbbox only_mono no_file blank
                       (hello "caption")).
Proof.
  split.
  - apply (proj2 C8_construction_errors_amended mono_textbbox only_mono
             no_file blank (hello "banner")); [by intros [=] |].
    right. right. right. right. right. by split.
  - intros Hr.
    apply (proj2 C8_construction_errors_amended mono_textbbox only_mono
             no_file blank (hello "caption")) in Hr; [| by intros [=]].
    destruct Hr as [H | [[H _] | [[_ H] | [(_ & _ & H) | [[H _] | [H _]]]]]];
      done.
Defined.

(** C8 (as stated) fails: a bare number as the colour of a clip that is not
    a mask is rejected at once, and it is neither a non-scalar colour of a
    mask nor a string. *)
Lemma C8_construction_errors_counterexample :
  ~ (raised_early (ColorClip_init (10, 10) (Some (PyNum 5)) false None)
     <-> color_invalid_as_stated (Some (PyNum 5)) false).
Proof.
  intros [Hto _].
  destruct Hto as [[_ H] | [_ H]]; [| done | done].
  apply early_throw.
Qed.

(** *** Further properties of the constructors *)

Lemma trace_image_drawing
    (bb : style -> Z -> option string -> string -> bbox)
    (draw : drawing -> result ndarray) (st : style) (a : text_args)
    (sizes : string * Z * Z * Z) :
  trace_image bb draw st a sizes
  = (_ ← tell RenderWork;
     _ ← lift (open_font sizes.1.1.2);
     img_numpy ← lift (draw (drawing_of bb st a sizes));
     self ← lift (ImageClip_init TextClipC img_numpy false (ta_transparent a)
                    false (ta_duration a));
     mret (TextClip self sizes.1.1.1 (ta_color a) (ta_stroke_color a))).
Proof. by destruct sizes as [[[text font_size] img_width] img_height]. Qed.

Lemma bind_returned {A B : Type} (m : traced A) (f : A -> traced B)
    (log : list event) (a : A) :
  m = (log, inr a) -> m ≫= f = (log ++ (f a).1, (f a).2).
Proof. by intros ->. Qed.

Lemma open_font_positive (font_size : Z) :
  0 < font_size -> open_font font_size = inr tt.
Proof.
  intros Hfs. unfold open_font. by destruct (Z.leb_spec font_size 0); [lia |].
Qed.

Lemma open_font_refused (font_size : Z) :
  font_size <= 0 -> raised (open_font font_size).
Proof.
  intros Hfs. unfold open_font.
  destruct (Z.leb_spec font_size 0); [by eexists | lia].
Qed.

(** The events and the outcome of tracing the image. *)
Lemma trace_image_outcome
    (bb : style -> Z -> option string -> string -> bbox)
    (draw : drawing -> result ndarray) (st : style) (a : text_args)
    (sizes : string * Z * Z * Z) :
  trace_image bb draw st a sizes
  = ([RenderWork],
     _ ← open_font sizes.1.1.2;
     img_numpy ← draw (drawing_of bb st a sizes);
     self ← ImageClip_init TextClipC img_numpy false (ta_transparent a) false
              (ta_duration a);
     mret (TextClip self sizes.1.1.1 (ta_color a) (ta_stroke_color a))).
Proof.
  rewrite trace_image_drawing.
  unfold mbind, traced_bind, result_bind, lift, tell, mret, traced_ret,
    result_ret. simpl.
  destruct (open_font sizes.1.1.2) as [e | []]; [done |]. simpl.
  destruct (draw (drawing_of bb st a sizes)) as [e | img]; [done |]. simpl.
  by destruct (ImageClip_init TextClipC img false (ta_transparent a) false
                 (ta_duration a)).
Qed.

(** X4. A caption with a width, a font size and no height. With a positive
    font size, the text the clip stores is the text wrapped by [break_text]
    at that width and size, joined with line breaks, and the height of the
    image is the height Pillow measures for exactly that stored text; two
    layout steps come before the rendering. With a font size that is not
    positive, the constructor raises when the first layout helper opens the
    font, and nothing is rendered. *)
Theorem X4_caption_height_is_wrapped_height
    (bb : style -> Z -> option string -> string -> bbox)
    (truetype_ok : string -> bool) (read_file : string -> result string)
    (draw : drawing -> result ndarray) (a : text_args)
    (txt : string) (w fs : Z) :
  truetype_ok (ta_font a) = true ->
  given (ta_filename a) = false ->
  ta_text a = Some txt ->
  ta_method a = "caption" ->
  ta_size a = (Some w, None) ->
  ta_font_size a = Some fs ->
  (0 < fs ->
   exists d : drawing,
     TextClip_init bb truetype_ok read_file draw a
     = ([FontProbe; LayoutWork; LayoutWork; RenderWork],
        img_numpy ← draw d;
        self ← ImageClip_init TextClipC img_numpy false (ta_transparent a)
                 false (ta_duration a);
        mret (TextClip self
                (join newline (break_text bb w txt (style_of a) fs))
                (ta_color a) (ta_stroke_color a)))
     /\ dr_text d = join newline (break_text bb w txt (style_of a) fs)
     /\ dr_font_size d = fs
     /\ dr_size d
        = (w, bbox_height (bb (style_of a) fs (Some "lm") (dr_text d))))
  /\ (fs <= 0 ->
      raised (TextClip_init bb truetype_ok read_file draw a).2
      /\ (TextClip_init bb truetype_ok read_file draw a).1
         = [FontProbe; LayoutWork]).
Proof.
  intros Hfont Hfile Htext Hmethod Hsize Hfs. split.
  - intros Hpos.
    set (wrapped := join newline (break_text bb w txt (style_of a) fs)).
    set (h := bbox_height (bb (style_of a) fs (Some "lm") wrapped)).
    exists (drawing_of bb (style_of a) a (wrapped, fs, w, h)).
    split; [| done].
    unfold TextClip_init, read_text. rewrite Hfont, Hfile, Htext.
    fold (style_of a).
    assert (compute_sizes bb (style_of a) a txt
            = ([LayoutWork; LayoutWork], inr (wrapped, fs, w, h))) as Hsizes.
    { unfold compute_sizes, measured_size, wrapped_lines.
      rewrite Hsize, Hmethod, Hfs. unfold mbind, traced_bind, lift. simpl.
      rewrite !(open_font_positive fs Hpos). simpl. repeat f_equal.
      unfold h, bbox_height. fold wrapped.
      by destruct (bb (style_of a) fs (Some "lm") wrapped) as [[[? ?] ?] ?]. }
    rewrite (bind_returned (tell FontProbe) _ [FontProbe] tt eq_refl).
    rewrite (bind_returned (mret tt) _ [] tt eq_refl).
    rewrite (bind_returned (mret (Some txt)) _ [] (Some txt) eq_refl).
    rewrite (bind_returned _ _ _ _ Hsizes), trace_image_outcome.
    simpl. by rewrite (open_font_positive fs Hpos).
  - intros Hneg.
    unfold TextClip_init, read_text. rewrite Hfont, Hfile, Htext.
    fold (style_of a).
    destruct (open_font_refused fs Hneg) as [e He].
    assert (compute_sizes bb (style_of a) a txt = ([LayoutWork], inl e))
      as Hsizes.
    { unfold compute_sizes, measured_size, wrapped_lines.
      rewrite Hsize, Hmethod, Hfs. unfold mbind, traced_bind, lift. simpl.
      by rewrite He. }
    rewrite (bind_returned (tell FontProbe) _ [FontProbe] tt eq_refl).
    rewrite (bind_returned (mret tt) _ [] tt eq_refl).
    rewrite (bind_returned (mret (Some txt)) _ [] (Some txt) eq_refl).
    rewrite Hsizes. split; [by exists e | done].
Qed.

(** The narrow caption at size 3 is wrapped in two lines; at size 0 the
    constructor raises after the font probe and one layout step. *)
Lemma X4_caption_height_is_wrapped_height_witness :
  (exists d,
     (TextClip_init mono_textbbox only_mono no_file blank narrow_hello).1
     = [FontProbe; LayoutWork; LayoutWork; RenderWork]
     /\ dr_text d = "hello" +:+ newline +:+ "world"
     /\ dr_size d = (15, 10))
  /\ raised (TextClip_init mono_textbbox only_mono no_file blank
               sizeless_hello).2
  /\ (TextClip_init mono_textbbox only_mono no_file blank sizeless_hello).1
     = [FontProbe; LayoutWork].
Proof.
  split.
  - destruct (X4_caption_height_is_wrapped_height mono_textbbox only_mono
                no_file blank narrow_hello "hello world" 15 3)
      as [Hpos _]; try reflexivity.
    destruct (Hpos ltac:(lia)) as (d & Hinit & Htext & _ & Hsize).
    exists d. rewrite Hinit. split; [done |].
    split; [by rewrite Htext |]. rewrite Hsize, Htext. reflexivity.
  - destruct (X4_caption_height_is_wrapped_height mono_textbbox only_mono
                no_file blank sizeless_hello "hello world" 15 0)
      as [_ Hneg]; try reflexivity.
    apply Hneg. lia.
Defined.

(** X5. Whatever the alignment arguments (a value that is neither of the
    named ones counts as left, or top), the text block lies inside the
    image when it is no larger than the image: its left edge [x] and its
    right edge are within [0, img_width]; its middle line [y], from which
    the left-middle anchor draws, is half the text height from the top and
    from the bottom edge at least. *)
Theorem X5_text_block_inside_image (a : text_args)
    (img_width img_height text_width text_height : Z) :
  (text_width <= img_width ->
   (0 <= (text_xy a img_width img_height text_width text_height).1
    /\ (text_xy a img_width img_height text_width text_height).1
       + inject_Z text_width <= inject_Z img_width)%Q)
  /\ (text_height <= img_height ->
      (0 <= (text_xy a img_width img_height text_width text_height).2
            - inject_Z text_height / 2
       /\ (text_xy a img_width img_height text_width text_height).2
          + inject_Z text_height / 2 <= inject_Z img_height)%Q).
Proof.
  assert (forall p q : Z, (inject_Z (p - q) == inject_Z p - inject_Z q)%Q)
    as Hsub by (intros p q; unfold Zminus;
                by rewrite inject_Z_plus, inject_Z_opp).
  unfold text_xy. simpl. split.
  - intros Hw. rewrite Zle_Qle in Hw. pose proof (Hsub img_width text_width).
    set (W := inject_Z img_width) in *. set (T := inject_Z text_width) in *.
    set (D := inject_Z (img_width - text_width)) in *.
    assert (D / 2 == D * (1 # 2))%Q by field.
    set (half := (D / 2)%Q) in *. clearbody W T D half.
    destruct (String.eqb _ "right"); [| destruct (String.eqb _ "center")];
      split; lra.
  - intros Hh. rewrite Zle_Qle in Hh.
    pose proof (Hsub img_height text_height).
    set (W := inject_Z img_height) in *. set (T := inject_Z text_height) in *.
    set (D := inject_Z (img_height - text_height)) in *.
    assert (D / 2 == D * (1 # 2))%Q by field.
    assert (T / 2 == T * (1 # 2))%Q by field.
    set (half := (D / 2)%Q) in *. set (mid := (T / 2)%Q) in *.
    clearbody W T D half mid.
    destruct (String.eqb _ "bottom"); [| destruct (String.eqb _ "center")];
      split; lra.
Qed.

Lemma X5_text_block_inside_image_witness :
  (0 <= (text_xy narrow_hello 15 10 10 10).1
   /\ (text_xy narrow_hello 15 10 10 10).1 + inject_Z 10 <= inject_Z 15)%Q.
Proof.
  apply (proj1 (X5_text_block_inside_image narrow_hello 15 10 10 10)). lia.
Defined.

Lemma size_in_range (w h : Z) :
  0 <= w -> 0 <= h -> ((w <? 0) || (h <? 0)) = false.
Proof.
  intros Hw Hh. apply orb_false_iff. split; by apply Z.ltb_ge.
Qed.

(** X6. A [ColorClip] of a size that is not negative shows its colour at
    every pixel and every time. With a colour sequence that has not four
    components, the frames have one channel per component and there is no
    mask; with four components, the frames keep the first three and the
    fourth, divided by 255, becomes a constant mask; a mask clip shows its
    scalar everywhere, and 0 (not 1) when no colour is given. *)
Theorem X6_ColorClip_frames (w h : Z) (d : option Q) :
  0 <= w -> 0 <= h ->
  (forall l : list Q, length l <> 4%nat ->
     exists c,
       (ColorClip_init (w, h) (Some (PySeq l)) false d).2 = inr c
       /\ klass c = ColorClipC /\ size c = Some (w, h) /\ mask c = None
       /\ is_mask c = false /\ duration c = d
       /\ forall t, get_frame c t
                    = inr (Arr3 h w (Z.of_nat (length l))
                             (fun _ _ k => nth (Z.to_nat k) l 0%Q)))
  /\ (forall r g b a : Q,
        exists c m,
          (ColorClip_init (w, h) (Some (PySeq [r; g; b; a])) false d).2
          = inr c
          /\ size c = Some (w, h) /\ mask c = Some m /\ is_mask m = true
          /\ size m = Some (w, h)
          /\ (forall t, get_frame m t
                        = inr (Arr2 h w (fun _ _ => 1 * a / 255)%Q))
          /\ forall t, get_frame c t
                       = inr (Arr3 h w 3
                                (fun _ _ k => nth (Z.to_nat k) [r; g; b; a]
                                                0%Q)))
  /\ (forall color : option Q,
        exists c,
          (ColorClip_init (w, h) (PyNum <$> color) true d).2 = inr c
          /\ size c = Some (w, h) /\ mask c = None /\ is_mask c = true
          /\ forall t, get_frame c t
                       = inr (Arr2 h w (fun _ _ => default 0%Q color)))
  /\ exists c,
       (ColorClip_init (w, h) None false d).2 = inr c
       /\ forall t, get_frame c t
                    = inr (Arr3 h w 3
                             (fun _ _ k => nth (Z.to_nat k) [0; 0; 0]%Q 0%Q)).
Proof.
  intros Hw Hh.
  pose proof (size_in_range w h Hw Hh) as Hrange.
  split; [| split; [| split]].
  - intros l Hl. unfold ColorClip_init.
    unfold mbind, traced_bind, tile. simpl. rewrite Hrange. simpl.
    unfold ImageClip_init, VideoClip_init. simpl.
    assert ((Z.of_nat (length l) =? 4) = false) as -> by (apply Z.eqb_neq; lia).
    destruct d; eexists; (split; [reflexivity |]); simpl; done.
  - intros r g b a. unfold ColorClip_init.
    unfold mbind, traced_bind, tile. simpl. rewrite Hrange.
    destruct d; eexists _, _; (split; [reflexivity |]); simpl; done.
  - intros [q |]; unfold ColorClip_init;
      unfold mbind, traced_bind, tile; simpl; rewrite Hrange;
      destruct d; eexists; (split; [reflexivity |]); simpl; done.
  - unfold ColorClip_init. unfold mbind, traced_bind, tile. simpl.
    rewrite Hrange. destruct d; eexists; (split; [reflexivity |]); done.
Qed.

(** The scenario of the specification: a red clip, 10 by 10, of 5
    seconds. *)
Lemma X6_ColorClip_frames_witness :
  exists c,
    (ColorClip_init (10, 10) (Some (PySeq [255; 0; 0]%Q)) false (Some 5%Q)).2
    = inr c
    /\ size c = Some (10, 10) /\ duration c = Some 5%Q
    /\ forall t, get_frame c t
                 = inr (Arr3 10 10 3
                          (fun _ _ k => nth (Z.to_nat k) [255; 0; 0]%Q 0%Q)).
Proof.
  destruct (X6_ColorClip_frames 10 10 (Some 5%Q) ltac:(lia) ltac:(lia))
    as (Hrgb & _).
  destruct (Hrgb [255; 0; 0]%Q ltac:(done))
    as (c & Hc & _ & Hsize & _ & _ & Hd & Hframes).
  by exists c.
Defined.

(** X7. When a file name is given, [TextClip] takes its text from the file
    and never looks at the [text] argument: any two values of it give the
    same events and the same outcome. *)
Theorem X7_filename_overrides_text
    (bb : style -> Z -> option string -> string -> bbox)
    (truetype_ok : string -> bool) (read_file : string -> result string)
    (draw : drawing -> result ndarray) (a : text_args) (t : option string) :
  given (ta_filename a) = true ->
  TextClip_init bb truetype_ok read_file draw (set_text t a)
  = TextClip_init bb truetype_ok read_file draw a.
Proof.
  intros Hgiven. unfold TextClip_init, read_text.
  change (ta_filename (set_text t a)) with (ta_filename a).
  change (ta_font (set_text t a)) with (ta_font a).
  rewrite Hgiven. reflexivity.
Qed.

Lemma X7_filename_overrides_text_witness :
  TextClip_init mono_textbbox only_mono one_file blank
    (from_file (Some "something else"))
  = TextClip_init mono_textbbox only_mono one_file blank (from_file None).
Proof.
  apply (X7_filename_overrides_text mono_textbbox only_mono one_file blank
           (from_file None) (Some "something else")).
  reflexivity.
Defined.

(** *** with_add_mask *)

Lemma opaque_ColorClip (w h : Z) :
  0 <= w -> 0 <= h ->
  exists c,
    (ColorClip_init (w, h) (Some (PyNum 1)) true None).2 = inr c
    /\ is_mask c = true
    /\ make_frame c = (fun _ => inr (Arr2 h w (fun _ _ => 1%Q))).
Proof.
  intros Hw Hh. pose proof (size_in_range w h Hw Hh) as Hrange.
  unfold ColorClip_init. unfold mbind, traced_bind, tile. simpl.
  rewrite Hrange. eexists. split; [reflexivity |]. done.
Qed.

Section WithDuration.

Variable with_duration : clip -> option Q -> result clip.

(** What is asked of [with_duration]: it returns, and the clip it returns
    has the frames and the mask flag of its source. *)
Hypothesis with_duration_keeps :
  forall m d, exists m',
    with_duration m d = inr m'
    /\ make_frame m' = make_frame m /\ is_mask m' = is_mask m.

(** X22. [with_add_mask] gives the clip a mask of ones, whether it had a
    mask or not, and leaves its frames alone. For a clip of constant size
    (w, h) the mask shows at every time an array of ones of height h and
    width w; for a clip that has no size, having been built without a
    frame function, the call raises [AttributeError]. For a clip whose
    size may change the mask shows, at every time, ones of the height and
    width of the clip's frame of that time, and the call itself fails with
    the error of the frame of time 0, which the mask computes when it is
    built. *)
Theorem X22_with_add_mask (self : clip) :
  (has_constant_size self = true ->
   (size self = None ->
    with_add_mask with_duration self = inl (AttributeError "size"))
   /\ (forall w h,
         size self = Some (w, h) -> 0 <= w -> 0 <= h ->
         exists c m,
           with_add_mask with_duration self = inr c
           /\ make_frame c = make_frame self
           /\ mask c = Some m /\ is_mask m = true
           /\ forall t, get_frame m t = inr (Arr2 h w (fun _ _ => 1%Q))))
  /\ (has_constant_size self = false ->
      (forall e, get_frame self 0 = inl e ->
         with_add_mask with_duration self = inl e)
      /\ (forall frame0,
            get_frame self 0 = inr frame0 ->
            exists c m,
              with_add_mask with_duration self = inr c
              /\ make_frame c = make_frame self
              /\ mask c = Some m /\ is_mask m = true
              /\ forall t frame,
                   get_frame self t = inr frame ->
                   get_frame m t = inr (ones_like frame)
                   /\ shape_size (ones_like frame) = shape_size frame)).
Proof.
  unfold with_add_mask. split; intros ->.
  - split; [by intros -> |].
    intros w h -> Hw Hh.
    destruct (opaque_ColorClip w h Hw Hh) as (mc & -> & Hmask & Hframes).
    simpl.
    destruct (with_duration_keeps mc (duration self))
      as (m & -> & Hmf & Him).
    simpl. unfold with_mask. rewrite Him, Hmask, ClipsFacts.copy_id.
    eexists _, m. split; [reflexivity |].
    split; [by destruct self |]. split; [by destruct self |].
    split; [congruence |].
    intros t. unfold get_frame. by rewrite Hmf, Hframes.
  - split.
    + intros e He. unfold VideoClip_init, get_frame in *. simpl.
      by rewrite He.
    + intros frame0 Hframe0. unfold VideoClip_init, get_frame in *. simpl.
      rewrite Hframe0. simpl.
      match goal with
      | |- context [with_duration ?mc ?d] =>
          destruct (with_duration_keeps mc d) as (m & -> & Hmf & Him)
      end.
      simpl in Hmf, Him. simpl.
      unfold with_mask. rewrite Him, ClipsFacts.copy_id.
      eexists _, m. split; [reflexivity |].
      split; [by destruct self |]. split; [by destruct self |].
      split; [done |].
      intros t frame Hframe. rewrite Hmf, Hframe. simpl.
      split; [done |]. by destruct frame.
Qed.

End WithDuration.

(** The red still, which has a constant size of 2 by 1, gets a mask of ones
    one high and two wide. *)
Lemma X22_with_add_mask_witness :
  exists c m,
    with_add_mask set_duration_only (still red) = inr c
    /\ mask c = Some m
    /\ get_frame m 0 = inr (Arr2 1 2 (fun _ _ => 1%Q)).
Proof.
  assert (forall m d, exists m',
            set_duration_only m d = inr m'
            /\ make_frame m' = make_frame m /\ is_mask m' = is_mask m)
    as Hkeeps.
  { intros m d. eexists. split; [reflexivity |]. by destruct m. }
  destruct (X22_with_add_mask set_duration_only Hkeeps (still red))
    as [Hconst _].
  destruct (Hconst eq_refl) as [_ Hsized].
  destruct (Hsized 2 1 eq_refl ltac:(lia) ltac:(lia))
    as (c & m & Hc & _ & Hm & _ & Hframes).
  exists c, m. split; [exact Hc |]. split; [exact Hm |]. apply Hframes.
Defined.

End ConstructionFacts.

(** * Properties of compositing *)

Module BlitFacts.
Import Clips Blit.

Lemma Qtrunc_inject_Z (z : Z) : Qtrunc (inject_Z z) = z.
Proof. unfold Qtrunc. simpl. apply Z.quot_1_r. Qed.

Lemma Qtrunc_half (d : Z) : Qtrunc (inject_Z d / 2) = Z.quot d 2.
Proof. unfold Qtrunc. simpl. by rewrite Z.mul_1_r. Qed.

(** A half truncated toward zero is within half a unit of the half. *)
Lemma quot_2_close (d : Z) : Z.abs (d - 2 * Z.quot d 2) <= 1.
Proof.
  pose proof (Z.quot_rem d 2 ltac:(lia)) as Hd.
  pose proof (Z.rem_bound_abs d 2 ltac:(lia)). lia.
Qed.

(** The common canvas contains both images. *)
Lemma inside_max_l (s s' : Z * Z) (x y : Z) :
  inside s x y = true ->
  inside (Z.max s.1 s'.1, Z.max s.2 s'.2) x y = true.
Proof.
  unfold inside. simpl. rewrite !andb_true_iff, !Z.leb_le, !Z.ltb_lt. lia.
Qed.

Lemma inside_max_r (s s' : Z * Z) (x y : Z) :
  inside s' x y = true ->
  inside (Z.max s.1 s'.1, Z.max s.2 s'.2) x y = true.
Proof.
  unfold inside. simpl. rewrite !andb_true_iff, !Z.leb_le, !Z.ltb_lt. lia.
Qed.

(** C3. Named anchors resolve per axis: "left" and "top" to 0, "right" and
    "bottom" to the extent of the picture minus that of the image, "center"
    to half of that difference; the resolved coordinates are truncated to
    integers. With ("right", "bottom") the position plus the size of the
    blitted image is the size of the picture; with ("center", "center") the
    margins on either side differ by at most one pixel. [blit_on] hands
    exactly the resolved position to the compositing. *)
Theorem C3_named_anchors (wf hf wi hi : Z) (relative : bool) :
  (anchor "left" "right" wf wi (CStr "left") = inr 0%Q
   /\ anchor "left" "right" wf wi (CStr "right") = inr (inject_Z (wf - wi))
   /\ anchor "left" "right" wf wi (CStr "center")
      = inr (inject_Z (wf - wi) / 2)%Q
   /\ anchor "top" "bottom" hf hi (CStr "top") = inr 0%Q
   /\ anchor "top" "bottom" hf hi (CStr "bottom") = inr (inject_Z (hf - hi))
   /\ anchor "top" "bottom" hf hi (CStr "center")
      = inr (inject_Z (hf - hi) / 2)%Q)
  /\ (forall cx cy,
        resolve_pos wf hf wi hi relative (PosPair cx cy)
        = (x ← anchor "left" "right" wf wi (scale relative wf cx);
           y ← anchor "top" "bottom" hf hi (scale relative hf cy);
           mret (Qtrunc x, Qtrunc y)))
  /\ resolve_pos wf hf wi hi relative (PosPair (CStr "right") (CStr "bottom"))
     = inr (wf - wi, hf - hi)
  /\ (exists x y,
        resolve_pos wf hf wi hi relative
          (PosPair (CStr "center") (CStr "center")) = inr (x, y)
        /\ Z.abs ((wf - wi - x) - x) <= 1
        /\ Z.abs ((hf - hi - y) - y) <= 1)
  /\ (forall (self : clip) (picture : pil_image) (t : Q)
             (im_img : pil_image) (im_mask : option pil_image),
        im_size picture = (wf, hf) ->
        fetch self (t - start self) = inr (im_img, im_mask) ->
        im_size im_img = (wi, hi) ->
        relative_pos self = relative ->
        pos self (t - start self) = PosPair (CStr "right") (CStr "bottom") ->
        blit_on blit_call BlitCall self picture t
        = inr (BlitCall im_img picture (wf - wi, hf - hi) im_mask)
        /\ (wf - wi) + (im_size im_img).1 = (im_size picture).1
        /\ (hf - hi) + (im_size im_img).2 = (im_size picture).2).
Proof.
  assert (resolve_pos wf hf wi hi relative
            (PosPair (CStr "right") (CStr "bottom")) = inr (wf - wi, hf - hi))
    as Hrb.
  { unfold resolve_pos. simpl. by rewrite !Qtrunc_inject_Z. }
  split; [done |]. split; [done |]. split; [done |]. split.
  - exists (Z.quot (wf - wi) 2), (Z.quot (hf - hi) 2).
    split; [unfold resolve_pos; simpl; by rewrite !Qtrunc_half |].
    pose proof (quot_2_close (wf - wi)). pose proof (quot_2_close (hf - hi)).
    lia.
  - intros self picture t im_img im_mask Hpic Hfetch Himg Hrel Hpos.
    unfold blit_on. rewrite Hpic, Hfetch. simpl. rewrite Himg, Hrel, Hpos.
    rewrite Hrb. simpl. split; [done | lia].
Qed.

Lemma C3_named_anchors_witness :
  exists im,
    fetch cornered 0 = inr (im, None)
    /\ blit_on blit_call BlitCall cornered canvas 0
       = inr (BlitCall im canvas (8, 5) None).
Proof.
  eexists. split; [reflexivity |].
  apply (proj2 (proj2 (proj2 (proj2 (C3_named_anchors 10 6 2 1 false))))
           cornered canvas 0%Q); reflexivity.
Defined.

(** C4. When the frame and the mask frame of a clip differ in size as
    images, [blit_on] puts both at the origin of canvases of the larger
    width and the larger height: the image on a black RGB canvas, the mask
    on a single-band canvas of zeros; no error is raised for the mismatch,
    and the compositing receives the two canvases, whenever the position
    resolves. *)
Theorem C4_size_reconciliation (self m : clip) (t : Q)
    (frame mask_frame : ndarray) (im_img im_mask : pil_image) :
  mask self = Some m ->
  get_frame self (t - start self) = inr frame ->
  fromarray (astype_uint8 frame) = inr im_img ->
  get_frame m (t - start self) = inr mask_frame ->
  fromarray (astype_uint8 (times255 mask_frame)) = inr im_mask ->
  im_size im_img <> im_size im_mask ->
  exists img_bg mask_bg,
    fetch self (t - start self) = inr (img_bg, Some mask_bg)
    /\ im_size img_bg = (Z.max (im_size im_img).1 (im_size im_mask).1,
                         Z.max (im_size im_img).2 (im_size im_mask).2)
    /\ im_size mask_bg = im_size img_bg
    /\ im_mode img_bg = ModeRGB /\ im_mode mask_bg = ModeL
    /\ (forall x y k,
          im_px img_bg x y k =
            if inside (im_size im_img) x y then px_as ModeRGB im_img x y k
            else 0)
    /\ (forall x y k,
          im_px mask_bg x y k =
            if inside (im_size im_mask) x y then px_as ModeL im_mask x y k
            else 0)
    /\ (forall (picture : pil_image) (p : Z * Z),
          resolve_pos (im_size picture).1 (im_size picture).2
            (im_size img_bg).1 (im_size img_bg).2 (relative_pos self)
            (pos self (t - start self)) = inr p ->
          blit_on blit_call BlitCall self picture t
          = inr (BlitCall img_bg picture p (Some mask_bg))).
Proof.
  intros Hmask Hframe Himg Hmframe Hmimg Hsize.
  assert (fetch self (t - start self)
          = inr (paste_origin
                   (Image_new ModeRGB
                      (Z.max (im_size im_img).1 (im_size im_mask).1,
                       Z.max (im_size im_img).2 (im_size im_mask).2) 0)
                   im_img,
                 Some (paste_origin
                         (Image_new ModeL
                            (Z.max (im_size im_img).1 (im_size im_mask).1,
                             Z.max (im_size im_img).2 (im_size im_mask).2) 0)
                         (convert_L im_mask)))) as Hfetch.
  { unfold fetch. rewrite Hframe. simpl. rewrite Himg. simpl.
    rewrite Hmask, Hmframe. simpl. rewrite Hmimg. simpl.
    by rewrite bool_decide_eq_true_2. }
  eexists _, _. split; [exact Hfetch |]. simpl.
  split; [done |]. split; [done |]. split; [done |]. split; [done |].
  split; [| split].
  - intros x y k. destruct (inside (im_size im_img) x y) eqn:Hin; [| done].
    by rewrite (inside_max_l _ (im_size im_mask) x y Hin).
  - intros x y k. destruct (inside (im_size im_mask) x y) eqn:Hin; [| done].
    rewrite (inside_max_r (im_size im_img) _ x y Hin). simpl.
    unfold px_as. simpl. by destruct (im_mode im_mask).
  - intros picture p Hp. unfold blit_on.
    destruct (im_size picture) as [wf hf] eqn:Hpic.
    rewrite Hfetch. simpl in *. by rewrite Hp.
Qed.

Lemma C4_size_reconciliation_witness :
  exists img_bg mask_bg p,
    blit_on blit_call BlitCall mismatched canvas 0
    = inr (BlitCall img_bg canvas p (Some mask_bg))
    /\ im_size img_bg = (3, 2) /\ im_size mask_bg = (3, 2)
    /\ im_px img_bg 0 0 0 = 255 /\ im_px img_bg 2 1 0 = 0
    /\ im_px mask_bg 1 0 0 = 255.
Proof.
  destruct (C4_size_reconciliation mismatched
              (set_is_mask true (still opaque32)) 0%Q red opaque32
              (Image ModeRGB (2, 1)
                 (fun x y k => Qtrunc (uint8 (if k =? 0 then 255 else 0))))
              (Image ModeL (3, 2)
                 (fun x y k => Qtrunc (uint8 (255 * 1)))))
    as (img_bg & mask_bg & Hfetch & Hs1 & Hs2 & _ & _ & Hpx & Hmpx & Hblit);
    [reflexivity .. | done |].
  exists img_bg, mask_bg, (0, 0).
  split; [apply Hblit; by rewrite Hs1 |].
  split; [done |]. split; [by rewrite Hs2 |].
  rewrite !Hpx, Hmpx. by vm_compute.
Defined.

(** *** Positions that are not anchors *)

Lemma eqb_not_elem_of (s x : string) (l : list string) :
  s ∉ l -> x ∈ l -> String.eqb s x = false.
Proof.
  intros Hs Hx. apply String.eqb_neq. intros ->. by apply Hs.
Qed.

Lemma anchor_unknown (low high : string) (outer inner : Z) (s : string) :
  s ∉ [low; "center"; high] ->
  anchor low high outer inner (CStr s) = inl (KeyError s).
Proof.
  intros Hs. unfold anchor.
  rewrite (eqb_not_elem_of s low _ Hs) by set_solver.
  rewrite (eqb_not_elem_of s "center" _ Hs) by set_solver.
  by rewrite (eqb_not_elem_of s high _ Hs) by set_solver.
Qed.

Lemma anchor_known (low high : string) (outer inner : Z) (c : coord) :
  (forall s, c = CStr s -> s ∈ [low; "center"; high]) ->
  exists q, anchor low high outer inner c = inr q.
Proof.
  intros Hc. destruct c as [s | q]; simpl; [| eexists; reflexivity].
  specialize (Hc s eq_refl).
  destruct (String.eqb_spec s low); [eexists; reflexivity |].
  destruct (String.eqb_spec s "center"); [eexists; reflexivity |].
  destruct (String.eqb_spec s high); [eexists; reflexivity |].
  set_solver.
Qed.

Lemma scale_name (relative : bool) (dim : Z) (s : string) :
  scale relative dim (CStr s) = CStr s.
Proof. done. Qed.

(** X17. Position names [blit_on] does not know. Once the frame, and the
    mask frame, have been fetched: a one-word position other than "center",
    "left", "right", "top" and "bottom" raises [KeyError]; so does a
    horizontal name other than "left", "center" and "right", and, the
    horizontal coordinate being fine, a vertical name other than "top",
    "center" and "bottom". A pair written in the order (vertical,
    horizontal), like ("top", "left"), is therefore an error. *)
Theorem X17_blit_on_unknown_names (self : clip) (picture : pil_image) (t : Q)
    (im_img : pil_image) (im_mask : option pil_image) :
  fetch self (t - start self) = inr (im_img, im_mask) ->
  (forall s,
     pos self (t - start self) = PosStr s ->
     s ∉ ["center"; "left"; "right"; "top"; "bottom"] ->
     blit_on blit_call BlitCall self picture t = inl (KeyError s))
  /\ (forall s cy,
        pos self (t - start self) = PosPair (CStr s) cy ->
        s ∉ ["left"; "center"; "right"] ->
        blit_on blit_call BlitCall self picture t = inl (KeyError s))
  /\ (forall cx s,
        pos self (t - start self) = PosPair cx (CStr s) ->
        (forall s', cx = CStr s' -> s' ∈ ["left"; "center"; "right"]) ->
        s ∉ ["top"; "center"; "bottom"] ->
        blit_on blit_call BlitCall self picture t = inl (KeyError s)).
Proof.
  intros Hfetch. unfold blit_on. destruct (im_size picture) as [wf hf].
  rewrite Hfetch. simpl. destruct (im_size im_img) as [wi hi].
  split; [| split].
  - intros s -> Hs. unfold resolve_pos, expand.
    rewrite (eqb_not_elem_of s "center" _ Hs) by set_solver.
    rewrite (eqb_not_elem_of s "left" _ Hs) by set_solver.
    rewrite (eqb_not_elem_of s "right" _ Hs) by set_solver.
    rewrite (eqb_not_elem_of s "top" _ Hs) by set_solver.
    by rewrite (eqb_not_elem_of s "bottom" _ Hs) by set_solver.
  - intros s cy -> Hs. unfold resolve_pos. cbn -[anchor scale].
    by rewrite scale_name, anchor_unknown.
  - intros cx s -> Hcx Hs. unfold resolve_pos. cbn -[anchor scale].
    destruct (anchor_known "left" "right" wf wi (scale (relative_pos self) wf cx))
      as [q ->].
    { intros s' Hs'. apply Hcx. destruct cx as [s'' | q]; [done |].
      simpl in Hs'. by destruct (relative_pos self). }
    cbn -[anchor scale]. by rewrite scale_name, anchor_unknown.
Qed.

Lemma X17_blit_on_unknown_names_witness :
  blit_on blit_call BlitCall misplaced canvas 0 = inl (KeyError "top").
Proof.
  destruct (fetch misplaced (0 - start misplaced)) as [e | [im_img im_mask]]
    eqn:Hfetch; [done |].
  apply (proj1 (proj2 (X17_blit_on_unknown_names misplaced canvas 0%Q im_img
                         im_mask Hfetch))
           "top" (CStr "left")).
  - reflexivity.
  - set_solver.
Defined.

Lemma Qtrunc_small (q : Q) : (-1 < q)%Q -> (q < 1)%Q -> Qtrunc q = 0.
Proof.
  intros Hlo Hhi. destruct (Qlt_le_dec q 0) as [Hneg | Hpos].
  - rewrite ClipsFacts.Qtrunc_ceiling by (by apply Qlt_le_weak).
    pose proof (Qceiling_lt q) as Hc. pose proof (Qle_ceiling q) as Hc'.
    assert (Qceiling q - 1 < 0)%Z as H1.
    { rewrite Zlt_Qlt. eapply Qlt_trans; [exact Hc | exact Hneg]. }
    assert (-1 < Qceiling q)%Z as H2.
    { rewrite Zlt_Qlt. eapply Qlt_le_trans; [exact Hlo | exact Hc']. }
    lia.
  - rewrite ClipsFacts.Qtrunc_floor by done.
    pose proof (Qfloor_le q) as Hf.
    assert (0 <= Qfloor q)%Z as H1.
    { change 0 with (Qfloor 0). by apply Qfloor_resp_le. }
    assert (Qfloor q < 1)%Z as H2.
    { rewrite Zlt_Qlt. eapply Qle_lt_trans; [exact Hf | exact Hhi]. }
    lia.
Qed.

Lemma Qtrunc_fraction (dim : Z) (q : Q) :
  0 <= dim -> (0 <= q)%Q -> (q <= 1)%Q ->
  0 <= Qtrunc (inject_Z dim * q) <= dim.
Proof.
  intros Hdim Hlo Hhi.
  assert (0 <= inject_Z dim)%Q as Hd.
  { change 0%Q with (inject_Z 0). by rewrite <- Zle_Qle. }
  assert (0 <= inject_Z dim * q)%Q as Hpos by (by apply Qmult_le_0_compat).
  assert (inject_Z dim * q <= inject_Z dim)%Q as Hle.
  { rewrite <- (Qmult_1_r (inject_Z dim)) at 2.
    rewrite (Qmult_comm (inject_Z dim) q), (Qmult_comm (inject_Z dim) 1).
    by apply Qmult_le_compat_r. }
  rewrite ClipsFacts.Qtrunc_floor by done. split.
  - change 0 with (Qfloor 0). by apply Qfloor_resp_le.
  - eapply Z.le_trans; [apply Qfloor_resp_le; exact Hle |].
    rewrite Qfloor_Z. lia.
Qed.

Lemma Qtrunc_fraction_strict (dim : Z) (q : Q) :
  0 < dim -> (0 <= q)%Q -> (q < 1)%Q ->
  0 <= Qtrunc (inject_Z dim * q) < dim.
Proof.
  intros Hdim Hlo Hhi.
  assert (0 < inject_Z dim)%Q as Hd.
  { change 0%Q with (inject_Z 0). by rewrite <- Zlt_Qlt. }
  assert (0 <= inject_Z dim * q)%Q as Hpos
    by (apply Qmult_le_0_compat; [by apply Qlt_le_weak | done]).
  assert (inject_Z dim * q < inject_Z dim)%Q as Hlt.
  { rewrite <- (Qmult_1_r (inject_Z dim)) at 2. by apply Qmult_lt_l. }
  rewrite ClipsFacts.Qtrunc_floor by done. split.
  - change 0 with (Qfloor 0). by apply Qfloor_resp_le.
  - rewrite Zlt_Qlt. eapply Qle_lt_trans; [apply Qfloor_le | exact Hlt].
Qed.

Lemma Qtrunc_whole (dim : Z) (q : Q) :
  (q == 1)%Q -> Qtrunc (inject_Z dim * q) = dim.
Proof.
  intros Hq. apply ClipsFacts.Qtrunc_integer. rewrite Hq. ring.
Qed.

(** X18. Numeric positions. The clip is blitted at its coordinates
    truncated toward zero, so that any coordinate strictly between -1 and 1
    lands on 0. With [relative_pos] the coordinates are first multiplied by
    the width and the height of the picture: fractions from 0 up to, but
    not including, 1 land on a pixel of the picture; the fraction 1 lands
    on the width, or the height, itself, which is one past the last pixel;
    so fractions from 0 to 1 land between 0 and the width, or the height,
    both included. *)
Theorem X18_blit_on_numeric_position (self : clip) (picture : pil_image)
    (t : Q) (im_img : pil_image) (im_mask : option pil_image) (x y : Q)
    (wf hf : Z) :
  im_size picture = (wf, hf) ->
  fetch self (t - start self) = inr (im_img, im_mask) ->
  pos self (t - start self) = PosPair (CNum x) (CNum y) ->
  exists X Y,
    blit_on blit_call BlitCall self picture t
    = inr (BlitCall im_img picture (X, Y) im_mask)
    /\ (relative_pos self = false ->
        X = Qtrunc x /\ Y = Qtrunc y
        /\ ((-1 < x)%Q -> (x < 1)%Q -> X = 0)
        /\ ((-1 < y)%Q -> (y < 1)%Q -> Y = 0))
    /\ (relative_pos self = true ->
        X = Qtrunc (inject_Z wf * x) /\ Y = Qtrunc (inject_Z hf * y)
        /\ (0 <= wf -> (0 <= x)%Q -> (x <= 1)%Q -> 0 <= X <= wf)
        /\ (0 <= hf -> (0 <= y)%Q -> (y <= 1)%Q -> 0 <= Y <= hf)
        /\ (0 < wf -> 0 < hf ->
            (0 <= x)%Q -> (x < 1)%Q -> (0 <= y)%Q -> (y < 1)%Q ->
            inside (im_size picture) X Y = true)
        /\ ((x == 1)%Q ->
            X = wf /\ forall y', inside (im_size picture) X y' = false)
        /\ ((y == 1)%Q ->
            Y = hf /\ forall x', inside (im_size picture) x' Y = false)).
Proof.
  intros Hsize Hfetch Hpos. unfold blit_on. rewrite Hsize, Hfetch. simpl.
  destruct (im_size im_img) as [wi hi]. rewrite Hpos.
  unfold resolve_pos. simpl.
  destruct (relative_pos self); simpl.
  - eexists _, _. split; [reflexivity |]. split; [done |]. intros _.
    split; [done |]. split; [done |].
    split; [intros; by apply Qtrunc_fraction |].
    split; [intros; by apply Qtrunc_fraction |].
    split; [| split].
    + intros Hw Hh Hx0 Hx1 Hy0 Hy1. unfold inside. simpl.
      pose proof (Qtrunc_fraction_strict wf x Hw Hx0 Hx1).
      pose proof (Qtrunc_fraction_strict hf y Hh Hy0 Hy1).
      rewrite !andb_true_iff, !Z.leb_le, !Z.ltb_lt. lia.
    + intros Hx. rewrite (Qtrunc_whole wf x Hx). split; [done |].
      intros y'. unfold inside. simpl.
      rewrite Z.ltb_irrefl, andb_false_r. done.
    + intros Hy. rewrite (Qtrunc_whole hf y Hy). split; [done |].
      intros x'. unfold inside. simpl.
      by rewrite Z.ltb_irrefl, andb_false_r.
  - eexists _, _. split; [reflexivity |]. split; [| done]. intros _.
    split; [done |]. split; [done |].
    split; intros; by apply Qtrunc_small.
Qed.

(** The red still at one half of a picture ten wide and six high is
    blitted at (5, 3), a pixel of the picture. *)
Lemma X18_blit_on_numeric_position_witness :
  exists im,
    blit_on blit_call BlitCall halfway canvas 0
    = inr (BlitCall im canvas (5, 3) None)
    /\ inside (im_size canvas) 5 3 = true.
Proof.
  destruct (fetch halfway (0 - start halfway)) as [e | [im_img im_mask]]
    eqn:Hfetch; [done |].
  destruct (X18_blit_on_numeric_position halfway canvas 0%Q im_img im_mask
              (1 # 2)%Q (1 # 2)%Q 10 6 eq_refl Hfetch eq_refl)
    as (X & Y & Hblit & _ & Hrel).
  destruct (Hrel eq_refl) as (-> & -> & _ & _ & Hinside & _).
  exists im_img. split.
  - rewrite Hblit. vm_compute in Hfetch. injection Hfetch as _ <-.
    reflexivity.
  - apply Hinside; done.
Defined.

End BlitFacts.

(** * Properties of copies in the store *)

Module StoreFacts.
Import Store.

Lemma untouched_refl (h : heap) : untouched h h.
Proof. by intros l o. Qed.

Lemma untouched_trans (h1 h2 h3 : heap) :
  untouched h1 h2 -> untouched h2 h3 -> untouched h1 h3.
Proof. intros H12 H23 l o Hl. by apply H23, H12. Qed.

Lemma untouched_none (h h' : heap) (l : loc) :
  untouched h h' -> h' !! l = None -> h !! l = None.
Proof.
  intros Hu Hl. destruct (h !! l) as [o |] eqn:E; [| done].
  apply Hu in E. congruence.
Qed.

Lemma fresh_none (h : heap) : h !! fresh (dom h) = None.
Proof. apply not_elem_of_dom, is_fresh. Qed.

Lemma untouched_insert (h h' : heap) (l : loc) (o : object) :
  untouched h h' -> h !! l = None -> untouched h (<[l := o]> h').
Proof.
  intros Hu Hl k ok Hk. rewrite lookup_insert_ne by congruence. by apply Hu.
Qed.

Lemma untouched_setattr (h h' h'' : heap) (l : loc) (attr : string) (v : val) :
  untouched h h' -> h !! l = None -> setattr h' l attr v = Some h'' ->
  untouched h h''.
Proof.
  unfold setattr. intros Hu Hl Hset.
  destruct (h' !! l) as [o |]; [| done]. injection Hset as <-.
  by apply untouched_insert.
Qed.

(** What one call of [copy_companion] does, given what the copy of a value
    does. *)
Lemma copy_companion_spec
    (copy_val : heap -> val -> option (val * heap)) (attr : string)
    (st st' : gmap string val * heap) :
  (forall h v v' h', copy_val h v = Some (v', h') ->
                     untouched h h' /\ copy_of h h' v v') ->
  copy_companion copy_val attr st = Some st' ->
  untouched st.2 st'.2
  /\ (forall a, a <> attr -> st'.1 !! a = st.1 !! a)
  /\ match st.1 !! attr with
     | Some v => exists v', st'.1 !! attr = Some v' /\ copy_of st.2 st'.2 v v'
     | None => st'.1 !! attr = None
     end.
Proof.
  intros Hval. unfold copy_companion.
  destruct (st.1 !! attr) as [v |] eqn:Hattr.
  - destruct (copy_val st.2 v) as [[v' h'] |] eqn:Hcopy; [| done].
    intros [= <-]. simpl. apply Hval in Hcopy as [Hu Hc].
    split; [done |]. split.
    + intros a Ha. by rewrite lookup_insert_ne.
    + exists v'. by rewrite lookup_insert_eq.
  - intros [= <-]. split; [apply untouched_refl |]. split; [done |]. done.
Qed.

(** One level of [VideoClip.__copy__]. *)
Lemma copy_videoclip_inv (fuel : nat) (h h' : heap) (l : loc) (v' : val)
    (self : object) :
  h !! l = Some self -> is_videoclip self = true ->
  copy (S fuel) h (VRef l) = Some (v', h') ->
  exists st1 st2,
    copy_companion (copy fuel) "mask"
      (attrs self, <[fresh (dom h) := Object true ∅]> h) = Some st1
    /\ copy_companion (copy fuel) "audio" st1 = Some st2
    /\ v' = VRef (fresh (dom h))
    /\ h' = <[fresh (dom h) := Object true st2.1]> st2.2.
Proof.
  intros Hl Hvc. simpl. rewrite Hl. simpl. rewrite Hvc.
  destruct (copy_companion (copy fuel) "mask" _) as [st1 |] eqn:H1; [| done].
  simpl.
  destruct (copy_companion (copy fuel) "audio" st1) as [st2 |] eqn:H2;
    [| done].
  simpl. intros [= <- <-]. by exists st1, st2.
Qed.

(** A copy leaves every object of the store as it was, and is a copy. *)
Lemma copy_spec (fuel : nat) : forall (h : heap) (v v' : val) (h' : heap),
  copy fuel h v = Some (v', h') -> untouched h h' /\ copy_of h h' v v'.
Proof.
  induction fuel as [|fuel IH]; intros h v v' h' Hcopy.
  - destruct v as [| l | d]; simpl in Hcopy; [| done |].
    + injection Hcopy as <- <-. split; [apply untouched_refl | done].
    + injection Hcopy as <- <-. split; [apply untouched_refl | done].
  - destruct v as [| l | d].
    { injection Hcopy as <- <-. split; [apply untouched_refl | done]. }
    2: { injection Hcopy as <- <-. split; [apply untouched_refl | done]. }
    destruct (h !! l) as [self |] eqn:Hl;
      [| by simpl in Hcopy; rewrite Hl in Hcopy].
    pose proof (fresh_none h) as Hfresh.
    destruct (is_videoclip self) eqn:Hvc.
    + destruct (copy_videoclip_inv fuel h h' l v' self Hl Hvc Hcopy)
        as (st1 & st2 & H1 & H2 & Hv' & Hh').
      subst v' h'.
      apply (copy_companion_spec _ _ _ _ (IH)) in H1 as (Hu1 & Hsame1 & _).
      apply (copy_companion_spec _ _ _ _ (IH)) in H2 as (Hu2 & Hsame2 & _).
      simpl in Hu1, Hsame1.
      assert (untouched h st2.2) as Hu.
      { eapply untouched_trans; [| exact Hu2].
        eapply untouched_trans; [| exact Hu1].
        by apply untouched_insert; [apply untouched_refl |]. }
      split; [by apply untouched_insert |].
      exists (fresh (dom h)), self, (Object true st2.1).
      split; [done |]. split; [done |]. split; [done |].
      split; [by rewrite lookup_insert_eq |]. split; [done |].
      intros a Hm Ha. simpl. rewrite Hsame2 by done. by apply Hsame1.
    + simpl in Hcopy. rewrite Hl in Hcopy. simpl in Hcopy.
      rewrite Hvc in Hcopy. injection Hcopy as <- <-.
      split; [by apply untouched_insert; [apply untouched_refl |] |].
      exists (fresh (dom h)), self, self.
      split; [done |]. split; [done |]. split; [done |].
      split; [by rewrite lookup_insert_eq |]. split; [done |].
      by intros a _ _.
Qed.

Lemma copyable_untouched (n : nat) : forall (h h' : heap) (v : val),
  copyable n h v -> untouched h h' -> copyable n h' v.
Proof.
  induction n as [|n IH]; intros h h' v Hc Hu; destruct v as [| l | d];
    try done.
  destruct Hc as (o & Hl & Hcomp). exists o. split; [by apply Hu |].
  intros Hvc attr v' Hattr Hv'. eapply IH; [| exact Hu]. by eapply Hcomp.
Qed.

(** With the chain of companions ending, the copy returns. *)
Lemma copy_total (n : nat) : forall (h : heap) (v : val),
  copyable n h v -> exists v' h', copy n h v = Some (v', h').
Proof.
  induction n as [|n IH]; intros h v Hc; destruct v as [| l | d];
    try done; try (by eexists _, _).
  destruct Hc as (self & Hl & Hcomp). simpl. rewrite Hl. simpl.
  destruct (is_videoclip self) eqn:Hvc; [| by eexists _, _].
  specialize (Hcomp eq_refl).
  set (h0 := <[fresh (dom h) := Object true ∅]> h).
  assert (untouched h h0) as Hu0
    by (apply untouched_insert; [apply untouched_refl | apply fresh_none]).
  assert (exists st1, copy_companion (copy n) "mask" (attrs self, h0)
                      = Some st1) as [st1 H1].
  { unfold copy_companion. simpl.
    destruct (attrs self !! "mask") as [v |] eqn:Hm; [| by eexists].
    destruct (IH h0 v) as (v' & h' & ->); [| by eexists].
    eapply copyable_untouched; [| exact Hu0]. eapply Hcomp; [by left | done]. }
  rewrite H1. simpl.
  apply (copy_companion_spec _ _ _ _ (copy_spec n)) in H1 as Hs1.
  destruct Hs1 as (Hu1 & Hsame1 & _). simpl in Hu1, Hsame1.
  assert (exists st2, copy_companion (copy n) "audio" st1 = Some st2)
    as [st2 H2].
  { unfold copy_companion. rewrite Hsame1 by done.
    destruct (attrs self !! "audio") as [v |] eqn:Ha; [| by eexists].
    destruct (IH st1.2 v) as (v' & h' & ->); [| by eexists].
    eapply copyable_untouched; [eapply Hcomp; [by right | done] |].
    by eapply untouched_trans. }
  rewrite H2. simpl. by eexists _, _.
Qed.

Lemma copy_clip_spec (fuel : nat) (h h' : heap) (l l' : loc) :
  copy_clip fuel h l = Some (l', h') ->
  untouched h h'
  /\ exists mo mo', h !! l = Some mo /\ h !! l' = None /\ h' !! l' = Some mo'
                    /\ is_videoclip mo' = is_videoclip mo
                    /\ same_but_companions (attrs mo) (attrs mo').
Proof.
  unfold copy_clip.
  destruct (copy fuel h (VRef l)) as [[v h1] |] eqn:Hcopy; [| done].
  apply copy_spec in Hcopy as (Hu & m' & mo & mo' & -> & H).
  simpl. intros [= <- <-]. split; [done |]. by exists mo, mo'.
Qed.

Lemma mask_view_untouched (h h' : heap) (l : loc) (self : object) (n : nat) :
  h !! l = Some self -> copyable (S n) h (VRef l) -> is_videoclip self = true ->
  untouched h h' -> mask_view h' l = mask_view h l.
Proof.
  intros Hl (o & Ho & Hcomp) Hvc Hu. rewrite Hl in Ho. injection Ho as <-.
  unfold mask_view. rewrite Hl, (Hu _ _ Hl). simpl.
  destruct (attrs self !! "mask") as [[| m | d] |] eqn:Hm; try done.
  specialize (Hcomp Hvc "mask" (VRef m) (or_introl eq_refl) Hm).
  destruct n as [|n]; [done |]. destruct Hcomp as (mo & Hmo & _).
  by rewrite Hmo, (Hu _ _ Hmo).
Qed.

(** [with_opacity] writes to objects it has made itself only. *)
Lemma with_opacity_untouched (fuel : nat) (h h' : heap) (l r : loc)
    (opaque : gmap string val) (frames : val) :
  with_opacity fuel h l opaque frames = Some (r, h') -> untouched h h'.
Proof.
  unfold with_opacity.
  destruct (getattr h l "mask") as [m |]; [| done]. simpl.
  set (stage := match m with
                | VNone => _
                | _ => _
                end).
  destruct stage as [[l1 h1] |] eqn:Hstage; [| done]. simpl.
  assert (untouched h h1) as Hu1.
  { subst stage. destruct m as [| m | d];
      try (injection Hstage as <- <-; apply untouched_refl).
    destruct (copy_clip fuel _ l) as [[wm hB] |] eqn:Hc; [| done].
    simpl in Hstage.
    destruct (setattr hB wm "mask" _) as [hC |] eqn:Hset; [| done].
    injection Hstage as <- <-.
    apply copy_clip_spec in Hc as (HuB & mo & mo' & _ & Hnew & _).
    assert (untouched h hB) as HuhB.
    { eapply untouched_trans; [| exact HuB].
      apply untouched_insert; [apply untouched_refl | apply fresh_none]. }
    eapply untouched_setattr; [exact HuhB | | exact Hset].
    eapply untouched_none; [| exact Hnew].
    apply untouched_insert; [apply untouched_refl | apply fresh_none]. }
  clear Hstage stage.
  destruct (copy_clip fuel h1 l1) as [[self hD] |] eqn:Hc; [| done].
  simpl. apply copy_clip_spec in Hc as (HuD & _ & _ & _ & Hself & _).
  destruct (getattr hD self "mask") as [[| mask_loc | d] |]; try done.
  simpl. unfold image_transform.
  destruct (copy_clip fuel hD mask_loc) as [[nm hE] |] eqn:Hc'; [| done].
  simpl. apply copy_clip_spec in Hc' as (HuE & _ & _ & _ & Hnm & _).
  destruct (setattr hE nm "make_frame" frames) as [hF |] eqn:HsF; [| done].
  simpl.
  destruct (setattr hF self "mask" (VRef nm)) as [hG |] eqn:HsG; [| done].
  simpl. intros [= <- <-].
  assert (untouched h hD) as HuhD by (by eapply untouched_trans).
  assert (untouched h hF) as HuhF.
  { eapply untouched_setattr; [| | exact HsF].
    - by eapply untouched_trans.
    - exact (untouched_none _ _ _ HuhD Hnm). }
  eapply untouched_setattr; [exact HuhF | | exact HsG].
  exact (untouched_none _ _ _ Hu1 Hself).
Qed.

(** C5. [copy()] of a clip (the chain of its companions ending within the
    fuel) returns a new object of the same class; every attribute other than
    "mask" and "audio" holds the value the source holds; "mask" and "audio"
    hold copies of their own, new objects with the attribute values of
    their sources; no object that existed is changed. Hence assigning to an
    attribute of the copy or of the copy's mask, or changing the opacity of
    the copy, leaves the original clip and its mask as they were. *)
Theorem C5_copy_is_independent (fuel : nat) (h : heap) (l : loc)
    (self : object) :
  h !! l = Some self -> is_videoclip self = true ->
  copyable fuel h (VRef l) ->
  exists l' h' new_clip,
    copy_clip fuel h l = Some (l', h')
    /\ h !! l' = None /\ h' !! l' = Some new_clip
    /\ is_videoclip new_clip = true
    /\ same_but_companions (attrs self) (attrs new_clip)
    /\ companion_copied h h' self new_clip "mask"
    /\ companion_copied h h' self new_clip "audio"
    /\ untouched h h'
    /\ (forall target attr v h'',
          target = l' \/ attrs new_clip !! "mask" = Some (VRef target) ->
          setattr h' target attr v = Some h'' ->
          untouched h h'' /\ mask_view h'' l = mask_view h l)
    /\ (forall fuel' opaque frames r h'',
          with_opacity fuel' h' l' opaque frames = Some (r, h'') ->
          untouched h h'' /\ mask_view h'' l = mask_view h l).
Proof.
  intros Hl Hvc Hc.
  destruct fuel as [|fuel]; [done |].
  destruct (copy_total _ h (VRef l) Hc) as (v' & h' & Hcopy).
  destruct (copy_videoclip_inv fuel h h' l v' self Hl Hvc Hcopy)
    as (st1 & st2 & H1 & H2 & Hv' & Hh').
  pose proof (copy_spec _ _ _ _ _ Hcopy) as [Hu _].
  pose proof (fresh_none h) as Hfresh.
  set (nc := fresh (dom h)) in *.
  set (h0 := <[nc := Object true ∅]> h) in *.
  assert (untouched h h0) as Hu0
    by (by apply untouched_insert; [apply untouched_refl |]).
  apply (copy_companion_spec _ _ _ _ (copy_spec fuel)) in H1
    as (Hu1 & Hsame1 & Hmask).
  apply (copy_companion_spec _ _ _ _ (copy_spec fuel)) in H2
    as (Hu2 & Hsame2 & Haudio).
  simpl in Hu1, Hsame1, Hmask.
  assert (h0 !! nc = Some (Object true ∅)) as Hnc0
    by apply lookup_insert_eq.
  assert (forall k, k <> nc -> h' !! k = st2.2 !! k) as Hother
    by (intros k Hk; subst h'; by rewrite lookup_insert_ne).
  destruct Hc as (o & Ho & Hcomp). rewrite Hl in Ho. injection Ho as <-.
  specialize (Hcomp Hvc).
  (* a companion copied in a later store is a copy from the first one *)
  assert (forall (hA hB : heap) v w,
             untouched h0 hA -> untouched hB st2.2 ->
             copyable fuel h v -> copy_of hA hB v w -> copy_of h h' v w)
    as Hlift.
  { intros hA hB v w HuA HuB Hcv Hcopy_of. destruct v as [| m | d]; try done.
    destruct Hcopy_of as (m' & mo & mo' & -> & Hm & Hm' & Hmo' & Hclass).
    destruct fuel as [|fuel']; [done |]. destruct Hcv as (mo0 & Hmo0 & _).
    assert (mo = mo0) as ->.
    { apply Hu0, HuA in Hmo0. congruence. }
    exists m', mo0, mo'. split; [done |]. split; [done |].
    split; [eapply untouched_none; [| exact Hm'];
            by eapply untouched_trans |].
    split; [| done].
    rewrite Hother; [by apply HuB |].
    intros ->. apply HuA in Hnc0. congruence. }
  exists nc, h', (Object true st2.1). subst v'.
  split; [unfold copy_clip; by rewrite Hcopy |].
  split; [done |]. split; [subst h'; apply lookup_insert_eq |].
  split; [done |].
  split; [intros a Hm Ha; simpl; rewrite Hsame2 by done; by apply Hsame1 |].
  assert (companion_copied h h' self (Object true st2.1) "mask") as Hcm.
  { unfold companion_copied. simpl. rewrite Hsame2 by done.
    destruct (attrs self !! "mask") as [v |] eqn:Hm; [| done].
    destruct Hmask as (w & Hw & Hcopy_of). exists w. split; [done |].
    eapply (Hlift h0 st1.2); [apply untouched_refl | done | | done].
    eapply Hcomp; [by left | done]. }
  split; [done |].
  split.
  { unfold companion_copied. simpl. rewrite Hsame1 in Haudio by done.
    destruct (attrs self !! "audio") as [v |] eqn:Ha; [| done].
    destruct Haudio as (w & Hw & Hcopy_of). exists w. split; [done |].
    eapply (Hlift st1.2 st2.2); [done | apply untouched_refl | | done].
    eapply Hcomp; [by right | done]. }
  split; [done |].
  split.
  - intros target attr v h'' Htarget Hset.
    assert (h !! target = None) as Hnew.
    { destruct Htarget as [-> | Hm]; [done |].
      unfold companion_copied in Hcm. simpl in Hcm, Hm.
      destruct (attrs self !! "mask") as [v0 |]; [| congruence].
      destruct Hcm as (w & Hw & Hcopy_of). rewrite Hm in Hw.
      injection Hw as <-. destruct v0 as [| m | d]; try done.
      destruct Hcopy_of as (m' & mo & mo' & Heq & _ & Hm' & _).
      by injection Heq as ->. }
    assert (untouched h h'') as Hu''
      by exact (untouched_setattr _ _ _ _ _ _ Hu Hnew Hset).
    split; [done |].
    eapply (mask_view_untouched _ _ _ self fuel); try done.
    exists self. split; [done |]. by intros _.
  - intros fuel' opaque frames r h'' Hop.
    apply with_opacity_untouched in Hop.
    assert (untouched h h'') as Hu'' by exact (untouched_trans _ _ _ Hu Hop).
    split; [done |].
    eapply (mask_view_untouched _ _ _ self fuel); try done.
    exists self. split; [done |]. by intros _.
Qed.

Lemma two_clips_copyable : copyable 2 two_clips (VRef 1%positive).
Proof.
  eexists. split; [reflexivity |].
  intros _ attr v' [-> | ->] Hv'; vm_compute in Hv'; injection Hv' as <-;
    [| done].
  eexists. split; [reflexivity |].
  intros _ attr v' [-> | ->] Hv'; vm_compute in Hv'; by injection Hv' as <-.
Qed.

Lemma C5_copy_is_independent_witness :
  exists l' h',
    copy_clip 2 two_clips 1%positive = Some (l', h')
    /\ untouched two_clips h'
    /\ forall h'', setattr h' l' "mask" VNone = Some h'' ->
                   mask_view h'' 1%positive = mask_view two_clips 1%positive.
Proof.
  destruct (C5_copy_is_independent 2 two_clips 1%positive
              (Object true {[ "make_frame" := VData 7;
                              "mask" := VRef 2%positive;
                              "audio" := VNone ]}))
    as (l' & h' & new_clip & Hcopy & _ & _ & _ & _ & _ & _ & Hu & Hset & _).
  - reflexivity.
  - reflexivity.
  - apply two_clips_copyable.
  - exists l', h'. split; [done |]. split; [done |].
    intros h'' Hh''. by apply (Hset l' "mask" VNone h''); [left |].
Defined.

(** The copy of the sample clip, run: the clip at 1 is copied to 3 and its
    mask at 2 to 4. *)
Example copy_two_clips :
  (fun r => match r with
            | Some (l', h') => Some (l', getattr h' l' "mask",
                                     getattr h' l' "make_frame")
            | None => None
            end) (copy_clip 2 two_clips 1%positive)
  = Some (3%positive, Some (VRef 4%positive), Some (VData 7)).
Proof. by vm_compute. Qed.

End StoreFacts.

(** * Properties of writing a video file *)

Module WritingFacts.
Import Writing.

Section WithSystem.

Variable splitext_basename : string -> string * string.
Variable lower : string -> string.
Variable extensions_dict : gmap string (list string).
Variable find_extension : string -> result string.
Variable path_join : string -> string -> string.
Variable TEMP_FILES_PREFIX : string.
Variable path_exists : string -> bool.

Local Abbreviation write :=
  (write_videofile splitext_basename lower extensions_dict find_extension
     path_join TEMP_FILES_PREFIX path_exists).

(** X23. The files [write_videofile] touches. Without a codec, an extension
    that [extensions_dict] does not know raises [ValueError] before any
    effect. When the call returns, its effects are, in order: the message
    of the start, at most one audio file written, the video written, at
    most one file removed, the message of the end. An audio file is written
    only if [audio] is [True] and the clip has an audio; a file is removed
    only if [remove_temp] is set, and it is then the audio file this call
    wrote. A file name given as [audio] goes to the video writer as it is
    and is neither written nor removed. *)
Theorem X23_write_videofile_files (has_audio : bool) (filename : string)
    (codec : option string) (audio : audio_arg) (audio_codec : option string)
    (temp_audiofile : option string) (temp_audiofile_path : string)
    (remove_temp : bool) :
  (codec = None ->
   extensions_dict !! lower (tail_of (splitext_basename filename).2) = None ->
   exists msg,
     write has_audio filename codec audio audio_codec temp_audiofile
       temp_audiofile_path remove_temp = inl (ValueError msg))
  /\ (forall effects,
        write has_audio filename codec audio audio_codec temp_audiofile
          temp_audiofile_path remove_temp = inr effects ->
        exists c written audiofile removed,
          effects
          = [Log ("MoviePy - Building video " +:+ filename +:+ ".")]
            ++ written ++ [WriteVideo filename c audiofile] ++ removed
            ++ [Log ("MoviePy - video ready " +:+ filename)]
          /\ (written = []
              \/ exists f ac,
                   written = [WriteAudio f ac] /\ audiofile = Some f
                   /\ audio = AudioBool true /\ has_audio = true)
          /\ (removed = []
              \/ exists f ac,
                   removed = [Remove f] /\ written = [WriteAudio f ac]
                   /\ remove_temp = true)
          /\ (forall f, audio = AudioFile f ->
                written = [] /\ removed = [] /\ audiofile = Some f)
          /\ (audio = AudioBool false \/ has_audio = false ->
              written = [] /\ removed = []
              /\ forall f, audiofile = Some f -> audio = AudioFile f)).
Proof.
  unfold write_videofile.
  destruct (splitext_basename filename) as [name ext]. simpl. split.
  - intros -> Hext. simpl. rewrite Hext. by eexists.
  - intros effects.
    intros (c & _ & H)%ClipsFacts.bind_inr_inv.
    apply ClipsFacts.bind_inr_inv in H as (audiofile & Hfile & [= <-]).
    destruct audio as [[|] | f]; simpl in *.
    + destruct has_audio; simpl in *.
      * assert (exists f, audiofile = Some f) as [f ->].
        { destruct temp_audiofile as [[|a rest] |]; simpl in Hfile.
          - apply ClipsFacts.bind_inr_inv in Hfile as (x & _ & [= <-]). by eexists.
          - injection Hfile as <-. by eexists.
          - apply ClipsFacts.bind_inr_inv in Hfile as (x & _ & [= <-]). by eexists. }
        simpl.
        eexists c, [WriteAudio f _], (Some f), _.
        split; [reflexivity |].
        split; [right; by eexists _, _ |].
        split.
        { rewrite andb_true_r.
          destruct remove_temp; simpl; [| by left].
          destruct (path_exists f); [right; by eexists _, _ | by left]. }
        split; [done |]. intros [? | ?]; done.
      * injection Hfile as <-. rewrite andb_false_r. simpl.
        eexists c, [], None, []. split; [reflexivity |].
        split; [by left |]. split; [by left |]. split; [done |]. done.
    + injection Hfile as <-. rewrite andb_false_r. simpl.
      eexists c, [], None, []. split; [reflexivity |].
      split; [by left |]. split; [by left |]. split; [done |]. done.
    + injection Hfile as <-. rewrite andb_false_r. simpl.
      eexists c, [], (Some f), []. split; [reflexivity |].
      split; [by left |]. split; [by left |].
      split; [by intros ? [= <-] |].
      intros _. split; [done |]. split; [done |]. by intros ? [= <-].
Qed.

End WithSystem.

(** A clip with an audio written to out.mp4: the audio goes to a temporary
    mp3 that is removed afterwards; with the name of an audio file instead,
    that file is only handed to the video writer. *)
Lemma X23_write_videofile_files_witness :
  sample_write true "out.mp4" None (AudioBool true) true
  = inr [Log "MoviePy - Building video out.mp4.";
         WriteAudio "outTEMP_MPY_wvf_snd.mp3" "libmp3lame";
         WriteVideo "out.mp4" "libx264" (Some "outTEMP_MPY_wvf_snd.mp3");
         Remove "outTEMP_MPY_wvf_snd.mp3";
         Log "MoviePy - video ready out.mp4"]
  /\ sample_write true "out.mp4" None (AudioFile "song.mp3") true
     = inr [Log "MoviePy - Building video out.mp4.";
            WriteVideo "out.mp4" "libx264" (Some "song.mp3");
            Log "MoviePy - video ready out.mp4"]
  /\ exists msg,
       sample_write true "out.xyz" None (AudioBool true) true
       = inl (ValueError msg).
Proof.
  split; [| split].
  - destruct (sample_write true "out.mp4" None (AudioBool true) true)
      as [e | effects] eqn:Hw; [done |].
    destruct (proj2 (X23_write_videofile_files cut_at_dot id
                       sample_extensions sample_find_extension
                       (fun dir file => dir +:+ file) "TEMP_MPY_"
                       (fun _ => true) true "out.mp4" None (AudioBool true)
                       None None EmptyString true) effects Hw)
      as (c & written & audiofile & removed & -> & _).
    vm_compute in Hw. injection Hw as Hw. rewrite Hw. reflexivity.
  - destruct (sample_write true "out.mp4" None (AudioFile "song.mp3") true)
      as [e | effects] eqn:Hw; [done |].
    destruct (proj2 (X23_write_videofile_files cut_at_dot id
                       sample_extensions sample_find_extension
                       (fun dir file => dir +:+ file) "TEMP_MPY_"
                       (fun _ => true) true "out.mp4" None
                       (AudioFile "song.mp3") None None EmptyString true)
                effects Hw)
      as (c & written & audiofile & removed & -> & _ & _ & Hfile & _).
    destruct (Hfile "song.mp3" eq_refl) as (-> & -> & ->).
    vm_compute in Hw. injection Hw as ->. reflexivity.
  - apply (proj1 (X23_write_videofile_files cut_at_dot id
                    sample_extensions sample_find_extension
                    (fun dir file => dir +:+ file) "TEMP_MPY_"
                    (fun _ => true) true "out.xyz" None (AudioBool true)
                    None None EmptyString true)); reflexivity.
Defined.

End WritingFacts.
